(** * tiny-pastebin: the paste store and its expiry index

    A shallow embedding of the storage layer of tiny-pastebin and of the
    janitor that sweeps it:

    - [storage]      the [Paste] record and the error values
                     (internal/storage),
    - [boltstore]    the embedded backend: a primary bucket and a
                     hand-maintained expiry index inside one bbolt
                     transaction (internal/storage/boltstore),
    - [sqlitestore]  the relational backend (internal/storage/sqlitestore),
    - [httpserver]   [StartJanitor] and [cleanOnce]
                     (internal/httpserver/janitor.go),
    - [security]     the argon2id password hashes (internal/security),
    - [idgen]        the generator of identifiers (internal/id),
    - [web]          the server, its handlers and the rate limiter
                     (internal/httpserver: server.go, handlers.go,
                     middleware.go),
    - [memoryStore]  the in-memory store of the handler tests.

    Conventions.  A Go [string] is a Rocq [string] (a sequence of bytes),
    [[]byte] is [list byte], [uint64] and [int64] are [Z] with the
    wrap-around written out, Go's [int] and [time.Duration] are [Z].  A
    pointer argument is an [option] (nil is [None]) and a function that
    writes through it returns the pointee it leaves behind.  A bbolt bucket
    is its sequence of key/value pairs in ascending [bytes.Compare] order,
    which is the order a cursor walks it in.  A read-write transaction is a
    state-and-error monad over the database: an error (or a panic) abandons
    the state, which is what the rollback of [db.Update] does.

    encoding/json is not part of the repository.  The embedded backend is
    parameterised by a codec ([json_Marshal], [json_Unmarshal]); the
    theorems that depend on it assume what encoding/json does: decoding
    what the encoder wrote for a record with UTC timestamps gives back the
    record with every string coerced to valid UTF-8, each byte that is not
    part of a valid encoding replaced by U+FFFD ([json.coerce]).  A string
    that is valid UTF-8 comes back as it is, any other does not.

    The other libraries the HTTP layer calls are fields of the classes
    [Crypto], [Web] and [web.Rate] (argon2, [fmt.Sscanf], the templates,
    HMAC and SHA-256, the QR encoder, net/url, the token bucket); what a
    theorem needs of them is a hypothesis of that theorem.  The parts of
    the standard library the code depends on byte for byte are written
    out: unpadded base64, [strings.Split], [hex.EncodeToString] and
    [subtle.ConstantTimeCompare].  A handler is a function from the request,
    the clock and the store to the response, the store and the log it
    leaves; [Panics] is a call that does not return. *)

From Stdlib Require Import ZArith List Lia String Bool Sorted.
From Stdlib Require Import Init.Byte Strings.Byte.
From Stdlib Require Import Ascii DecimalString DecimalZ.
From coqutil Require Import Byte Z.bitblast.
From stdpp Require Import gmap strings.
Import ListNotations.

#[local] Open Scope string_scope.
#[local] Open Scope Z_scope.

(* ================================================================== *)
(** * Part I: the model                                                *)
(* ================================================================== *)

Abbreviation bytes := (list byte).

(** [[]byte(s)] and [string(b)]. *)
Definition bytes_of_string (s : string) : bytes := list_byte_of_string s.
Definition string_of_bytes (b : bytes) : string := string_of_list_byte b.

(** ** Machine integers *)

Definition uint64 (z : Z) : Z := z mod 2 ^ 64.
Definition int64 (z : Z) : Z := (z + 2 ^ 63) mod 2 ^ 64 - 2 ^ 63.

(** ** Errors *)

Inductive error : Type :=
| errors_New (msg : string)
| fmt_Errorf_w (prefix : string) (err : error)   (* fmt.Errorf("prefix: %w", err) *)
| context_Canceled
| context_DeadlineExceeded
| bolt_ErrKeyRequired
| bolt_ErrKeyTooLarge
| bolt_ErrValueTooLarge
| json_Error (msg : string)
| sql_ErrNoRows
| runtime_panic (msg : string).

(** [errors.Is]: walks the chain of [%w] wrappers. *)
Fixpoint error_eqb (a b : error) : bool :=
  match a, b with
  | errors_New m, errors_New n => String.eqb m n
  | fmt_Errorf_w p e, fmt_Errorf_w q f => String.eqb p q && error_eqb e f
  | context_Canceled, context_Canceled => true
  | context_DeadlineExceeded, context_DeadlineExceeded => true
  | bolt_ErrKeyRequired, bolt_ErrKeyRequired => true
  | bolt_ErrKeyTooLarge, bolt_ErrKeyTooLarge => true
  | bolt_ErrValueTooLarge, bolt_ErrValueTooLarge => true
  | json_Error m, json_Error n => String.eqb m n
  | sql_ErrNoRows, sql_ErrNoRows => true
  | runtime_panic m, runtime_panic n => String.eqb m n
  | _, _ => false
  end.

Fixpoint errors_Is (err target : error) : bool :=
  error_eqb err target ||
  match err with
  | fmt_Errorf_w _ inner => errors_Is inner target
  | _ => false
  end.

(** ** package time *)

Module time.

(** [time.Duration]: a count of nanoseconds. *)
Definition Duration := Z.
Definition Nanosecond : Duration := 1.
Definition Second : Duration := 1000000000 * Nanosecond.
Definition Minute : Duration := 60 * Second.
Definition Hour : Duration := 60 * Minute.

Inductive Location : Type :=
| UTCLoc
| LocalLoc
| FixedZone (name : string) (offset : Z).

(** A [time.Time] is an instant and the location it is shown in.  Go keeps
    the instant as seconds since January 1 of year 1 and a nanosecond
    part; [instant] is that count in nanoseconds.  The monotonic clock
    reading is left out (both [UTC] and a JSON round trip strip it). *)
Record Time : Type := mkTime { instant : Z; loc : Location }.

(** The zero value [time.Time{}]. *)
Definition zero : Time := mkTime 0 UTCLoc.

Definition IsZero (t : Time) : bool := instant t =? 0.

Definition UTC (t : Time) : Time := mkTime (instant t) UTCLoc.

(** Seconds from January 1 of year 1 to January 1, 1970. *)
Definition unixToInternal : Z :=
  (1969 * 365 + 1969 / 4 - 1969 / 100 + 1969 / 400) * 86400.

(** The mathematical count of nanoseconds since the Unix epoch. *)
Definition unix_ns (t : Time) : Z := instant t - unixToInternal * 1000000000.

(** [t.UnixNano()]: computed in int64, so it wraps outside 1678..2262. *)
Definition UnixNano (t : Time) : Z := int64 (unix_ns t).

Definition Before (t u : Time) : bool := instant t <? instant u.
Definition After (t u : Time) : bool := instant u <? instant t.
Definition Equal (t u : Time) : bool := instant t =? instant u.

Definition Add (t : Time) (d : Duration) : Time := mkTime (instant t + d) (loc t).

(** [time.Unix(0, ns)] shown in UTC. *)
Definition Unix_ns (ns : Z) : Time := mkTime (ns + unixToInternal * 1000000000) UTCLoc.

End time.

(** ** package bytes *)

(** [bytes.Compare]: lexicographic order on unsigned bytes. *)
Fixpoint bytes_Compare (a b : bytes) : comparison :=
  match a, b with
  | [], [] => Eq
  | [], _ :: _ => Lt
  | _ :: _, [] => Gt
  | x :: a', y :: b' =>
      match byte.compare x y with
      | Eq => bytes_Compare a' b'
      | c => c
      end
  end.

Definition bytes_eqb (a b : bytes) : bool :=
  match bytes_Compare a b with Eq => true | _ => false end.

(** ** package encoding/binary *)

Module binary.

(** [binary.BigEndian.PutUint64(b, v)]: the eight bytes it writes. *)
Definition PutUint64 (v : Z) : bytes :=
  [ byte.of_Z (Z.shiftr v 56); byte.of_Z (Z.shiftr v 48);
    byte.of_Z (Z.shiftr v 40); byte.of_Z (Z.shiftr v 32);
    byte.of_Z (Z.shiftr v 24); byte.of_Z (Z.shiftr v 16);
    byte.of_Z (Z.shiftr v 8);  byte.of_Z v ].

(** [binary.BigEndian.Uint64(b)]; a slice shorter than eight bytes fails
    the bounds check ([None], a run-time panic in Go). *)
Definition Uint64 (b : bytes) : option Z :=
  match b with
  | b0 :: b1 :: b2 :: b3 :: b4 :: b5 :: b6 :: b7 :: _ =>
      Some (Z.lor (byte.unsigned b7)
           (Z.lor (Z.shiftl (byte.unsigned b6) 8)
           (Z.lor (Z.shiftl (byte.unsigned b5) 16)
           (Z.lor (Z.shiftl (byte.unsigned b4) 24)
           (Z.lor (Z.shiftl (byte.unsigned b3) 32)
           (Z.lor (Z.shiftl (byte.unsigned b2) 40)
           (Z.lor (Z.shiftl (byte.unsigned b1) 48)
                  (Z.shiftl (byte.unsigned b0) 56))))))))
  | _ => None
  end.

End binary.

(** [key[:8]]: slicing past the length panics. *)
Definition slice_to (n : nat) (b : bytes) : option bytes :=
  if (length b <? n)%nat then None else Some (firstn n b).

(** The number a byte string denotes when read big-endian, and the [n]
    big-endian digits of a number: what [Uint64] and [PutUint64] compute,
    in arithmetic. *)
Fixpoint be_value (b : bytes) : Z :=
  match b with
  | [] => 0
  | x :: b' => byte.unsigned x * 256 ^ Z.of_nat (length b') + be_value b'
  end.

Fixpoint be_digits (n : nat) (v : Z) : bytes :=
  match n with
  | O => []
  | S m => byte.of_Z (v / 256 ^ Z.of_nat m) :: be_digits m v
  end.

(** ** package context *)

Module context.

(** What an operation can see of a [context.Context] when it is called:
    [Err] is [ctx.Err()] (nil while the context is live) and [timeout] is
    the time left until its deadline, if it has one. *)
Record Context : Type := mkContext { Err : option error; timeout : option time.Duration }.

Definition Background : Context := mkContext None None.

(** A context that was cancelled before the call. *)
Definition Cancelled : Context := mkContext (Some context_Canceled) None.

Definition WithTimeout (parent : Context) (d : time.Duration) : Context :=
  mkContext
    (match Err parent with
     | Some e => Some e
     | None => if d <=? 0 then Some context_DeadlineExceeded else None
     end)
    (match timeout parent with
     | Some remaining => Some (Z.min remaining d)
     | None => Some d
     end).

End context.

(** ** package storage *)

Module storage.

Definition ErrNotFound : error := errors_New "paste not found".

Record Paste : Type := mkPaste {
  ID : string;
  Content : string;
  Syntax : string;
  CreatedAt : time.Time;
  ExpiresAt : time.Time;
  PasswordHash : string;
  Size : Z
}.

Definition HasExpiration (p : Paste) : bool := negb (time.IsZero (ExpiresAt p)).

Definition set_CreatedAt (t : time.Time) (p : Paste) : Paste :=
  mkPaste (ID p) (Content p) (Syntax p) t (ExpiresAt p) (PasswordHash p) (Size p).

Definition set_ExpiresAt (t : time.Time) (p : Paste) : Paste :=
  mkPaste (ID p) (Content p) (Syntax p) (CreatedAt p) t (PasswordHash p) (Size p).

(** The [Store] interface, for a backend whose state has type [S].  An
    operation takes the state and returns the state it leaves; [Save] also
    returns the record its pointer argument points to afterwards.  An
    error [runtime_panic] stands for a call that panics instead of
    returning. *)
Class Store (S : Type) : Type := {
  Save : context.Context -> option Paste -> S -> option error * S * option Paste;
  Get : context.Context -> string -> S -> option Paste * option error;
  Delete : context.Context -> string -> S -> option error * S;
  DeleteExpired : context.Context -> time.Time -> S -> Z * option error * S
}.

End storage.

(** ** package unicode/utf8, and what encoding/json makes of a string *)

Module utf8.

Definition code (c : ascii) : Z := Z.of_N (N_of_ascii c).

Definition between (lo hi b : Z) : bool := (lo <=? b) && (b <=? hi).

(** [utf8.DecodeRuneInString(s)]: the number of bytes of the encoding at
    the start of [s]; 0 where it returns [(RuneError, 1)], that is where
    the first byte of [s] does not start a valid encoding (and for the
    empty string).  The second byte of a sequence is held to the range
    that excludes overlong forms, surrogates and values above U+10FFFF. *)
Definition rune_size (s : string) : nat :=
  match s with
  | EmptyString => 0
  | String c0 s1 =>
      let b0 := code c0 in
      if b0 <? 128 then 1
      else if between 194 223 b0 then
        match s1 with
        | String c1 _ => if between 128 191 (code c1) then 2 else 0
        | _ => 0
        end
      else if between 224 239 b0 then
        match s1 with
        | String c1 (String c2 _) =>
            if between (if b0 =? 224 then 160 else 128)
                 (if b0 =? 237 then 159 else 191) (code c1)
               && between 128 191 (code c2)
            then 3 else 0
        | _ => 0
        end
      else if between 240 244 b0 then
        match s1 with
        | String c1 (String c2 (String c3 _)) =>
            if between (if b0 =? 240 then 144 else 128)
                 (if b0 =? 244 then 143 else 191) (code c1)
               && between 128 191 (code c2) && between 128 191 (code c3)
            then 4 else 0
        | _ => 0
        end
      else 0
  end.

End utf8.

Module json.
Import storage.

(** U+FFFD, the replacement character, in UTF-8. *)
Definition replacement : string :=
  String (ascii_of_nat 239) (String (ascii_of_nat 191) (String (ascii_of_nat 189) "")).

(** The string [json.Unmarshal] reads back from what [json.Marshal] wrote
    for [s].  The encoder walks the string: an ASCII byte and a valid
    multi-byte encoding are written so that the decoder restores them (as
    they are or escaped), and a byte for which [utf8.DecodeRuneInString]
    returns [(RuneError, 1)] is written as the escape of U+FFFD.  [inside]
    counts the bytes still to copy of the encoding the walk is in. *)
Fixpoint coerce_from (inside : nat) (s : string) : string :=
  match s with
  | EmptyString => EmptyString
  | String c s' =>
      match inside with
      | S k => String c (coerce_from k s')
      | O =>
          match utf8.rune_size s with
          | O => replacement ++ coerce_from 0 s'
          | S k => String c (coerce_from k s')
          end
      end
  end.

Definition coerce (s : string) : string := coerce_from 0 s.

(** A string that is valid UTF-8: the codec gives it back as it is. *)
Definition valid (s : string) : Prop := coerce s = s.

(** A record as it comes back from the codec: the four string fields
    coerced, the times and the size as they were. *)
Definition coerced (p : Paste) : Paste :=
  mkPaste (coerce (ID p)) (coerce (Content p)) (coerce (Syntax p))
    (CreatedAt p) (ExpiresAt p) (coerce (PasswordHash p)) (Size p).

End json.

(** ** package bbolt *)

Module bolt.

Definition MaxKeySize : Z := 32768.
Definition MaxValueSize : Z := Z.shiftl 1 31 - 2.

(** The pairs of a B+tree in ascending key order; the values of a bucket
    are byte strings, those of the root are the buckets. *)
Section Tree.
Context {V : Type}.

Fixpoint lookup (key : bytes) (t : list (bytes * V)) : option V :=
  match t with
  | [] => None
  | (k, v) :: t' => if bytes_eqb k key then Some v else lookup key t'
  end.

Fixpoint insert (key : bytes) (value : V) (t : list (bytes * V)) : list (bytes * V) :=
  match t with
  | [] => [(key, value)]
  | (k, v) :: t' =>
      match bytes_Compare key k with
      | Lt => (key, value) :: (k, v) :: t'
      | Eq => (key, value) :: t'
      | Gt => (k, v) :: insert key value t'
      end
  end.

Definition remove (key : bytes) (t : list (bytes * V)) : list (bytes * V) :=
  List.filter (fun kv => negb (bytes_eqb (fst kv) key)) t.

End Tree.

Definition Bucket : Type := list (bytes * bytes).

(** The file: the root maps bucket names to buckets. *)
Definition DB : Type := list (bytes * Bucket).

(** The body of a transaction.  [inl err] is the closure returning [err]
    (or panicking): the state it had reached is dropped. *)
Definition Tx (A : Type) : Type := DB -> error + (A * DB).

#[global] Instance Tx_ret : MRet Tx := fun A a db => inr (a, db).
#[global] Instance Tx_bind : MBind Tx := fun A B f m db =>
  match m db with
  | inl e => inl e
  | inr (a, db') => f a db'
  end.

Definition fail {A : Type} (e : error) : Tx A := fun _ => inl e.

(** [if err := m; err != nil { return fmt.Errorf("prefix: %w", err) }] *)
Definition wrap {A : Type} (prefix : string) (m : Tx A) : Tx A := fun db =>
  match m db with
  | inl e => inl (fmt_Errorf_w prefix e)
  | inr r => inr r
  end.

(** [tx.Bucket(name)]: the handle of the bucket, nil when there is none. *)
Definition tx_Bucket (name : bytes) : Tx (option bytes) := fun db =>
  inr (match lookup name db with Some _ => Some name | None => None end, db).

Definition tx_CreateBucketIfNotExists (name : bytes) : Tx unit := fun db =>
  match lookup name db with
  | Some _ => inr (tt, db)
  | None => inr (tt, insert name ([] : Bucket) db)
  end.

Definition nil_bucket {A : Type} : Tx A :=
  fail (runtime_panic "invalid memory address or nil pointer dereference").

(** [b.Get(key)]: nil when the key is absent. *)
Definition Bucket_Get (b key : bytes) : Tx (option bytes) := fun db =>
  match lookup b db with
  | Some bucket => inr (lookup key bucket, db)
  | None => nil_bucket db
  end.

(** The checks of [b.Put(key, value)], in its order. *)
Definition Put_check (key value : bytes) : option error :=
  if Z.of_nat (length key) =? 0 then Some bolt_ErrKeyRequired
  else if Z.of_nat (length key) >? MaxKeySize then Some bolt_ErrKeyTooLarge
  else if Z.of_nat (length value) >? MaxValueSize then Some bolt_ErrValueTooLarge
  else None.

(** [b.Put(key, value)] *)
Definition Bucket_Put (b key value : bytes) : Tx unit := fun db =>
  match lookup b db with
  | Some bucket =>
      match Put_check key value with
      | Some err => inl err
      | None => inr (tt, insert b (insert key value bucket) db)
      end
  | None => nil_bucket db
  end.

(** [b.Delete(key)]: no error when the key is absent. *)
Definition Bucket_Delete (b key : bytes) : Tx unit := fun db =>
  match lookup b db with
  | Some bucket => inr (tt, insert b (remove key bucket) db)
  | None => nil_bucket db
  end.

(** [b.Cursor()] followed by [First()] and [Next()] until nil: the pairs of
    the bucket in ascending key order.  The cursor of a transaction that
    has not written to the bucket before walks the pages of the bucket,
    which the deletions of the transaction do not change. *)
Definition Bucket_Cursor (b : bytes) : Tx (list (bytes * bytes)) := fun db =>
  match lookup b db with
  | Some bucket => inr (bucket, db)
  | None => nil_bucket db
  end.

(** [cursor.Delete()] on the pair the cursor is at. *)
Definition Cursor_Delete (b key : bytes) : Tx unit := Bucket_Delete b key.

(** [db.Update(fn)]: commit when [fn] returns nil, roll back otherwise.
    What [fn] leaves in the variables it captured is its result. *)
Definition Update {A : Type} (fn : Tx A) (db : DB) : (error + A) * DB :=
  match fn db with
  | inl e => (inl e, db)
  | inr (a, db') => (inr a, db')
  end.

(** [db.View(fn)]: a read-only transaction. *)
Definition View {A : Type} (fn : Tx A) (db : DB) : error + A :=
  match fn db with
  | inl e => inl e
  | inr (a, _) => inr a
  end.

End bolt.

(** ** package boltstore *)

Module boltstore.
Import storage.

Definition pasteBucket : bytes := bytes_of_string "pastes".
Definition expireBucket : bytes := bytes_of_string "expires".

Definition toTimestamp (t : time.Time) : Z :=
  if time.IsZero t then 0
  else uint64 (time.UnixNano (time.UTC t)).

(** The index key: eight bytes of timestamp, then the id. *)
Definition expireKey (t : time.Time) (id : string) : bytes :=
  binary.PutUint64 (toTimestamp t) ++ bytes_of_string id.

(** The state of a [Store] is the content of its database file. *)
Definition Store : Type := bolt.DB.

(** [Open] on the content of the file at [path]. *)
Definition Open (file : bolt.DB) : error + Store :=
  match
    bolt.Update
      (bolt.wrap "create paste bucket" (bolt.tx_CreateBucketIfNotExists pasteBucket);;
       bolt.wrap "create expire bucket" (bolt.tx_CreateBucketIfNotExists expireBucket))
      file
  with
  | (inl err, _) => inl err
  | (inr _, db) => inr db
  end.

(** A store opened on a new file. *)
Definition new_store : Store :=
  match Open [] with
  | inr s => s
  | inl _ => []
  end.

Section Codec.

(** [json.Marshal(paste)] and [json.Unmarshal(data, &paste)]. *)
Variable json_Marshal : Paste -> error + bytes.
Variable json_Unmarshal : bytes -> error + Paste.

(** The transaction of [Save]. *)
Definition Save_tx (paste : Paste) (data : bytes) : bolt.Tx unit :=
  pBucket ← bolt.tx_Bucket pasteBucket;
  eBucket ← bolt.tx_Bucket expireBucket;
  match pBucket, eBucket with
  | Some pBucket, Some eBucket =>
      existing ← bolt.Bucket_Get pBucket (bytes_of_string (ID paste));
      match existing with
      | Some existing =>
          match json_Unmarshal existing with
          | inr prev =>
              if HasExpiration prev then
                bolt.wrap "remove previous expiry index"
                  (bolt.Bucket_Delete eBucket (expireKey (ExpiresAt prev) (ID prev)))
              else mret tt
          | inl _ => mret tt
          end
      | None => mret tt
      end;;
      bolt.wrap "save paste"
        (bolt.Bucket_Put pBucket (bytes_of_string (ID paste)) data);;
      if HasExpiration paste then
        bolt.wrap "index expiry"
          (bolt.Bucket_Put eBucket (expireKey (ExpiresAt paste) (ID paste))
             (bytes_of_string (ID paste)))
      else mret tt
  | _, _ => bolt.fail (errors_New "buckets not initialized")
  end.

(** [Save] persists or updates a paste entry. *)
Definition Save (ctx : context.Context) (paste : option Paste) (s : Store)
  : option error * Store * option Paste :=
  match paste with
  | None => (Some (errors_New "paste is nil"), s, None)
  | Some paste =>
      match context.Err ctx with
      | Some err => (Some err, s, Some paste)
      | None =>
          let paste := set_CreatedAt (time.UTC (CreatedAt paste)) paste in
          let paste := set_ExpiresAt (time.UTC (ExpiresAt paste)) paste in
          match json_Marshal paste with
          | inl err => (Some (fmt_Errorf_w "marshal paste" err), s, Some paste)
          | inr data =>
              match bolt.Update (Save_tx paste data) s with
              | (inl err, s') => (Some err, s', Some paste)
              | (inr _, s') => (None, s', Some paste)
              end
          end
      end
  end.

(** [Get] retrieves a paste by id. *)
Definition Get (ctx : context.Context) (id : string) (s : Store)
  : option Paste * option error :=
  match context.Err ctx with
  | Some err => (None, Some err)
  | None =>
      match
        bolt.View
          (bucket ← bolt.tx_Bucket pasteBucket;
           match bucket with
           | None => bolt.fail (errors_New "pastes bucket missing")
           | Some bucket =>
               raw ← bolt.Bucket_Get bucket (bytes_of_string id);
               match raw with
               | None => bolt.fail ErrNotFound
               | Some raw =>
                   match json_Unmarshal raw with
                   | inl err => bolt.fail (fmt_Errorf_w "unmarshal paste" err)
                   | inr paste => mret paste
                   end
               end
           end)
          s
      with
      | inl err => (None, Some err)
      | inr paste => (Some paste, None)
      end
  end.

(** [Delete] removes a paste. *)
Definition Delete (ctx : context.Context) (id : string) (s : Store)
  : option error * Store :=
  match context.Err ctx with
  | Some err => (Some err, s)
  | None =>
      match bolt.Update
        (pBucket ← bolt.tx_Bucket pasteBucket;
         eBucket ← bolt.tx_Bucket expireBucket;
         match pBucket, eBucket with
         | Some pBucket, Some eBucket =>
             raw ← bolt.Bucket_Get pBucket (bytes_of_string id);
             match raw with
             | None => bolt.fail ErrNotFound
             | Some raw =>
                 match json_Unmarshal raw with
                 | inr paste =>
                     if HasExpiration paste then
                       bolt.wrap "delete expiry index"
                         (bolt.Bucket_Delete eBucket
                            (expireKey (ExpiresAt paste) (ID paste)))
                     else mret tt
                 | inl _ => mret tt
                 end;;
                 bolt.wrap "delete paste"
                   (bolt.Bucket_Delete pBucket (bytes_of_string id))
             end
         | _, _ => bolt.fail (errors_New "buckets not initialized")
         end)
        s
      with
      | (inl err, s') => (Some err, s')
      | (inr _, s') => (None, s')
      end
  end.

End Codec.

(** The loop of [DeleteExpired].  [cursor] is what the cursor has still to
    visit, the pair it is at first; deleting that pair leaves the pairs
    after it to [Next()].  A key shorter than eight bytes makes [key[:8]]
    panic. *)
Fixpoint sweep (pBucket eBucket : bytes) (cutoff : Z)
  (cursor : list (bytes * bytes)) (removed : Z) : bolt.Tx Z :=
  match cursor with
  | [] => mret removed
  | (key, val) :: cursor' =>
      match slice_to 8 key ≫= binary.Uint64 with
      | None => bolt.fail (runtime_panic "slice bounds out of range")
      | Some ts =>
          if ts >? cutoff then mret removed
          else
            let id := string_of_bytes val in
            bolt.wrap ("delete expired paste " ++ id)
              (bolt.Bucket_Delete pBucket (bytes_of_string id));;
            bolt.wrap "delete expiry index" (bolt.Cursor_Delete eBucket key);;
            sweep pBucket eBucket cutoff cursor' (removed + 1)
      end
  end.

(** [DeleteExpired] removes all pastes with expiry before or equal to the
    provided time.  (The count is 0 whenever the model returns an error:
    the only error the closure returns comes before the loop.) *)
Definition DeleteExpired (ctx : context.Context) (before : time.Time) (s : Store)
  : Z * option error * Store :=
  match context.Err ctx with
  | Some err => (0, Some err, s)
  | None =>
      let before := time.UTC before in
      match bolt.Update
        (pBucket ← bolt.tx_Bucket pasteBucket;
         eBucket ← bolt.tx_Bucket expireBucket;
         match pBucket, eBucket with
         | Some pBucket, Some eBucket =>
             cursor ← bolt.Bucket_Cursor eBucket;
             let cutoff := toTimestamp before in
             sweep pBucket eBucket cutoff cursor 0
         | _, _ => bolt.fail (errors_New "buckets not initialized")
         end) s
      with
      | (inl err, s') => (0, Some err, s')
      | (inr removed, s') => (removed, None, s')
      end
  end.

End boltstore.

(** ** package sqlitestore *)

Module sqlitestore.
Import storage.

(** A row of the table [pastes]; the primary key [id] is the key of the
    map.  A nullable column is an [option]. *)
Record Row : Type := mkRow {
  content : bytes;
  syntax : string;
  created_at : time.Time;
  expires_at : option time.Time;
  password_hash : option string;
  size : Z
}.

(** The state of a [Store] is the table. *)
Abbreviation Store := (gmap string Row).

(** [db.ExecContext(ctx, q, args...)]: a statement maps the table to the
    number of rows it affected and the table it leaves.  A context that is
    already done fails the call before the statement runs. *)
Definition ExecContext (ctx : context.Context) (stmt : Store -> Z * Store) (s : Store)
  : (error + Z) * Store :=
  match context.Err ctx with
  | Some err => (inl err, s)
  | None => let '(rows, s') := stmt s in (inr rows, s')
  end.

(** [db.QueryRowContext(ctx, q, id)] followed by [row.Scan]. *)
Definition QueryRowContext (ctx : context.Context) (id : string) (s : Store)
  : error + Row :=
  match context.Err ctx with
  | Some err => inl err
  | None =>
      match s !! id with
      | Some row => inr row
      | None => inl sql_ErrNoRows
      end
  end.

(** INSERT INTO pastes ... ON CONFLICT(id) DO UPDATE SET (every column) *)
Definition stmt_upsert (id : string) (row : Row) (s : Store) : Z * Store :=
  (1, <[id := row]> s).

(** DELETE FROM pastes WHERE id = ? *)
Definition stmt_delete (id : string) (s : Store) : Z * Store :=
  (match s !! id with Some _ => 1 | None => 0 end, delete id s).

(** expires_at IS NOT NULL AND expires_at <= ? *)
Definition expired (before : time.Time) (row : Row) : bool :=
  match expires_at row with
  | Some e => negb (time.After e before)
  | None => false
  end.

(** DELETE FROM pastes WHERE expires_at IS NOT NULL AND expires_at <= ? *)
Definition stmt_delete_expired (before : time.Time) (s : Store) : Z * Store :=
  (Z.of_nat (base.size (filter (fun kv => expired before kv.2 = true) s)),
   filter (fun kv => expired before kv.2 = false) s).

Definition nullableTime (t : time.Time) : option time.Time :=
  if time.IsZero t then None else Some (time.UTC t).

Definition nullString (s : string) : option string :=
  if String.eqb s "" then None else Some s.

(** [Save] inserts or updates a paste. *)
Definition Save (ctx : context.Context) (paste : option Paste) (s : Store)
  : option error * Store * option Paste :=
  match paste with
  | None => (Some (errors_New "paste is nil"), s, None)
  | Some paste =>
      let paste := set_CreatedAt (time.UTC (CreatedAt paste)) paste in
      let paste := set_ExpiresAt (time.UTC (ExpiresAt paste)) paste in
      match
        ExecContext ctx
          (stmt_upsert (ID paste)
             (mkRow (bytes_of_string (Content paste)) (Syntax paste)
                (CreatedAt paste) (nullableTime (ExpiresAt paste))
                (nullString (PasswordHash paste)) (Size paste)))
          s
      with
      | (inl err, s') => (Some (fmt_Errorf_w "save paste" err), s', Some paste)
      | (inr _, s') => (None, s', Some paste)
      end
  end.

(** [Get] fetches a paste by id. *)
Definition Get (ctx : context.Context) (id : string) (s : Store)
  : option Paste * option error :=
  match QueryRowContext ctx id s with
  | inl err =>
      if errors_Is err sql_ErrNoRows then (None, Some ErrNotFound)
      else (None, Some (fmt_Errorf_w "query paste" err))
  | inr row =>
      let paste :=
        mkPaste id (string_of_bytes (content row)) (syntax row)
          (time.UTC (created_at row)) time.zero
          (match password_hash row with Some h => h | None => "" end)
          (size row) in
      let paste :=
        match expires_at row with
        | Some e => set_ExpiresAt (time.UTC e) paste
        | None => paste
        end in
      (Some paste, None)
  end.

(** [Delete] removes a paste by id. *)
Definition Delete (ctx : context.Context) (id : string) (s : Store)
  : option error * Store :=
  match ExecContext ctx (stmt_delete id) s with
  | (inl err, s') => (Some (fmt_Errorf_w "delete paste" err), s')
  | (inr rows, s') =>
      if rows =? 0 then (Some ErrNotFound, s') else (None, s')
  end.

(** [DeleteExpired] removes all expired pastes. *)
Definition DeleteExpired (ctx : context.Context) (before : time.Time) (s : Store)
  : Z * option error * Store :=
  match ExecContext ctx (stmt_delete_expired (time.UTC before)) s with
  | (inl err, s') => (0, Some (fmt_Errorf_w "delete expired" err), s')
  | (inr rows, s') => (rows, None, s')
  end.

#[global] Instance sqlite_Store : storage.Store Store :=
  {| storage.Save := Save; storage.Get := Get;
     storage.Delete := Delete; storage.DeleteExpired := DeleteExpired |}.

End sqlitestore.

(** ** package httpserver: the janitor *)

Module httpserver.

Inductive Level : Type := LevelInfo | LevelError.

Inductive Attr : Type :=
| attr_error (key : string) (err : error)
| attr_int (key : string) (n : Z).

Record Record_ : Type := mkRecord { level : Level; msg : string; attr : Attr }.

(** A [*slog.Logger] is modelled by the records it has been handed; the
    nil pointer is [None]. *)
Definition Logger : Type := list Record_.

(** What a call does: it returns, or the goroutine panics. *)
Inductive outcome (A : Type) : Type :=
| Returns (a : A)
| Panics (msg : string).
Arguments Returns {A} a.
Arguments Panics {A} msg.

(** A method call on a [*slog.Logger]: a nil receiver is dereferenced. *)
Definition Logger_log (l : option Logger) (r : Record_) : outcome (option Logger) :=
  match l with
  | Some records => Returns (Some (records ++ [r])%list)
  | None => Panics "invalid memory address or nil pointer dereference"
  end.

Definition Logger_Error (l : option Logger) (msg : string) (a : Attr) :=
  Logger_log l (mkRecord LevelError msg a).

Definition Logger_Info (l : option Logger) (msg : string) (a : Attr) :=
  Logger_log l (mkRecord LevelInfo msg a).

(** The timeout of one sweep. *)
Definition cleanOnce_timeout : time.Duration := 5 * time.Second.

Section Janitor.
Context {S : Type} `{storage.Store S}.

(** [cleanOnce]; [now] is what [time.Now()] returns.  Nothing recovers a
    panic of the store: it unwinds through [cleanOnce]. *)
Definition cleanOnce (ctx : context.Context) (now : time.Time) (store : S)
  (logger : option Logger) : outcome (S * option Logger) :=
  let c := context.WithTimeout ctx cleanOnce_timeout in
  let '(removed, err, store) := storage.DeleteExpired c now store in
  match err with
  | Some (runtime_panic m) => Panics m
  | Some err =>
      match logger with
      | Some _ =>
          match Logger_Error logger "janitor error" (attr_error "error" err) with
          | Returns logger => Returns (store, logger)
          | Panics m => Panics m
          end
      | None => Returns (store, logger)
      end
  | None =>
      if (removed >? 0) && (match logger with Some _ => true | None => false end)
      then
        match Logger_Info logger "janitor removed expired pastes"
                (attr_int "count" removed) with
        | Returns logger => Returns (store, logger)
        | Panics m => Panics m
        end
      else Returns (store, logger)
  end.

(** What the goroutine of the janitor receives, in order: the ticker
    firing (with the time [cleanOnce] then reads), or [ctx.Done()]. *)
Inductive event : Type :=
| ticker_C (ctx : context.Context) (now : time.Time)
| ctx_Done.

(** The loop of the goroutine, on the events it receives. *)
Fixpoint janitor_loop (events : list event) (store : S) (logger : option Logger)
  : outcome (S * option Logger) :=
  match events with
  | [] => Returns (store, logger)
  | ctx_Done :: _ => Returns (store, logger)
  | ticker_C ctx now :: events' =>
      match cleanOnce ctx now store logger with
      | Returns (store, logger) => janitor_loop events' store logger
      | Panics m => Panics m
      end
  end.

(** [StartJanitor]: the ticker it creates and what its goroutine does. *)
Definition StartJanitor (store : S) (interval : time.Duration)
  (logger : option Logger) (events : list event)
  : time.Duration * outcome (S * option Logger) :=
  let interval := if interval <=? 0 then time.Minute else interval in
  (interval, janitor_loop events store logger).

End Janitor.

End httpserver.

(** ** A store that records how the janitor calls it *)

Module probe.

(** The state is the list of the contexts [DeleteExpired] has been called
    with, the oldest first; nothing is stored and no call fails. *)
Definition Store : Type := list context.Context.

Definition probe_Store : storage.Store Store :=
  {| storage.Save := fun _ paste calls => (None, calls, paste);
     storage.Get := fun _ _ _ => (None, Some storage.ErrNotFound);
     storage.Delete := fun _ _ calls => (Some storage.ErrNotFound, calls);
     storage.DeleteExpired := fun ctx _ calls => (0, None, (calls ++ [ctx])%list) |}.

(** The contexts of the janitor at the ticks its loop serves: those
    before the first [ctx.Done()]. *)
Fixpoint ticks (events : list httpserver.event) : list context.Context :=
  match events with
  | [] => []
  | httpserver.ctx_Done :: _ => []
  | httpserver.ticker_C ctx _ :: events' => ctx :: ticks events'
  end.

End probe.

(** ** Vocabulary of the statements *)

Module boltspec.
Import storage boltstore.

(** A record whose timestamps [Save] has normalised. *)
Definition normalize (p : Paste) : Paste :=
  set_ExpiresAt (time.UTC (ExpiresAt p)) (set_CreatedAt (time.UTC (CreatedAt p)) p).

Definition normalized (p : Paste) : Prop :=
  time.loc (CreatedAt p) = time.UTCLoc /\ time.loc (ExpiresAt p) = time.UTCLoc.

(** What the development assumes of encoding/json: decoding what the
    encoder wrote for a record with UTC timestamps gives back the record
    with its strings coerced to valid UTF-8. *)
Definition json_coerces (json_Marshal : Paste -> error + bytes)
  (json_Unmarshal : bytes -> error + Paste) : Prop :=
  forall p data,
    normalized p -> json_Marshal p = inr data ->
    json_Unmarshal data = inr (json.coerced p).

(** The content of the two buckets of a store. *)
Definition pastes (s : Store) : bolt.Bucket :=
  match bolt.lookup pasteBucket s with Some b => b | None => [] end.

Definition expires (s : Store) : bolt.Bucket :=
  match bolt.lookup expireBucket s with Some b => b | None => [] end.

(** A store as [Open] leaves it: the two buckets and nothing else. *)
Definition mkdb (pB eB : bolt.Bucket) : Store :=
  [(expireBucket, eB); (pasteBucket, pB)].

(** A store that has its two buckets, as every store [Open] returns. *)
Definition initialized (s : Store) : Prop :=
  bolt.lookup pasteBucket s <> None /\ bolt.lookup expireBucket s <> None.

(** The serialised record stored under [id], if there is one. *)
Definition raw_record (id : string) (s : Store) : option bytes :=
  bolt.lookup (bytes_of_string id) (pastes s).

(** The entries of the expiry index whose value names [id]. *)
Definition index_entries (id : string) (s : Store) : list (bytes * bytes) :=
  List.filter (fun kv => bytes_eqb (snd kv) (bytes_of_string id)) (expires s).

(** Keys in strictly ascending order, as a B+tree keeps them. *)
Definition ascending {V : Type} (t : list (bytes * V)) : Prop :=
  StronglySorted (fun a b => bytes_Compare (fst a) (fst b) = Lt) t.

(** The index once [Save] or [Delete] has dropped the entry of the record
    stored under [id]. *)
Definition without_entry_of (json_Unmarshal : bytes -> error + Paste)
  (id : bytes) (pB eB : bolt.Bucket) : bolt.Bucket :=
  match bolt.lookup id pB with
  | Some existing =>
      match json_Unmarshal existing with
      | inr prev =>
          if HasExpiration prev
          then bolt.remove (expireKey (ExpiresAt prev) (ID prev)) eB
          else eB
      | inl _ => eB
      end
  | None => eB
  end.

(** What the loop of [DeleteExpired] leaves of the two buckets, and its
    count; [None] when a key is too short to hold a timestamp. *)
Fixpoint swept (cutoff : Z) (pB cursor : bolt.Bucket) (removed : Z)
  : option (Z * bolt.Bucket * bolt.Bucket) :=
  match cursor with
  | [] => Some (removed, pB, [])
  | (key, val) :: cursor' =>
      match slice_to 8 key ≫= binary.Uint64 with
      | None => None
      | Some ts =>
          if ts >? cutoff then Some (removed, pB, cursor)
          else swept cutoff (bolt.remove val pB) cursor' (removed + 1)
      end
  end.

(** The operations of the contract that write. *)
Inductive op : Type :=
| op_Save (ctx : context.Context) (paste : option Paste)
| op_Delete (ctx : context.Context) (id : string)
| op_DeleteExpired (ctx : context.Context) (before : time.Time).

(** An operation that files nothing under an id that is not valid UTF-8. *)
Definition utf8_op (o : op) : Prop :=
  match o with
  | op_Save _ (Some paste) => json.valid (ID paste)
  | _ => True
  end.

Section Run.
Variable json_Marshal : Paste -> error + bytes.
Variable json_Unmarshal : bytes -> error + Paste.

Definition step (s : Store) (o : op) : Store :=
  match o with
  | op_Save ctx paste => (Save json_Marshal json_Unmarshal ctx paste s).1.2
  | op_Delete ctx id => (Delete json_Unmarshal ctx id s).2
  | op_DeleteExpired ctx before => (DeleteExpired ctx before s).2
  end.

Definition run (ops : list op) (s : Store) : Store := fold_left step ops s.

(** The invariant of the embedded store: the stored values decode to
    records filed under their own id, every entry of the index is the entry
    of a stored record that expires, and every stored record that expires
    has its entry. *)
Record consistent (pB eB : bolt.Bucket) : Prop := {
  pastes_ascending : ascending pB;
  expires_ascending : ascending eB;
  pastes_decode : forall k d,
    bolt.lookup k pB = Some d ->
    exists p, json_Unmarshal d = inr p /\ bytes_of_string (ID p) = k;
  entry_has_record : forall key v,
    In (key, v) eB ->
    exists d p, bolt.lookup v pB = Some d /\ json_Unmarshal d = inr p
                /\ HasExpiration p = true
                /\ key = expireKey (ExpiresAt p) (ID p);
  record_has_entry : forall k d p,
    bolt.lookup k pB = Some d -> json_Unmarshal d = inr p ->
    HasExpiration p = true ->
    bolt.lookup (expireKey (ExpiresAt p) (ID p)) eB = Some k
}.

Definition store_ok (s : Store) : Prop :=
  exists pB eB, s = mkdb pB eB /\ consistent pB eB.

(** Whether the sweep with this cutoff takes the record stored as [d]:
    the record expires and its timestamp in the index is not after the
    cutoff. *)
Definition due (cutoff : Z) (d : bytes) : bool :=
  match json_Unmarshal d with
  | inr p => HasExpiration p && (toTimestamp (ExpiresAt p) <=? cutoff)
  | inl _ => false
  end.

(** A record the embedded backend can store: the encoder accepts it and
    bbolt accepts the keys and the value [Save] writes. *)
Definition valid (p : Paste) : bool :=
  match json_Marshal (normalize p) with
  | inl _ => false
  | inr data =>
      (Z.of_nat (length data) <=? bolt.MaxValueSize)
      && (0 <? Z.of_nat (String.length (ID p)))
      && (Z.of_nat (String.length (ID p)) + (if HasExpiration p then 8 else 0)
          <=? bolt.MaxKeySize)
  end.

End Run.

(** The expiry of a record counted as the index counts it lies between
    the Unix epoch and the end of the 64-bit nanosecond range. *)
Definition in_range (t : time.Time) : Prop := 0 <= time.unix_ns t < 2 ^ 64.

End boltspec.

(** ** A codec to run the model on concrete records

    Length-prefixed fields, integers in binary.  Like [Time.MarshalJSON]
    the encoder refuses a timestamp whose year is outside 0..9999. *)

Module codec.
Import storage.

Fixpoint enc_pos (p : positive) : bytes :=
  match p with
  | xH => [Byte.x02]
  | xO q => Byte.x00 :: enc_pos q
  | xI q => Byte.x01 :: enc_pos q
  end.

Fixpoint dec_pos (b : bytes) : option (positive * bytes) :=
  match b with
  | Byte.x00 :: r => '(q, r') ← dec_pos r; Some (xO q, r')
  | Byte.x01 :: r => '(q, r') ← dec_pos r; Some (xI q, r')
  | Byte.x02 :: r => Some (xH, r)
  | _ => None
  end.

Definition enc_Z (z : Z) : bytes :=
  match z with
  | Z0 => [Byte.x00]
  | Zpos p => Byte.x01 :: enc_pos p
  | Zneg p => Byte.x02 :: enc_pos p
  end.

Definition dec_Z (b : bytes) : option (Z * bytes) :=
  match b with
  | Byte.x00 :: r => Some (Z0, r)
  | Byte.x01 :: r => '(p, r') ← dec_pos r; Some (Zpos p, r')
  | Byte.x02 :: r => '(p, r') ← dec_pos r; Some (Zneg p, r')
  | _ => None
  end.

Definition enc_string (s : string) : bytes :=
  enc_Z (Z.of_nat (String.length s)) ++ bytes_of_string s.

Definition dec_string (b : bytes) : option (string * bytes) :=
  '(n, r) ← dec_Z b;
  if (length r <? Z.to_nat n)%nat then None
  else Some (string_of_bytes (firstn (Z.to_nat n) r), skipn (Z.to_nat n) r).

Definition enc_loc (l : time.Location) : bytes :=
  match l with
  | time.UTCLoc => [Byte.x00]
  | time.LocalLoc => [Byte.x01]
  | time.FixedZone name offset => Byte.x02 :: enc_string name ++ enc_Z offset
  end.

Definition dec_loc (b : bytes) : option (time.Location * bytes) :=
  match b with
  | Byte.x00 :: r => Some (time.UTCLoc, r)
  | Byte.x01 :: r => Some (time.LocalLoc, r)
  | Byte.x02 :: r =>
      '(name, r1) ← dec_string r;
      '(offset, r2) ← dec_Z r1;
      Some (time.FixedZone name offset, r2)
  | _ => None
  end.

Definition enc_time (t : time.Time) : bytes :=
  enc_Z (time.instant t) ++ enc_loc (time.loc t).

Definition dec_time (b : bytes) : option (time.Time * bytes) :=
  '(i, r1) ← dec_Z b;
  '(l, r2) ← dec_loc r1;
  Some (time.mkTime i l, r2).

(** January 1 of year 0 up to January 1 of year 10000, in nanoseconds
    since year 1. *)
Definition year_ok (t : time.Time) : bool :=
  (- 366 * 86400 * 1000000000 <=? time.instant t)
  && (time.instant t <? 3652059 * 86400 * 1000000000).

Definition Marshal (p : Paste) : error + bytes :=
  if year_ok (CreatedAt p) && year_ok (ExpiresAt p) then
    inr (enc_string (ID p) ++ enc_string (Content p) ++ enc_string (Syntax p)
         ++ enc_time (CreatedAt p) ++ enc_time (ExpiresAt p)
         ++ enc_string (PasswordHash p) ++ enc_Z (Size p))%list
  else inl (json_Error "Time.MarshalJSON: year outside of range [0,9999]").

Definition dec_paste (b : bytes) : option (Paste * bytes) :=
  '(id, r1) ← dec_string b;
  '(content, r2) ← dec_string r1;
  '(syntax, r3) ← dec_string r2;
  '(created, r4) ← dec_time r3;
  '(expires, r5) ← dec_time r4;
  '(hash, r6) ← dec_string r5;
  '(size, r7) ← dec_Z r6;
  Some (mkPaste id content syntax created expires hash size, r7).

Definition Unmarshal (b : bytes) : error + Paste :=
  match dec_paste b with
  | Some (p, []) => inr p
  | _ => inl (json_Error "invalid character")
  end.

End codec.

(** The same codec with the one property of encoding/json the store can
    see: the strings of a record are coerced to valid UTF-8 before they
    are written. *)
Module jsonlike.

Definition Marshal (p : storage.Paste) : error + bytes := codec.Marshal (json.coerced p).

Definition Unmarshal (b : bytes) : error + storage.Paste := codec.Unmarshal b.

End jsonlike.

#[global] Instance bolt_Store : storage.Store boltstore.Store :=
  {| storage.Save := boltstore.Save codec.Marshal codec.Unmarshal;
     storage.Get := boltstore.Get codec.Unmarshal;
     storage.Delete := boltstore.Delete codec.Unmarshal;
     storage.DeleteExpired := boltstore.DeleteExpired |}.

(** ** Concrete records and times *)

Module example.
Import storage.

(** 2023-11-14 22:13:20 UTC. *)
Definition now : time.Time := time.Unix_ns 1700000000000000000.

Definition bg : context.Context := context.Background.

(** Scenario 3 of the specification: [c1] expires in an hour, its
    replacement never does. *)
Definition c1 : Paste :=
  mkPaste "c1" "hello" "plaintext" now (time.Add now time.Hour) "" 5.
Definition c1_forever : Paste :=
  mkPaste "c1" "hello again" "go" now time.zero "" 11.

(** Scenario 4: [dead] expired a minute ago, [alive] has an hour left. *)
Definition dead : Paste :=
  mkPaste "dead" "bye" "plaintext" now (time.Add now (- time.Minute)) "" 3.
Definition alive : Paste :=
  mkPaste "alive" "ok" "plaintext" now (time.Add now time.Hour) "" 2.

(** A record shown in a zone two hours east of UTC. *)
Definition berlin : time.Location := time.FixedZone "CEST" 7200.
Definition local : Paste :=
  mkPaste "tz" "zone" "plaintext" (time.mkTime (time.instant now) berlin)
    (time.mkTime (time.instant now + time.Hour) berlin) "" 4.

(** 1969-12-31 23:59:59 UTC and 1970-01-01 00:00:01 UTC. *)
Definition before_epoch : time.Time := time.Unix_ns (- time.Second).
Definition after_epoch : time.Time := time.Unix_ns time.Second.

(** A record whose expiry lies one second before the Unix epoch. *)
Definition ancient : Paste :=
  mkPaste "old" "x" "plaintext" now before_epoch "" 1.

(** The string of the one byte 0xFF, which is not valid UTF-8. *)
Definition xFF : string := String (ascii_of_nat 255) "".

(** Scenario 3 again, under the id [xFF]. *)
Definition odd : Paste :=
  mkPaste xFF "hello" "plaintext" now (time.Add now time.Hour) "" 5.
Definition odd_forever : Paste :=
  mkPaste xFF "hello again" "go" now time.zero "" 11.

(** A paste whose content is that byte, under the id of scenario 3. *)
Definition blob : Paste :=
  mkPaste "c1" xFF "plaintext" now time.zero "" 1.

End example.


(* ================================================================== *)
(** * Part I, continued: passwords, identifiers and the HTTP layer      *)
(* ================================================================== *)

Abbreviation outcome := httpserver.outcome.
Abbreviation Returns := httpserver.Returns.
Abbreviation Panics := httpserver.Panics.

Definition uint32 (z : Z) : Z := z mod 2 ^ 32.
Definition uint8 (z : Z) : Z := z mod 2 ^ 8.

(** ** package fmt and package strings *)

(** The verb [%d] of [fmt.Sprintf]. *)
Definition fmt_d (z : Z) : string := NilZero.string_of_int (Z.to_int z).

(** [strings.Split(s, sep)] for a separator of one byte, the only kind
    the code uses: the pieces between the separators, one more than there
    are separators. *)
Fixpoint strings_Split (s : string) (sep : ascii) : list string :=
  match s with
  | EmptyString => [""]
  | String c s' =>
      if Ascii.eqb c sep then "" :: strings_Split s' sep
      else
        match strings_Split s' sep with
        | part :: parts => String c part :: parts
        | [] => [String c ""]
        end
  end.

(** [strings.Join(parts, sep)] *)
Fixpoint strings_Join (parts : list string) (sep : string) : string :=
  match parts with
  | [] => ""
  | [part] => part
  | part :: parts' => part ++ sep ++ strings_Join parts' sep
  end.

(** ** package crypto/subtle *)

(** [subtle.ConstantTimeCompare(x, y)]: 0 for slices of different lengths,
    otherwise the bytes are xor-ed pairwise and the results or-ed. *)
Fixpoint xor_fold (x y : bytes) (v : Z) : Z :=
  match x, y with
  | a :: x', b :: y' => xor_fold x' y' (Z.lor v (Z.lxor (byte.unsigned a) (byte.unsigned b)))
  | _, _ => v
  end.

Definition subtle_ConstantTimeCompare (x y : bytes) : Z :=
  if negb (length x =? length y)%nat then 0
  else if xor_fold x y 0 =? 0 then 1 else 0.

(** ** package encoding/hex *)

Definition hextable : string := "0123456789abcdef".

Definition hex_digit (i : Z) : ascii :=
  match String.get (Z.to_nat i) hextable with
  | Some c => c
  | None => "0"%char
  end.

(** [hex.EncodeToString(src)]: two digits for each byte. *)
Fixpoint hex_EncodeToString (src : bytes) : string :=
  match src with
  | [] => ""
  | b :: src' =>
      String (hex_digit (Z.shiftr (byte.unsigned b) 4))
        (String (hex_digit (Z.land (byte.unsigned b) 15)) (hex_EncodeToString src'))
  end.

(** ** package encoding/base64: [RawStdEncoding] *)

Module base64.

Definition encodeStd : string :=
  "ABCDEFGHIJKLMNOPQRSTUVWXYZabcdefghijklmnopqrstuvwxyz0123456789+/".

(** [enc.encode[i]] *)
Definition encode (i : Z) : byte :=
  nth (Z.to_nat i) (bytes_of_string encodeStd) Byte.x00.

(** [enc.decodeMap[c]]: the place of [c] in the alphabet, 0xFF for a
    byte outside it. *)
Fixpoint index_from (c : byte) (alphabet : bytes) (i : Z) : Z :=
  match alphabet with
  | [] => 255
  | x :: alphabet' => if Byte.eqb x c then i else index_from c alphabet' (i + 1)
  end.

Definition decodeMap (c : byte) : Z := index_from c (bytes_of_string encodeStd) 0.

Definition sextet (val shift : Z) : byte := encode (Z.land (Z.shiftr val shift) 63).

(** [enc.Encode]: four characters for three bytes; the one or two bytes
    that remain give two or three characters, and nothing pads them. *)
Fixpoint Encode (src : bytes) : bytes :=
  match src with
  | b0 :: b1 :: b2 :: rest =>
      let val := Z.lor (Z.lor (Z.shiftl (byte.unsigned b0) 16)
                              (Z.shiftl (byte.unsigned b1) 8))
                       (byte.unsigned b2) in
      sextet val 18 :: sextet val 12 :: sextet val 6 :: sextet val 0 :: Encode rest
  | [b0; b1] =>
      let val := Z.lor (Z.shiftl (byte.unsigned b0) 16) (Z.shiftl (byte.unsigned b1) 8) in
      [sextet val 18; sextet val 12; sextet val 6]
  | [b0] =>
      let val := Z.shiftl (byte.unsigned b0) 16 in
      [sextet val 18; sextet val 12]
  | [] => []
  end.

Definition EncodeToString (src : bytes) : string := string_of_bytes (Encode src).

(** The bytes of a quantum of two, three or four characters. *)
Definition quantum (dbuf : list Z) : bytes :=
  let val := Z.lor (Z.lor (Z.lor (Z.shiftl (nth 0 dbuf 0) 18) (Z.shiftl (nth 1 dbuf 0) 12))
                          (Z.shiftl (nth 2 dbuf 0) 6))
                   (nth 3 dbuf 0) in
  firstn (length dbuf - 1)
    [byte.of_Z (Z.shiftr val 16); byte.of_Z (Z.shiftr val 8); byte.of_Z (Z.shiftr val 0)].

(** [enc.Decode], as its loop over [decodeQuantum] reads the input (the
    paths that take eight or four characters at once decode the same).
    [si] is the index of the next byte and [dbuf] the characters of the
    quantum read so far; a line feed or carriage return is skipped, any
    other byte outside the alphabet is an error at its index, and so is
    an input that ends one character into a quantum.  [inl] holds the
    index of the [CorruptInputError]; the bytes decoded before it are
    left out. *)
Fixpoint Decode (src : bytes) (si : Z) (dbuf : list Z) : Z + bytes :=
  match src with
  | [] =>
      match dbuf with
      | [] => inr []
      | [_] => inl (si - 1)
      | _ => inr (quantum dbuf)
      end
  | c :: src' =>
      let out := decodeMap c in
      if out =? 255 then
        if Byte.eqb c Byte.x0a || Byte.eqb c Byte.x0d then Decode src' (si + 1) dbuf
        else inl si
      else
        let dbuf := (dbuf ++ [out])%list in
        if (length dbuf =? 4)%nat then
          match Decode src' (si + 1) [] with
          | inl e => inl e
          | inr rest => inr (quantum dbuf ++ rest)%list
          end
        else Decode src' (si + 1) dbuf
  end.

Definition DecodeString (s : string) : Z + bytes := Decode (bytes_of_string s) 0 [].

(** The error value, by its message. *)
Definition CorruptInputError (n : Z) : error :=
  errors_New ("illegal base64 data at input byte " ++ fmt_d n).

End base64.

(** ** package crypto/rand *)

(** The random source: the error of a read, or the bytes it delivers, as
    many as the slice it is to fill has room for. *)
Definition Entropy : Type := (error + (nat -> byte))%type.

(** [rand.Read(b)] for a slice [b] of [n] bytes: what it leaves in [b]. *)
Definition rand_Read (source : Entropy) (n : Z) : error + bytes :=
  match source with
  | inl err => inl err
  | inr stream => inr (List.map stream (seq 0 (Z.to_nat n)))
  end.

(** ** Libraries outside the repository that the password code calls

    [argon2_IDKey password salt time memory threads keyLen] is
    [argon2.IDKey]; it panics on some parameters (no rounds, no threads),
    so its result is an [outcome].  [fmt_Sscanf] is
    [fmt.Sscanf(s, "m=%d,t=%d,p=%d", &memTmp, &timeTmp, &threadTmp)] with
    the three integers it scanned. *)
Class Crypto : Type := {
  argon2_IDKey : bytes -> bytes -> Z -> Z -> Z -> Z -> outcome bytes;
  fmt_Sscanf : string -> error + (Z * Z * Z)
}.

(** ** package security *)

Module security.

Definition argonTime : Z := 1.
Definition argonMemory : Z := 64 * 1024.
Definition argonThreads : Z := 1.
Definition argonKeyLen : Z := 32.
Definition saltLen : Z := 16.

Record argonParams : Type := mkParams { time : Z; memory : Z; threads : Z }.

Definition encodeHash (salt hash : bytes) : string :=
  let b64Salt := base64.EncodeToString salt in
  let b64Hash := base64.EncodeToString hash in
  "$argon2id$v=19$m=" ++ fmt_d argonMemory ++ ",t=" ++ fmt_d argonTime
  ++ ",p=" ++ fmt_d argonThreads ++ "$" ++ b64Salt ++ "$" ++ b64Hash.

Section Hash.
Context {crypto_lib : Crypto}.

Definition decodeHash (encoded : string) : error + (argonParams * bytes * bytes) :=
  let parts := strings_Split encoded "$" in
  if negb (length parts =? 6)%nat then inl (errors_New "invalid hash format")
  else if negb (String.eqb (nth 1 parts "") "argon2id") then
    inl (errors_New "invalid algorithm")
  else
    match fmt_Sscanf (nth 3 parts "") with
    | inl err => inl (fmt_Errorf_w "parse params" err)
    | inr (memTmp, timeTmp, threadTmp) =>
        if (memTmp <=? 0) || (timeTmp <=? 0) || (threadTmp <=? 0) then
          inl (errors_New "invalid argon params")
        else if threadTmp >? 255 then inl (errors_New "argon threads out of range")
        else
          match base64.DecodeString (nth 4 parts "") with
          | inl n => inl (fmt_Errorf_w "decode salt" (base64.CorruptInputError n))
          | inr salt =>
              match base64.DecodeString (nth 5 parts "") with
              | inl n => inl (fmt_Errorf_w "decode hash" (base64.CorruptInputError n))
              | inr hash =>
                  inr (mkParams (uint32 timeTmp) (uint32 memTmp) (uint8 threadTmp),
                       salt, hash)
              end
          end
    end.

(** [HashPassword] hashes the provided password using Argon2id. *)
Definition HashPassword (password : string) (source : Entropy)
  : outcome (string * option error) :=
  if String.eqb password "" then Returns ("", None)
  else
    match rand_Read source saltLen with
    | inl err => Returns ("", Some (fmt_Errorf_w "generate salt" err))
    | inr salt =>
        match argon2_IDKey (bytes_of_string password) salt
                argonTime argonMemory argonThreads argonKeyLen with
        | httpserver.Panics m => Panics m
        | httpserver.Returns hash => Returns (encodeHash salt hash, None)
        end
    end.

(** [VerifyPassword] checks whether the provided password matches the
    stored hash. *)
Definition VerifyPassword (encoded password : string) : outcome (bool * option error) :=
  if String.eqb encoded "" then Returns (String.eqb password "", None)
  else
    match decodeHash encoded with
    | inl err => Returns (false, Some err)
    | inr (params, salt, expected) =>
        match argon2_IDKey (bytes_of_string password) salt
                (time params) (memory params) (threads params)
                (uint32 (Z.of_nat (length expected))) with
        | httpserver.Panics m => Panics m
        | httpserver.Returns hash =>
            Returns (subtle_ConstantTimeCompare hash expected =? 1, None)
        end
    end.

End Hash.

End security.

(** ** package id *)

Module idgen.

Definition defaultLength : Z := 12.

(** [Generator] produces unique, URL-safe identifiers. *)
Record Generator : Type := mkGenerator { length : Z }.

(** [New] returns a Generator with the provided length. *)
Definition New (length : Z) : Generator :=
  mkGenerator (if length <=? 0 then defaultLength else length).

(** [Generate] returns a new identifier.  [gonanoid_New] is the function of
    the library, which draws the identifier from the random source. *)
Definition Generate (g : Generator) (ctx : context.Context)
  (gonanoid_New : Z -> string * option error) : string * option error :=
  match context.Err ctx with
  | Some err => ("", Some err)
  | None => gonanoid_New (length g)
  end.

End idgen.

(** ** package time, continued *)

Definition minDuration : time.Duration := - 2 ^ 63.
Definition maxDuration : time.Duration := 2 ^ 63 - 1.

(** [t.Sub(u)]: the difference, or the largest or smallest duration when
    it does not fit. *)
Definition time_Sub (t u : time.Time) : time.Duration :=
  Z.max minDuration (Z.min maxDuration (time.instant t - time.instant u)).

(** ** package net/http, as the handlers use it *)

Module http.

Definition StatusOK : Z := 200.
Definition StatusSeeOther : Z := 303.
Definition StatusNotModified : Z := 304.
Definition StatusBadRequest : Z := 400.
Definition StatusUnauthorized : Z := 401.
Definition StatusNotFound : Z := 404.
Definition StatusTooManyRequests : Z := 429.
Definition StatusInternalServerError : Z := 500.

Inductive SameSite : Type := SameSiteDefaultMode | SameSiteLaxMode.

Record Cookie : Type := mkCookie {
  Name : string;
  Value : string;
  Path : string;
  Expires : time.Time;
  MaxAge : Z;
  Secure : bool;
  HttpOnly : bool;
  SameSite_ : SameSite
}.

(** What a handler reads of a request.  [TLS] is [r.TLS != nil];
    [Header] is [r.Header.Get]; [Cookies] are the cookies of the request
    in the order of its header, by name and value; [ParseForm] is the
    error of [r.ParseForm()] and [FormValue] what [r.FormValue] returns
    once the form is parsed; [URLParam] is [chi.URLParam(r, _)]. *)
Record Request : Type := mkRequest {
  Context : context.Context;
  Host : string;
  RemoteAddr : string;
  TLS : bool;
  Header : string -> string;
  Cookies : list (string * string);
  ParseForm : option error;
  FormValue : string -> string;
  URLParam : string -> string
}.

(** [r.Cookie(name)]: the first cookie of that name. *)
Fixpoint Cookie_ (cookies : list (string * string)) (name : string) : option string :=
  match cookies with
  | [] => None
  | (n, v) :: cookies' => if String.eqb n name then Some v else Cookie_ cookies' name
  end.

(** What a handler does with its [http.ResponseWriter]: it writes a
    status, headers and a body itself, or it calls [http.Redirect] (after
    the cookies it handed to [http.SetCookie]), or [http.Error]. *)
Inductive Response : Type :=
| Written (code : Z) (header : list (string * string)) (body : string)
| Redirect (cookies : list Cookie) (url : string) (code : Z)
| Error (error : string) (code : Z).

(** The status of the response. *)
Definition Code (w : Response) : Z :=
  match w with
  | Written code _ _ => code
  | Redirect _ _ code => code
  | Error _ code => code
  end.

End http.

(** ** package net/url: the fields of a [url.URL] the server reads or
    writes, and the rest of it *)

Record URL : Type := mkURL { Scheme : string; URL_Host : string; URL_Path : string; rest : string }.

(** ** The pages *)

Module expireOption.
Record t : Type := mk { Value : string; Label : string; Duration : time.Duration }.
End expireOption.

Module option_.
Record t : Type := mk { Value : string; Label : string; Selected : bool }.
End option_.

Module indexPageData.
Record t : Type := mk {
  SyntaxOptions : list option_.t;
  ExpireOptions : list option_.t;
  Content : string;
  Syntax : string;
  Expire : string;
  Error : string;
  MaxBytes : Z
}.
End indexPageData.

Module viewPageData.
Record t : Type := mk {
  Paste : option storage.Paste;
  SyntaxLabel : string;
  ExpiresIn : string;
  Canonical : string
}.
End viewPageData.

Module passwordPageData.
Record t : Type := mk { ID : string; Error : string }.
End passwordPageData.

Module errorPageData.
Record t : Type := mk { Message : string }.
End errorPageData.

(** The [data any] that [render] is given. *)
Inductive page : Type :=
| index_page (d : indexPageData.t)
| view_page (d : viewPageData.t)
| password_page (d : passwordPageData.t)
| error_page (d : errorPageData.t).

(** What a template is executed on: a page, or the layout with the title
    and the body rendered before. *)
Inductive template_data : Type :=
| of_page (data : page)
| of_layout (Title Body : string).

(** ** Libraries outside the repository that the HTTP layer calls

    [ExecuteTemplate name data] is [s.templates.ExecuteTemplate(buf,
    name, data)] with what it wrote to the buffer; [Seconds_int d] is
    [int(d.Seconds())], computed in floating point; [hmac_SHA256 key
    message] is the sum of [hmac.New(sha256.New, key)] after writing
    [message]. *)
Class Web : Type := {
  strings_ToUpper : string -> string;
  strings_ToLower : string -> string;
  strings_TrimSpace : string -> string;
  ExecuteTemplate : string -> template_data -> error + string;
  Seconds_int : time.Duration -> Z;
  sha256_Sum256 : bytes -> bytes;
  hmac_SHA256 : bytes -> bytes -> bytes;
  qrcode_Encode : string -> error + bytes;
  url_Parse : string -> error + URL;
  url_String : URL -> string;
  net_SplitHostPort : string -> error + (string * string)
}.

(** [strings.TrimSuffix(s, suffix)] for a suffix of one byte. *)
Fixpoint strings_TrimSuffix (s : string) (suffix : ascii) : string :=
  match s with
  | EmptyString => ""
  | String c EmptyString => if Ascii.eqb c suffix then "" else s
  | String c s' => String c (strings_TrimSuffix s' suffix)
  end.

(** ** package httpserver: server.go, handlers.go, middleware.go *)

Module web.
Import storage.

(** *** The log *)

Inductive Value : Type :=
| of_error (err : error)
| of_string (s : string)
| of_int (n : Z).

Record Entry : Type := mkEntry {
  level : httpserver.Level;
  msg : string;
  attrs : list (string * Value)
}.

(** A [*slog.Logger] is the entries it has been handed; nil is [None]. *)
Definition Logger : Type := list Entry.

(** [if s.logger != nil { s.logger.Error(msg, attrs...) }] *)
Definition log_Error (logger : option Logger) (msg : string)
  (attrs : list (string * Value)) : option Logger :=
  match logger with
  | Some entries => Some (entries ++ [mkEntry httpserver.LevelError msg attrs])%list
  | None => None
  end.

(** *** handlers.go: the tables *)

Definition syntaxWhitelist : list string :=
  ["plaintext"; "go"; "python"; "js"; "ts"; "c"; "cpp"; "java"; "bash"; "sql";
   "html"; "css"; "json"; "yaml"; "markdown"].

Definition syntaxLabels : gmap string string :=
  list_to_map
    [("plaintext", "Plain Text"); ("go", "Go"); ("python", "Python");
     ("js", "JavaScript"); ("ts", "TypeScript"); ("c", "C"); ("cpp", "C++");
     ("java", "Java"); ("bash", "Bash"); ("sql", "SQL"); ("html", "HTML");
     ("css", "CSS"); ("json", "JSON"); ("yaml", "YAML"); ("markdown", "Markdown")].

Definition expireChoices : list expireOption.t :=
  [expireOption.mk "10m" "10 minutes" (10 * time.Minute);
   expireOption.mk "1h" "1 hour" time.Hour;
   expireOption.mk "1d" "1 day" (24 * time.Hour);
   expireOption.mk "7d" "7 days" (7 * 24 * time.Hour);
   expireOption.mk "never" "Never" 0].

Definition expireMap : gmap string time.Duration :=
  fold_left (fun m c => <[expireOption.Value c := expireOption.Duration c]> m)
    expireChoices ∅.

Definition defaultExpire : string := "7d".

(** *** server.go: the server *)

(** The fields of a [Server] that stay as [New] set them.  The store and
    the logger are passed to the handlers with their state; [s.nowTime()]
    is a reading of the clock, which the handlers are given. *)
Record Server : Type := mkServer {
  idGen : idgen.Generator;
  maxBytes : Z;
  trustProxy : bool;
  baseURL : option URL;
  cookieSecret : bytes
}.

Section Handlers.
Context {web_lib : Web} {crypto_lib : Crypto} {S : Type} {store_impl : Store S}.

Definition authCookieName (id : string) : string := "auth_" ++ id.

Definition signValue (s : Server) (id : string) : string :=
  hex_EncodeToString (hmac_SHA256 (cookieSecret s) (bytes_of_string id)).

(** [hmac.Equal] is [subtle.ConstantTimeCompare(...) == 1]. *)
Definition verifySignature (s : Server) (id sig : string) : bool :=
  let expected := signValue s id in
  if negb (String.length expected =? String.length sig)%nat then false
  else subtle_ConstantTimeCompare (bytes_of_string expected) (bytes_of_string sig) =? 1.

Definition isSecureRequest (s : Server) (r : http.Request) : bool :=
  if http.TLS r then true
  else if match baseURL s with
          | Some u => String.eqb (Scheme u) "https"
          | None => false
          end then true
  else if trustProxy s
          && String.eqb (strings_ToLower (http.Header r "X-Forwarded-Proto")) "https"
  then true
  else false.

(** [setAuthCookie]: the cookie it hands to [http.SetCookie]; [now] is
    the clock as [time.Until] reads it. *)
Definition setAuthCookie (s : Server) (r : http.Request) (id : string)
  (expires now : time.Time) : http.Cookie :=
  let remaining := time_Sub expires now in
  http.mkCookie (authCookieName id) (signValue s id) ("/p/" ++ id)
    (if time.IsZero expires then time.zero else expires)
    (if negb (time.IsZero expires) && (remaining >? 0) then Seconds_int remaining else 0)
    (isSecureRequest s r) true http.SameSiteLaxMode.

Definition hasAuth (s : Server) (r : http.Request) (id : string) : bool :=
  match http.Cookie_ (http.Cookies r) (authCookieName id) with
  | None => false
  | Some value => verifySignature s id value
  end.

Definition clearAuthCookie (s : Server) (id : string) : http.Cookie :=
  http.mkCookie (authCookieName id) "" ("/p/" ++ id) (time.Unix_ns 0) (-1)
    false true http.SameSiteLaxMode.

Definition canonicalURL (s : Server) (r : http.Request) (id : string) : string :=
  match baseURL s with
  | Some u =>
      url_String
        (if String.eqb id "" then u
         else mkURL (Scheme u) (URL_Host u)
                (strings_TrimSuffix (URL_Path u) "/" ++ "/p/" ++ id) (rest u))
  | None =>
      let scheme := if isSecureRequest s r then "https" else "http" in
      let host := if String.eqb (http.Host r) "" then "localhost" else http.Host r in
      let path := if String.eqb id "" then "/" else "/p/" ++ id in
      scheme ++ "://" ++ host ++ path
  end.

(** *** handlers.go *)

Definition PageTitle (data : page) : string :=
  match data with
  | index_page _ => "New Paste · Tiny Pastebin"
  | view_page d =>
      match viewPageData.Paste d with
      | Some paste =>
          if negb (String.eqb (ID paste) "") then ID paste ++ " · Tiny Pastebin"
          else "View Paste · Tiny Pastebin"
      | None => "View Paste · Tiny Pastebin"
      end
  | password_page _ => "Protected Paste · Tiny Pastebin"
  | error_page d =>
      if String.eqb (errorPageData.Message d) "" then "Tiny Pastebin"
      else errorPageData.Message d ++ " · Tiny Pastebin"
  end.

Definition handleTemplateError (logger : option Logger) (status : Z) (name : string)
  (err : error) : http.Response * option Logger :=
  (http.Error "Template error" status,
   log_Error logger "render template"
     [("error", of_error err); ("template", of_string name)]).

Definition render (logger : option Logger) (status : Z) (name : string) (data : page)
  : http.Response * option Logger :=
  let title :=
    let pt := PageTitle data in
    if negb (String.eqb pt "") then pt else "Tiny Pastebin" in
  let bodyTemplate := name ++ "-body" in
  match ExecuteTemplate bodyTemplate (of_page data) with
  | inl err => handleTemplateError logger status bodyTemplate err
  | inr body =>
      match ExecuteTemplate "layout" (of_layout title body) with
      | inl err => handleTemplateError logger status "layout" err
      | inr layout =>
          (http.Written status [("Content-Type", "text/html; charset=utf-8")] layout,
           logger)
      end
  end.

Definition serverError (logger : option Logger) (err : error)
  : http.Response * option Logger :=
  render (log_Error logger "internal error" [("error", of_error err)])
    http.StatusInternalServerError "error"
    (error_page (errorPageData.mk "Internal server error")).

Definition notFound (logger : option Logger) : http.Response * option Logger :=
  render logger http.StatusNotFound "error"
    (error_page (errorPageData.mk "Not found or expired")).

Definition isAllowedSyntax (v : string) : bool :=
  match syntaxLabels !! v with
  | Some _ => true
  | None => false
  end.

Definition syntaxLabel (v : string) : string :=
  match syntaxLabels !! v with
  | Some label => label
  | None =>
      match v with
      | EmptyString => "Plain Text"
      | String c v' => strings_ToUpper (String c "") ++ v'
      end
  end.

Definition indexData (s : Server) (selectedSyntax selectedExpire content errMsg : string)
  : indexPageData.t :=
  let selectedSyntax := if String.eqb selectedSyntax "" then "plaintext" else selectedSyntax in
  let selectedSyntax := if negb (isAllowedSyntax selectedSyntax) then "plaintext"
                        else selectedSyntax in
  let selectedExpire := if String.eqb selectedExpire "" then defaultExpire
                        else selectedExpire in
  let synOpts :=
    List.map (fun v => option_.mk v (syntaxLabel v) (String.eqb v selectedSyntax))
      syntaxWhitelist in
  let expOpts :=
    List.map (fun c => option_.mk (expireOption.Value c) (expireOption.Label c)
                         (String.eqb (expireOption.Value c) selectedExpire))
      expireChoices in
  indexPageData.mk synOpts expOpts content selectedSyntax selectedExpire errMsg
    (maxBytes s).

Definition plural (count : Z) (singular : string) : string :=
  if count =? 1 then "1 " ++ singular
  else fmt_d count ++ " " ++ singular ++ "s".

(** The loop of [remaining] over the units. *)
Fixpoint remaining_parts (units : list (time.Duration * string)) (dur : time.Duration)
  (parts : list string) : time.Duration * list string :=
  match units with
  | [] => (dur, parts)
  | (d, name) :: units' =>
      if dur >=? d then
        let count := Z.quot dur d in
        remaining_parts units' (dur - count * d) (parts ++ [plural count name])%list
      else remaining_parts units' dur parts
  end.

Definition remaining (expires now : time.Time) : string :=
  if time.IsZero expires then "Never"
  else if time.After now expires then "Expired"
  else
    let dur := time_Sub expires now in
    if dur <? time.Second then "Less than a second"
    else
      let units := [(time.Hour * 24, "day"); (time.Hour, "hour"); (time.Minute, "minute")] in
      let '(dur, parts) := remaining_parts units dur [] in
      match parts with
      | [] =>
          let seconds := Seconds_int dur in
          if seconds <=? 1 then "1 second"
          else fmt_d seconds ++ " seconds"
      | _ => strings_Join parts ", "
      end.

Definition dquote : string := String (ascii_of_nat 34) "".

Definition etagFor (content : string) : string :=
  dquote ++ hex_EncodeToString (sha256_Sum256 (bytes_of_string content)) ++ dquote.

(** [fetchPaste] returns a paste or an error; [now] is [s.nowTime()].  A
    store that panics unwinds through it. *)
Definition fetchPaste (ctx : context.Context) (id : string) (now : time.Time) (store : S)
  : outcome (error + Paste) :=
  match storage.Get ctx id store with
  | (_, Some (runtime_panic m)) => Panics m
  | (_, Some err) => Returns (inl err)
  | (None, None) => Returns (inl ErrNotFound)
  | (Some paste, None) =>
      if time.IsZero (ExpiresAt paste) then Returns (inr paste)
      else if time.After now (ExpiresAt paste) then Returns (inl ErrNotFound)
      else Returns (inr paste)
  end.

(** What a handler leaves: the response, the store and the log. *)
Definition handled : Type := outcome (http.Response * S * option Logger).

Definition reply (store : S) (w : http.Response * option Logger) : handled :=
  Returns (w.1, store, w.2).

(** The branch [if err != nil] after [fetchPaste]. *)
Definition fetch_failed (store : S) (logger : option Logger) (err : error) : handled :=
  if errors_Is err ErrNotFound then reply store (notFound logger)
  else reply store (serverError logger err).

Definition handleIndex (s : Server) (r : http.Request) (store : S)
  (logger : option Logger) : handled :=
  reply store (render logger http.StatusOK "index"
                 (index_page (indexData s "" defaultExpire "" ""))).

(** [handleCreate]; [source] is the random source of the salt,
    [gonanoid_New] the generator of the library and [now] the clock. *)
Definition handleCreate (s : Server) (r : http.Request) (source : Entropy)
  (gonanoid_New : Z -> string * option error) (now : time.Time) (store : S)
  (logger : option Logger) : handled :=
  let bad_request syntax expire content errMsg :=
    reply store (render logger http.StatusBadRequest "index"
                   (index_page (indexData s syntax expire content errMsg))) in
  match http.ParseForm r with
  | Some _ => bad_request "" defaultExpire "" "Unable to parse form"
  | None =>
      let content := http.FormValue r "content" in
      let syntax := http.FormValue r "syntax" in
      let expire := http.FormValue r "expire" in
      let password := http.FormValue r "password" in
      let expire := if String.eqb expire "" then defaultExpire else expire in
      let contentSize := Z.of_nat (String.length content) in
      if contentSize =? 0 then
        bad_request syntax expire content "Content cannot be empty"
      else if contentSize >? maxBytes s then
        bad_request syntax expire content
          ("Content exceeds " ++ fmt_d (maxBytes s) ++ " byte limit")
      else if negb (isAllowedSyntax syntax) then
        bad_request syntax expire content "Unsupported syntax"
      else
        match expireMap !! expire with
        | None => bad_request syntax expire content "Invalid expiration"
        | Some duration =>
            match
              (if negb (String.eqb (strings_TrimSpace password) "")
               then security.HashPassword password source
               else Returns ("", None))
            with
            | httpserver.Panics m => Panics m
            | httpserver.Returns (_, Some err) => reply store (serverError logger err)
            | httpserver.Returns (hashed, None) =>
                match idgen.Generate (idGen s) (http.Context r) gonanoid_New with
                | (_, Some err) => reply store (serverError logger err)
                | (id, None) =>
                    let now := time.UTC now in
                    let paste :=
                      mkPaste id content syntax now
                        (if duration >? 0 then time.Add now duration else time.zero)
                        hashed contentSize in
                    match storage.Save (http.Context r) (Some paste) store with
                    | (Some (runtime_panic m), _, _) => Panics m
                    | (Some err, store, _) => reply store (serverError logger err)
                    | (None, store, _) =>
                        Returns (http.Redirect [] ("/p/" ++ id) http.StatusSeeOther,
                                 store, logger)
                    end
                end
            end
        end
  end.

(** [handleView]; [now] is the clock as [fetchPaste] reads it and [now']
    as [remaining] is given it. *)
Definition handleView (s : Server) (r : http.Request) (now now' : time.Time) (store : S)
  (logger : option Logger) : handled :=
  match fetchPaste (http.Context r) (http.URLParam r "id") now store with
  | httpserver.Panics m => Panics m
  | httpserver.Returns (inl err) => fetch_failed store logger err
  | httpserver.Returns (inr paste) =>
      if negb (String.eqb (PasswordHash paste) "") && negb (hasAuth s r (ID paste)) then
        reply store (render logger http.StatusOK "password"
                       (password_page (passwordPageData.mk (ID paste) "")))
      else
        reply store (render logger http.StatusOK "view"
                       (view_page
                          (viewPageData.mk (Some paste) (syntaxLabel (Syntax paste))
                             (remaining (ExpiresAt paste) now')
                             (canonicalURL s r (ID paste)))))
  end.

(** [handlePassword]; [now] is the clock as [fetchPaste] reads it and
    [now'] as [setAuthCookie] reads it. *)
Definition handlePassword (s : Server) (r : http.Request) (now now' : time.Time)
  (store : S) (logger : option Logger) : handled :=
  match http.ParseForm r with
  | Some _ =>
      reply store (render logger http.StatusBadRequest "password"
                     (password_page
                        (passwordPageData.mk (http.URLParam r "id") "Unable to parse form")))
  | None =>
      let id := http.URLParam r "id" in
      match fetchPaste (http.Context r) id now store with
      | httpserver.Panics m => Panics m
      | httpserver.Returns (inl err) => fetch_failed store logger err
      | httpserver.Returns (inr paste) =>
          if String.eqb (PasswordHash paste) "" then
            Returns (http.Redirect [] ("/p/" ++ id) http.StatusSeeOther, store, logger)
          else
            let password := http.FormValue r "password" in
            match security.VerifyPassword (PasswordHash paste) password with
            | httpserver.Panics m => Panics m
            | httpserver.Returns (_, Some err) => reply store (serverError logger err)
            | httpserver.Returns (false, None) =>
                reply store (render logger http.StatusUnauthorized "password"
                               (password_page (passwordPageData.mk id "Incorrect password")))
            | httpserver.Returns (true, None) =>
                Returns (http.Redirect [setAuthCookie s r id (ExpiresAt paste) now']
                           ("/p/" ++ id) http.StatusSeeOther,
                         store, logger)
            end
      end
  end.

Definition handleRaw (s : Server) (r : http.Request) (now : time.Time) (store : S)
  (logger : option Logger) : handled :=
  match fetchPaste (http.Context r) (http.URLParam r "id") now store with
  | httpserver.Panics m => Panics m
  | httpserver.Returns (inl err) => fetch_failed store logger err
  | httpserver.Returns (inr paste) =>
      if negb (String.eqb (PasswordHash paste) "") && negb (hasAuth s r (ID paste)) then
        reply store (notFound logger)
      else
        let etag := etagFor (Content paste) in
        let match_ := http.Header r "If-None-Match" in
        if negb (String.eqb match_ "") && String.eqb match_ etag then
          Returns (http.Written http.StatusNotModified [] "", store, logger)
        else
          Returns (http.Written http.StatusOK
                     [("Content-Type", "text/plain; charset=utf-8");
                      ("Cache-Control", "private, max-age=60");
                      ("ETag", etag)]
                     (Content paste),
                   store, logger)
  end.

Definition handleQR (s : Server) (r : http.Request) (now : time.Time) (store : S)
  (logger : option Logger) : handled :=
  let id := http.URLParam r "id" in
  match fetchPaste (http.Context r) id now store with
  | httpserver.Panics m => Panics m
  | httpserver.Returns (inl err) => fetch_failed store logger err
  | httpserver.Returns (inr paste) =>
      if negb (String.eqb (PasswordHash paste) "") && negb (hasAuth s r (ID paste)) then
        reply store (notFound logger)
      else
        match qrcode_Encode (canonicalURL s r id) with
        | inl err => reply store (serverError logger err)
        | inr png =>
            Returns (http.Written http.StatusOK
                       [("Content-Type", "image/png"); ("Cache-Control", "no-store")]
                       (string_of_bytes png),
                     store, logger)
        end
  end.

End Handlers.

(** *** server.go: [New] *)

(** [Config] captures server configuration; a nil [Store] or
    [IDGenerator] is [None].  The rate limiter and the logger go to the
    server as they are. *)
Record Config (S : Type) : Type := mkConfig {
  Store_ : option S;
  IDGenerator : option idgen.Generator;
  MaxBytes : Z;
  TrustProxy : bool;
  BaseURL : string;
  CookieSecret : bytes
}.
Arguments mkConfig {S}.
Arguments Store_ {S}.
Arguments IDGenerator {S}.
Arguments MaxBytes {S}.
Arguments TrustProxy {S}.
Arguments BaseURL {S}.
Arguments CookieSecret {S}.

(** [New] constructs a new Server instance.  [ParseFS] is the error of
    parsing the templates and [source] the random source. *)
Definition New {web_lib : Web} {S : Type} (cfg : Config S) (ParseFS : option error)
  (source : Entropy) : error + (Server * S) :=
  match Store_ cfg with
  | None => inl (errors_New "store required")
  | Some store =>
      let IDGenerator :=
        match IDGenerator cfg with
        | Some g => g
        | None => idgen.New 0
        end in
      let MaxBytes := if MaxBytes cfg <=? 0 then 1048576 else MaxBytes cfg in
      match ParseFS with
      | Some err => inl (fmt_Errorf_w "parse templates" err)
      | None =>
          match
            (if negb (String.eqb (BaseURL cfg) "") then
               match url_Parse (BaseURL cfg) with
               | inl err => inl (fmt_Errorf_w "invalid base url" err)
               | inr u =>
                   if String.eqb (Scheme u) "" || String.eqb (URL_Host u) "" then
                     inl (errors_New "base url must include scheme and host")
                   else
                     inr (Some (mkURL (Scheme u) (URL_Host u)
                                  (strings_TrimSuffix (URL_Path u) "/") (rest u)))
               end
             else inr None)
          with
          | inl err => inl err
          | inr parsedBase =>
              match
                (if (length (CookieSecret cfg) =? 0)%nat then
                   match rand_Read source 32 with
                   | inl err => inl (fmt_Errorf_w "generate cookie secret" err)
                   | inr secret => inr secret
                   end
                 else inr (CookieSecret cfg))
              with
              | inl err => inl err
              | inr secret =>
                  inr (mkServer IDGenerator MaxBytes (TrustProxy cfg) parsedBase secret,
                       store)
              end
          end
      end
  end.

(** *** middleware.go *)

(** [golang.org/x/time/rate]: a limit, the state of a limiter, and
    [limiter.Allow()], which reads the clock itself. *)
Class Rate : Type := {
  Limit : Type;
  Limiter : Type;
  rate_NewLimiter : Limit -> Z -> Limiter;
  Limiter_Allow : Limiter -> time.Time -> bool * Limiter
}.

Section Middleware.
Context {web_lib : Web} {rate_lib : Rate}.

Record clientLimiter : Type := mkClient { limiter : Limiter; lastSeen : time.Time }.

(** [RateLimiter] implements a token bucket limiter per key.  The map
    holds pointers: what [Allow] writes to an entry it writes to the
    map. *)
Record RateLimiter : Type := mkRateLimiter {
  rate : Limit;
  burst : Z;
  ttl : time.Duration;
  clients : gmap string clientLimiter
}.

Definition NewRateLimiter (r : Limit) (burst : Z) (ttl : time.Duration) : RateLimiter :=
  mkRateLimiter r burst ttl ∅.

(** Whether the loop at the end of [Allow] deletes the entry. *)
Definition stale (rl : RateLimiter) (now : time.Time) (v : clientLimiter) : bool :=
  time_Sub now (lastSeen v) >? ttl rl.

(** [Allow] reports whether a request from key is permitted.  [now] is
    the clock as [Allow] reads it and [now'] as the limiter of the client
    reads it. *)
Definition Allow (rl : option RateLimiter) (key : string) (now now' : time.Time)
  : bool * option RateLimiter :=
  match rl with
  | None => (true, None)
  | Some rl =>
      let key := if String.eqb key "" then "unknown" else key in
      let entry :=
        match clients rl !! key with
        | Some entry => entry
        | None => mkClient (rate_NewLimiter (rate rl) (burst rl)) time.zero
        end in
      let '(allowed, limiter) := Limiter_Allow (limiter entry) now' in
      let clients := <[key := mkClient limiter now]> (clients rl) in
      let clients :=
        if (0 <? Z.of_nat (size clients)) && (ttl rl >? 0)
        then filter (fun kv => stale rl now kv.2 = false) clients
        else clients in
      (allowed, Some (mkRateLimiter (rate rl) (burst rl) (ttl rl) clients))
  end.

(** [RateLimitMiddleware] enforces the limiter per-client: the response
    it writes itself, or [None] when it hands the request on to [next]. *)
Definition RateLimitMiddleware (rl : option RateLimiter)
  (keyFunc : option (http.Request -> string)) (r : http.Request) (now now' : time.Time)
  : option http.Response * option RateLimiter :=
  match rl with
  | None => (None, None)
  | Some _ =>
      let key := match keyFunc with Some f => f r | None => "" end in
      let '(allowed, rl) := Allow rl key now now' in
      if negb allowed then
        (Some (http.Written http.StatusTooManyRequests [("Retry-After", "1")]
                 "Too Many Requests"),
         rl)
      else (None, rl)
  end.

(** [ClientIP] returns the client IP respecting proxy headers when
    trustProxy is true. *)
Definition ClientIP (r : http.Request) (trustProxy : bool) : string :=
  let remote :=
    match net_SplitHostPort (http.RemoteAddr r) with
    | inl _ => http.RemoteAddr r
    | inr (host, _) => host
    end in
  if trustProxy then
    let xff := http.Header r "X-Forwarded-For" in
    let forwarded :=
      if negb (String.eqb xff "") then
        let parts := strings_Split xff "," in
        if (0 <? length parts)%nat then
          let ip := strings_TrimSpace (nth 0 parts "") in
          if negb (String.eqb ip "") then Some ip else None
        else None
      else None in
    match forwarded with
    | Some ip => ip
    | None =>
        let xrip := http.Header r "X-Real-IP" in
        if negb (String.eqb xrip "") then strings_TrimSpace xrip else remote
    end
  else remote.

End Middleware.

End web.

(** ** The store of the tests of the handlers (handlers_test.go) *)

Module memoryStore.
Import storage.

(** The state of a [memoryStore] is its map. *)
Abbreviation Store := (gmap string Paste).

Definition newMemoryStore : Store := ∅.

(** [Save] copies what its argument points to; a nil argument is
    dereferenced. *)
Definition Save (ctx : context.Context) (paste : option Paste) (m : Store)
  : option error * Store * option Paste :=
  match paste with
  | None =>
      (Some (runtime_panic "invalid memory address or nil pointer dereference"), m, None)
  | Some paste => (None, <[ID paste := paste]> m, Some paste)
  end.

Definition Get (ctx : context.Context) (id : string) (m : Store)
  : option Paste * option error :=
  match m !! id with
  | Some p => (Some p, None)
  | None => (None, Some ErrNotFound)
  end.

Definition Delete (ctx : context.Context) (id : string) (m : Store)
  : option error * Store :=
  match m !! id with
  | None => (Some ErrNotFound, m)
  | Some _ => (None, delete id m)
  end.

(** Whether the loop of [DeleteExpired] deletes the record. *)
Definition expired (before : time.Time) (paste : Paste) : bool :=
  negb (time.IsZero (ExpiresAt paste)) && negb (time.After (ExpiresAt paste) before).

Definition DeleteExpired (ctx : context.Context) (before : time.Time) (m : Store)
  : Z * option error * Store :=
  (Z.of_nat (base.size (filter (fun kv => expired before kv.2 = true) m)),
   None,
   filter (fun kv => expired before kv.2 = false) m).

Definition memory_Store : storage.Store Store :=
  {| storage.Save := Save; storage.Get := Get;
     storage.Delete := Delete; storage.DeleteExpired := DeleteExpired |}.

End memoryStore.

(** ** Vocabulary of the statements, continued *)

(** Whether the byte [c] occurs in [s]. *)
Fixpoint occurs (c : ascii) (s : string) : bool :=
  match s with
  | EmptyString => false
  | String x s' => Ascii.eqb x c || occurs c s'
  end.

(** What the theorems on passwords assume of the two libraries: [Sscanf]
    reads the three parameters that [encodeHash] writes, and [IDKey] with
    the parameters of [HashPassword] returns a key of the length it was
    asked for. *)
Module secspec.

Definition scans_own_params `{Crypto} : Prop :=
  fmt_Sscanf ("m=" ++ fmt_d security.argonMemory ++ ",t=" ++ fmt_d security.argonTime
              ++ ",p=" ++ fmt_d security.argonThreads)
  = inr (security.argonMemory, security.argonTime, security.argonThreads).

Definition derives_key `{Crypto} : Prop :=
  forall password salt, exists key,
    argon2_IDKey password salt security.argonTime security.argonMemory
      security.argonThreads security.argonKeyLen = Returns key
    /\ Z.of_nat (length key) = security.argonKeyLen.

End secspec.

(** ** Stand-ins for the libraries, to run the model

    A scanner for [m=<int>,t=<int>,p=<int>] with decimal integers, and a
    key derivation that repeats the password and the salt up to the
    length asked for and refuses what argon2 refuses. *)
Module toy.

Fixpoint digits (s : string) (acc : Z) : option Z :=
  match s with
  | EmptyString => Some acc
  | String c s' =>
      let d := Z.of_N (N_of_ascii c) - 48 in
      if (0 <=? d) && (d <=? 9) then digits s' (10 * acc + d) else None
  end.

Definition field (name : string) (s : string) : option Z :=
  match s with
  | String n (String "=" (String c rest)) =>
      if String.eqb (String n "") name then digits (String c rest) 0 else None
  | _ => None
  end.

Definition Sscanf (s : string) : error + (Z * Z * Z) :=
  match strings_Split s "," with
  | [m; t; p] =>
      match field "m" m, field "t" t, field "p" p with
      | Some m, Some t, Some p => inr (m, t, p)
      | _, _, _ => inl (errors_New "input does not match format")
      end
  | _ => inl (errors_New "input does not match format")
  end.

Definition IDKey (password salt : bytes) (time memory threads keyLen : Z)
  : outcome bytes :=
  if time <? 1 then Panics "argon2: number of rounds too small"
  else if threads <? 1 then Panics "argon2: parallelism degree too low"
  else
    let material := (password ++ salt ++ [Byte.x01])%list in
    Returns (List.map (fun i => nth (i mod length material) material Byte.x00)
               (seq 0 (Z.to_nat keyLen))).

#[global] Instance crypto : Crypto :=
  {| argon2_IDKey := IDKey; fmt_Sscanf := Sscanf |}.

End toy.

(** Stand-ins for the libraries of the HTTP layer: ASCII case mapping
    and trimming, templates that print the name of the template and the
    title or message they are given, whole seconds, a keyed sum that is
    the key followed by the message, and URLs of the form
    scheme://host/path. *)
Module toyweb.

Definition upper (c : ascii) : ascii :=
  let n := N_of_ascii c in
  if ((97 <=? n) && (n <=? 122))%N then ascii_of_N (n - 32) else c.

Definition lower (c : ascii) : ascii :=
  let n := N_of_ascii c in
  if ((65 <=? n) && (n <=? 90))%N then ascii_of_N (n + 32) else c.

Fixpoint map_string (f : ascii -> ascii) (s : string) : string :=
  match s with
  | EmptyString => ""
  | String c s' => String (f c) (map_string f s')
  end.

Fixpoint trim_left (s : string) : string :=
  match s with
  | String " " s' => trim_left s'
  | _ => s
  end.

Fixpoint trim_right (s : string) : string :=
  match s with
  | EmptyString => ""
  | String c s' =>
      match trim_right s' with
      | EmptyString => if Ascii.eqb c " " then "" else String c ""
      | t => String c t
      end
  end.

Definition Execute (name : string) (data : template_data) : error + string :=
  match data with
  | of_layout title body => inr ("<title>" ++ title ++ "</title>" ++ body)
  | of_page (error_page d) => inr (name ++ ": " ++ errorPageData.Message d)
  | of_page (index_page d) => inr (name ++ ": " ++ indexPageData.Error d)
  | of_page (password_page d) => inr (name ++ ": " ++ passwordPageData.Error d)
  | of_page (view_page d) =>
      match viewPageData.Paste d with
      | Some paste => inr (name ++ ": " ++ storage.Content paste)
      | None => inl (errors_New "nil pointer evaluating *storage.Paste.Content")
      end
  end.

Definition Parse (s : string) : error + URL :=
  match strings_Split s "/" with
  | scheme :: "" :: host :: path =>
      inr (mkURL (strings_TrimSuffix scheme ":") host
             (match path with
              | [] => ""
              | _ => "/" ++ strings_Join path "/"
              end) "")
  | _ => inr (mkURL "" "" s "")
  end.

Definition SplitHostPort (s : string) : error + (string * string) :=
  match strings_Split s ":" with
  | [host; port] => inr (host, port)
  | _ => inl (errors_New "missing port in address")
  end.

#[global] Instance web : Web :=
  {| strings_ToUpper := map_string upper;
     strings_ToLower := map_string lower;
     strings_TrimSpace := fun s => trim_right (trim_left s);
     ExecuteTemplate := Execute;
     Seconds_int := fun d => Z.quot d time.Second;
     sha256_Sum256 := fun b => b;
     hmac_SHA256 := fun key message => (key ++ message)%list;
     qrcode_Encode := fun s => inr (bytes_of_string s);
     url_Parse := Parse;
     url_String := fun u => Scheme u ++ "://" ++ URL_Host u ++ URL_Path u;
     net_SplitHostPort := SplitHostPort |}.

(** A limiter that allows [burst] requests and then none. *)
#[global] Instance rate : web.Rate :=
  {| web.Limit := Z;
     web.Limiter := Z;
     web.rate_NewLimiter := fun _ burst => burst;
     web.Limiter_Allow := fun tokens _ => (0 <? tokens, Z.max 0 (tokens - 1)) |}.

(** The generator of identifiers: it delivers this one. *)
Definition nanoid (l : Z) : string * option error := ("V1StGXR8_Z5j", None).

(** The random source: the bytes 0, 1, 2, ... *)
Definition counting : Entropy := inr (fun n => byte.of_Z (Z.of_nat n)).

End toyweb.


(** Vocabulary for the statements on the HTTP layer. *)
Module webspec.

(** A count with its unit, left out when the count is zero. *)
Definition counted (n : Z) (name : string) : list string :=
  if n =? 0 then [] else [web.plural n name].

Definition Day : time.Duration := 24 * time.Hour.

(** The expiry [handleCreate] works with: the default when the form has
    none. *)
Definition expire_of (r : http.Request) : string :=
  if String.eqb (http.FormValue r "expire") "" then web.defaultExpire
  else http.FormValue r "expire".

(** A form that [handleCreate] accepts: it parses, the content is not
    empty and within the limit, the syntax is one of the whitelist and the
    expiry one of the choices. *)
Definition acceptable (s : web.Server) (r : http.Request) : Prop :=
  http.ParseForm r = None
  /\ 0 < Z.of_nat (String.length (http.FormValue r "content")) <= web.maxBytes s
  /\ In (http.FormValue r "syntax") web.syntaxWhitelist
  /\ is_Some (web.expireMap !! expire_of r).

(** The record [handleCreate] builds from a form. *)
Definition new_paste (r : http.Request) (id hashed : string) (duration : time.Duration)
  (now : time.Time) : storage.Paste :=
  storage.mkPaste id (http.FormValue r "content") (http.FormValue r "syntax")
    (time.UTC now)
    (if duration >? 0 then time.Add (time.UTC now) duration else time.zero)
    hashed (Z.of_nat (String.length (http.FormValue r "content"))).

(** The request may see the paste: it has no password, or the first
    cookie of the request that is named after the paste holds the
    signature of the server for its id. *)
Definition authorized `{Web} (s : web.Server) (r : http.Request) (paste : storage.Paste)
  : Prop :=
  storage.PasswordHash paste = ""
  \/ http.Cookie_ (http.Cookies r) ("auth_" ++ storage.ID paste)
     = Some (web.signValue s (storage.ID paste)).

(** The paste has not expired when the clock shows [now]. *)
Definition current (now : time.Time) (paste : storage.Paste) : Prop :=
  time.IsZero (storage.ExpiresAt paste) = true
  \/ time.After now (storage.ExpiresAt paste) = false.

End webspec.

Module webtest.

(** A server as [New] builds it from a limit of 1024 bytes and a secret. *)
Definition server : web.Server :=
  web.mkServer (idgen.New 12) 1024 false None (bytes_of_string "cookie secret").

(** A request over plain HTTP for the paste [id], with these cookies and
    this form. *)
Definition request (id : string) (cookies : list (string * string))
  (form : string -> string) : http.Request :=
  http.mkRequest context.Background "paste.example" "192.0.2.1:4711" false
    (fun _ => "") cookies None form
    (fun key => if String.eqb key "id" then id else "").

(** The form of the test of the repository: a Go program, kept a week. *)
Definition form (key : string) : string :=
  if String.eqb key "content" then "package main"
  else if String.eqb key "syntax" then "go"
  else if String.eqb key "expire" then "7d"
  else "".

Definition no_form (key : string) : string := "".

Definition password_form (key : string) : string :=
  if String.eqb key "password" then "sekret" else "".

(** The hash [HashPassword] stores for the password "sekret". *)
Definition locked_hash : string :=
  match security.HashPassword "sekret" toyweb.counting with
  | httpserver.Returns (hashed, None) => hashed
  | _ => ""
  end.

(** A paste with that password that never expires. *)
Definition locked : storage.Paste :=
  storage.mkPaste "locked" "top secret" "plaintext" example.now time.zero locked_hash 10.

(** A store of the tests with three pastes: one expired a minute ago, one
    has an hour left, one has a password. *)
Definition shelf : memoryStore.Store :=
  <["dead" := example.dead]>
    (<["alive" := example.alive]> (<["locked" := locked]> memoryStore.newMemoryStore)).

End webtest.
(* ================================================================== *)
(** * Part II: properties                                              *)
(* ================================================================== *)

(** ** Byte strings and their order *)

Lemma byte_compare_refl x : byte.compare x x = Eq.
Proof. apply Z.compare_refl. Qed.

Lemma byte_compare_eq x y : byte.compare x y = Eq -> x = y.
Proof. intros E. apply byte.unsigned_inj, Z.compare_eq, E. Qed.

Lemma byte_compare_antisym x y : byte.compare y x = CompOpp (byte.compare x y).
Proof. apply Z.compare_antisym. Qed.

Lemma bytes_Compare_refl a : bytes_Compare a a = Eq.
Proof. induction a as [|x a IH]; simpl; [|rewrite byte_compare_refl]; auto. Qed.

Lemma bytes_Compare_eq a b : bytes_Compare a b = Eq -> a = b.
Proof.
  revert b; induction a as [|x a IH]; intros [|y b]; simpl; try discriminate; auto.
  destruct (byte.compare x y) eqn:E; try discriminate.
  intros Hab. apply byte_compare_eq in E. f_equal; auto.
Qed.

Lemma bytes_Compare_antisym a b : bytes_Compare b a = CompOpp (bytes_Compare a b).
Proof.
  revert b; induction a as [|x a IH]; intros [|y b]; simpl; auto.
  rewrite (byte_compare_antisym x y).
  destruct (byte.compare x y); simpl; auto.
Qed.

Lemma bytes_Compare_trans a b c :
  bytes_Compare a b = Lt -> bytes_Compare b c = Lt -> bytes_Compare a c = Lt.
Proof.
  revert b c; induction a as [|x a IH]; intros [|y b] [|z c]; simpl;
    try discriminate; auto.
  unfold byte.compare.
  destruct (Z.compare_spec (byte.unsigned x) (byte.unsigned y)) as [E1|L1|G1];
    try discriminate;
    destruct (Z.compare_spec (byte.unsigned y) (byte.unsigned z)) as [E2|L2|G2];
    try discriminate; intros H1 H2.
  - rewrite E1, E2, Z.compare_refl. eauto.
  - rewrite E1. apply Z.compare_lt_iff in L2. now rewrite L2.
  - rewrite <- E2. apply Z.compare_lt_iff in L1. now rewrite L1.
  - assert (L : byte.unsigned x < byte.unsigned z) by lia.
    apply Z.compare_lt_iff in L. now rewrite L.
Qed.

Lemma bytes_eqb_eq a b : bytes_eqb a b = true <-> a = b.
Proof.
  unfold bytes_eqb; split.
  - destruct (bytes_Compare a b) eqn:E; try discriminate.
    intros _. now apply bytes_Compare_eq.
  - intros ->. now rewrite bytes_Compare_refl.
Qed.

Lemma bytes_eqb_refl a : bytes_eqb a a = true.
Proof. now apply bytes_eqb_eq. Qed.

Lemma bytes_eqb_neq a b : a <> b -> bytes_eqb a b = false.
Proof.
  intros N. destruct (bytes_eqb a b) eqn:E; auto.
  apply bytes_eqb_eq in E. contradiction.
Qed.

Lemma bytes_of_string_inj s1 s2 : bytes_of_string s1 = bytes_of_string s2 -> s1 = s2.
Proof.
  unfold bytes_of_string. intros E.
  rewrite <- (string_of_list_byte_of_string s1), E.
  apply string_of_list_byte_of_string.
Qed.

Lemma bytes_of_string_of_bytes b : bytes_of_string (string_of_bytes b) = b.
Proof. apply list_byte_of_string_of_list_byte. Qed.

Lemma length_bytes_of_string s : length (bytes_of_string s) = String.length s.
Proof.
  unfold bytes_of_string, list_byte_of_string.
  rewrite length_map. induction s; simpl; auto.
Qed.

(** ** Big-endian numbers *)

Lemma be_value_bound b : 0 <= be_value b < 256 ^ Z.of_nat (length b).
Proof.
  induction b as [|x b IH]; simpl be_value; simpl length.
  - simpl. lia.
  - pose proof (byte.unsigned_range x) as Hx.
    rewrite Nat2Z.inj_succ, Z.pow_succ_r by lia.
    change (2 ^ 8) with 256 in Hx. nia.
Qed.

Lemma be_value_digits n v : be_value (be_digits n v) = v mod 256 ^ Z.of_nat n.
Proof.
  induction n as [|n IH]; simpl be_digits; simpl be_value.
  - simpl. now rewrite Z.mod_1_r.
  - assert (L : length (be_digits n v) = n) by (clear; induction n; simpl; auto).
    rewrite L, IH, byte.unsigned_of_Z. unfold byte.wrap.
    rewrite Nat2Z.inj_succ, Z.pow_succ_r by lia.
    change (2 ^ 8) with 256.
    rewrite (Z.mul_comm 256), Z.rem_mul_r by lia. lia.
Qed.

Lemma length_be_digits n v : length (be_digits n v) = n.
Proof. induction n; simpl; auto. Qed.

Lemma lor_byte_shift lo hi k k' :
  0 <= lo < 2 ^ 8 -> 0 <= k -> k' = k + 8 ->
  Z.lor (Z.shiftl lo k) (hi * 2 ^ k') = (lo + hi * 2 ^ 8) * 2 ^ k.
Proof.
  intros Hlo Hk ->.
  rewrite <- (Z.mod_small lo (2 ^ 8)) by lia.
  rewrite <- Z.land_ones by lia.
  rewrite Z.mul_add_distr_r, <- Z.mul_assoc, <- Z.pow_add_r, (Z.add_comm 8 k) by lia.
  rewrite <- !Z.shiftl_mul_pow2 by lia.
  rewrite Z.or_to_plus; [reflexivity|].
  Z.bitblast.
  rewrite (Z.testbit_neg_r hi) by lia. apply andb_false_r.
Qed.

(** [Uint64] reads its eight bytes as a big-endian number. *)
Lemma Uint64_be_value b0 b1 b2 b3 b4 b5 b6 b7 rest :
  binary.Uint64 (b0 :: b1 :: b2 :: b3 :: b4 :: b5 :: b6 :: b7 :: rest)
  = Some (be_value [b0; b1; b2; b3; b4; b5; b6; b7]).
Proof.
  cbv [binary.Uint64]. f_equal.
  cbn [be_value length].
  pose proof (byte.unsigned_range b0). pose proof (byte.unsigned_range b1).
  pose proof (byte.unsigned_range b2). pose proof (byte.unsigned_range b3).
  pose proof (byte.unsigned_range b4). pose proof (byte.unsigned_range b5).
  pose proof (byte.unsigned_range b6). pose proof (byte.unsigned_range b7).
  revert H H0 H1 H2 H3 H4 H5 H6.
  generalize (byte.unsigned b0) (byte.unsigned b1) (byte.unsigned b2)
    (byte.unsigned b3) (byte.unsigned b4) (byte.unsigned b5)
    (byte.unsigned b6) (byte.unsigned b7).
  intros u0 u1 u2 u3 u4 u5 u6 u7 ? ? ? ? ? ? ? ?.
  rewrite (Z.shiftl_mul_pow2 u0 56) by lia.
  rewrite (lor_byte_shift u1 _ 48 56) by lia.
  rewrite (lor_byte_shift u2 _ 40 48) by lia.
  rewrite (lor_byte_shift u3 _ 32 40) by lia.
  rewrite (lor_byte_shift u4 _ 24 32) by lia.
  rewrite (lor_byte_shift u5 _ 16 24) by lia.
  rewrite (lor_byte_shift u6 _ 8 16) by lia.
  rewrite <- (Z.shiftl_0_r u7) at 1.
  rewrite (lor_byte_shift u7 _ 0 8) by lia.
  simpl Z.of_nat. lia.
Qed.

(** [PutUint64] writes the eight big-endian digits of its argument. *)
Lemma PutUint64_digits v : binary.PutUint64 v = be_digits 8 v.
Proof.
  unfold binary.PutUint64. cbn [be_digits].
  rewrite !Z.shiftr_div_pow2 by lia.
  simpl Z.of_nat. rewrite Z.pow_0_r, Z.div_1_r.
  reflexivity.
Qed.

Lemma length_PutUint64 v : length (binary.PutUint64 v) = 8%nat.
Proof. reflexivity. Qed.

Lemma be_value_PutUint64 v : be_value (binary.PutUint64 v) = v mod 2 ^ 64.
Proof. rewrite PutUint64_digits, be_value_digits. reflexivity. Qed.

(** Two byte strings that start with prefixes of one length compare as the
    numbers the prefixes denote, and then as what follows them. *)
Lemma bytes_Compare_app a b s1 s2 :
  length a = length b ->
  bytes_Compare (a ++ s1) (b ++ s2) =
  match be_value a ?= be_value b with
  | Eq => bytes_Compare s1 s2
  | c => c
  end.
Proof.
  revert b; induction a as [|x a IH]; intros [|y b] L; try discriminate L.
  - reflexivity.
  - injection L as L. cbn [app bytes_Compare be_value]. rewrite (IH b L), L.
    pose proof (be_value_bound a) as Ha. pose proof (be_value_bound b) as Hb.
    rewrite L in Ha. set (m := 256 ^ Z.of_nat (length b)) in *.
    unfold byte.compare.
    destruct (Z.compare_spec (byte.unsigned x) (byte.unsigned y)) as [E|Hlt|Hgt].
    + rewrite E.
      destruct (Z.compare_spec (be_value a) (be_value b)) as [E'|Hlt'|Hgt'].
      * rewrite E', Z.compare_refl. reflexivity.
      * assert (C : (byte.unsigned y * m + be_value a
                     ?= byte.unsigned y * m + be_value b) = Lt)
          by (apply Z.compare_lt_iff; lia).
        now rewrite C.
      * assert (C : (byte.unsigned y * m + be_value a
                     ?= byte.unsigned y * m + be_value b) = Gt)
          by (apply Z.compare_gt_iff; lia).
        now rewrite C.
    + assert (C : (byte.unsigned x * m + be_value a
                   ?= byte.unsigned y * m + be_value b) = Lt)
        by (apply Z.compare_lt_iff; nia).
      now rewrite C.
    + assert (C : (byte.unsigned x * m + be_value a
                   ?= byte.unsigned y * m + be_value b) = Gt)
        by (apply Z.compare_gt_iff; nia).
      now rewrite C.
Qed.

(** The timestamp [DeleteExpired] decodes from a key of the index. *)
Lemma Uint64_slice key :
  (8 <= length key)%nat ->
  slice_to 8 key ≫= binary.Uint64 = Some (be_value (firstn 8 key)).
Proof.
  intros L. unfold slice_to.
  destruct (Nat.ltb_spec (length key) 8) as [C|_]; [lia|]. simpl.
  do 8 (destruct key as [|? key]; [simpl in L; lia|]).
  cbn [firstn]. apply Uint64_be_value.
Qed.

(** Along ascending keys the decoded timestamps do not decrease. *)
Lemma key_order_timestamps k1 k2 :
  (8 <= length k1)%nat -> (8 <= length k2)%nat ->
  bytes_Compare k1 k2 = Lt ->
  be_value (firstn 8 k1) <= be_value (firstn 8 k2).
Proof.
  intros L1 L2. rewrite <- (firstn_skipn 8 k1), <- (firstn_skipn 8 k2) at 1.
  rewrite bytes_Compare_app by (rewrite !length_firstn; lia).
  destruct (Z.compare_spec (be_value (firstn 8 k1)) (be_value (firstn 8 k2)));
    intros; try discriminate; lia.
Qed.

(** ** The index key *)

Lemma toTimestamp_range t : 0 <= boltstore.toTimestamp t < 2 ^ 64.
Proof.
  unfold boltstore.toTimestamp, uint64.
  destruct (time.IsZero t); [lia|]. apply Z.mod_pos_bound. lia.
Qed.

(** Inside the range of the index the timestamp is the count of
    nanoseconds since the Unix epoch. *)
Lemma toTimestamp_in_range t :
  boltspec.in_range t -> boltstore.toTimestamp t = time.unix_ns t.
Proof.
  unfold boltspec.in_range, boltstore.toTimestamp, time.IsZero, time.UnixNano,
    time.unix_ns, uint64, int64. simpl time.instant. intros R.
  destruct (Z.eqb_spec (time.instant t) 0) as [Z0|NZ].
  - rewrite Z0 in R. vm_compute in R. destruct R as [R _]. now contradiction R.
  - rewrite Zminus_mod_idemp_l.
    replace (time.instant t - time.unixToInternal * 1000000000 + 2 ^ 63 - 2 ^ 63)
      with (time.instant t - time.unixToInternal * 1000000000) by ring.
    apply Z.mod_small. exact R.
Qed.

Lemma length_expireKey t id :
  length (boltstore.expireKey t id) = (8 + String.length id)%nat.
Proof.
  unfold boltstore.expireKey.
  rewrite length_app, length_PutUint64, length_bytes_of_string. reflexivity.
Qed.

Lemma expireKey_timestamp t id :
  be_value (firstn 8 (boltstore.expireKey t id)) = boltstore.toTimestamp t.
Proof.
  unfold boltstore.expireKey.
  rewrite firstn_app, length_PutUint64. simpl firstn at 2. rewrite app_nil_r.
  rewrite firstn_all2 by (rewrite length_PutUint64; lia).
  rewrite be_value_PutUint64. apply Z.mod_small, toTimestamp_range.
Qed.

Lemma expireKey_id t id :
  skipn 8 (boltstore.expireKey t id) = bytes_of_string id.
Proof. reflexivity. Qed.

Lemma expireKey_inj_id t1 id1 t2 id2 :
  boltstore.expireKey t1 id1 = boltstore.expireKey t2 id2 -> id1 = id2.
Proof.
  intros E. apply bytes_of_string_inj.
  rewrite <- (expireKey_id t1 id1), <- (expireKey_id t2 id2). now rewrite E.
Qed.

(** Keys compare by timestamp first and by id second. *)
Lemma expireKey_compare t1 id1 t2 id2 :
  bytes_Compare (boltstore.expireKey t1 id1) (boltstore.expireKey t2 id2) =
  match boltstore.toTimestamp t1 ?= boltstore.toTimestamp t2 with
  | Eq => bytes_Compare (bytes_of_string id1) (bytes_of_string id2)
  | c => c
  end.
Proof.
  unfold boltstore.expireKey. rewrite bytes_Compare_app by reflexivity.
  rewrite !be_value_PutUint64.
  rewrite !Z.mod_small by apply toTimestamp_range. reflexivity.
Qed.

(** ** Buckets *)

Section TreeFacts.
Context {V : Type}.
Implicit Types (t : list (bytes * V)) (k : bytes) (v : V).

Lemma lookup_insert_eq k v t : bolt.lookup k (bolt.insert k v t) = Some v.
Proof.
  induction t as [|[k' v'] t IH]; simpl.
  - now rewrite bytes_eqb_refl.
  - destruct (bytes_Compare k k') eqn:C; simpl.
    + now rewrite bytes_eqb_refl.
    + now rewrite bytes_eqb_refl.
    + rewrite bytes_eqb_neq; auto.
      intros ->. rewrite bytes_Compare_refl in C. discriminate.
Qed.

Lemma lookup_insert_ne k k' v t :
  k <> k' -> bolt.lookup k' (bolt.insert k v t) = bolt.lookup k' t.
Proof.
  intros N. induction t as [|[k0 v0] t IH]; simpl.
  - now rewrite bytes_eqb_neq.
  - destruct (bytes_Compare k k0) eqn:C; simpl.
    + apply bytes_Compare_eq in C. subst k0. now rewrite !bytes_eqb_neq.
    + now rewrite (bytes_eqb_neq k k').
    + now rewrite IH.
Qed.

Lemma lookup_remove_eq k t : bolt.lookup k (bolt.remove k t) = None.
Proof.
  unfold bolt.remove. induction t as [|[k0 v0] t IH]; simpl; auto.
  destruct (bytes_eqb k0 k) eqn:E; simpl; auto. now rewrite E.
Qed.

Lemma lookup_remove_ne k k' t :
  k <> k' -> bolt.lookup k' (bolt.remove k t) = bolt.lookup k' t.
Proof.
  intros N. unfold bolt.remove. induction t as [|[k0 v0] t IH]; simpl; auto.
  destruct (bytes_eqb k0 k) eqn:E; simpl.
  - apply bytes_eqb_eq in E. subst k0. now rewrite bytes_eqb_neq.
  - now rewrite IH.
Qed.

Lemma remove_absent k t : bolt.lookup k t = None -> bolt.remove k t = t.
Proof.
  unfold bolt.remove. induction t as [|[k0 v0] t IH]; simpl; auto.
  destruct (bytes_eqb k0 k); [discriminate|]. simpl. intros H. now rewrite IH.
Qed.

Lemma lookup_In k v t : bolt.lookup k t = Some v -> In (k, v) t.
Proof.
  induction t as [|[k0 v0] t IH]; simpl; [discriminate|].
  destruct (bytes_eqb k0 k) eqn:E.
  - apply bytes_eqb_eq in E. intros [= ->]. left. now subst.
  - auto.
Qed.

Lemma In_remove kv k t : In kv (bolt.remove k t) <-> In kv t /\ fst kv <> k.
Proof.
  unfold bolt.remove. rewrite List.filter_In, negb_true_iff. split; intros [H1 H2]; split; auto.
  - intros E. apply bytes_eqb_eq in E. congruence.
  - now apply bytes_eqb_neq.
Qed.

Lemma ascending_lt k v t kv :
  boltspec.ascending ((k, v) :: t) -> In kv t -> bytes_Compare k (fst kv) = Lt.
Proof.
  intros A I. apply StronglySorted_inv in A as [_ A].
  rewrite List.Forall_forall in A. exact (A kv I).
Qed.

Lemma ascending_tail k v t : boltspec.ascending ((k, v) :: t) -> boltspec.ascending t.
Proof. intros A. now apply StronglySorted_inv in A. Qed.

Lemma ascending_In_lookup k v t :
  boltspec.ascending t -> In (k, v) t -> bolt.lookup k t = Some v.
Proof.
  induction t as [|[k0 v0] t IH]; simpl; [contradiction|].
  intros A [E|I].
  - injection E as -> ->. now rewrite bytes_eqb_refl.
  - rewrite bytes_eqb_neq.
    + apply IH; auto. eapply ascending_tail; eauto.
    + intros ->. pose proof (ascending_lt _ _ _ _ A I) as C. simpl in C.
      rewrite bytes_Compare_refl in C. discriminate.
Qed.

Lemma ascending_remove k t : boltspec.ascending t -> boltspec.ascending (bolt.remove k t).
Proof.
  unfold boltspec.ascending, bolt.remove.
  induction 1 as [|a t A IH F]; simpl; [constructor|].
  destruct (negb (bytes_eqb (fst a) k)); auto.
  constructor; auto. rewrite List.Forall_forall in *.
  intros x Hx. apply List.filter_In in Hx as [Hx _]. auto.
Qed.

Lemma In_insert kv k v t :
  boltspec.ascending t ->
  In kv (bolt.insert k v t) <-> kv = (k, v) \/ (In kv t /\ fst kv <> k).
Proof.
  induction t as [|[k0 v0] t IH]; simpl; intros A.
  - intuition.
  - pose proof (ascending_tail _ _ _ A) as A'.
    destruct (bytes_Compare k k0) eqn:C; simpl.
    + apply bytes_Compare_eq in C. subst k0. split.
      * intros [E|I]; auto. right. split; auto.
        intros E. pose proof (ascending_lt _ _ _ _ A I) as L.
        rewrite E, bytes_Compare_refl in L. discriminate.
      * intros [E|[[E|I] N]]; auto. subst kv. simpl in N. congruence.
    + split.
      * intros [E|[E|I]]; auto.
        -- right. subst kv. simpl. split; auto. intros ->.
           rewrite bytes_Compare_refl in C. discriminate.
        -- right. split; auto. intros E.
           pose proof (ascending_lt _ _ _ _ A I) as L. rewrite E in L.
           pose proof (bytes_Compare_trans _ _ _ C L) as L'.
           rewrite bytes_Compare_refl in L'. discriminate.
      * intros [E|[[E|I] N]]; auto.
    + rewrite (IH A'). split.
      * intros [E|[E|[I N]]]; auto. right. subst kv. simpl. split; auto.
        intros ->. rewrite bytes_Compare_refl in C. discriminate.
      * intros [E|[[E|I] N]]; auto.
Qed.

Lemma ascending_insert k v t :
  boltspec.ascending t -> boltspec.ascending (bolt.insert k v t).
Proof.
  induction t as [|[k0 v0] t IH]; simpl; intros A.
  - repeat constructor.
  - pose proof (ascending_tail _ _ _ A) as A'.
    destruct (bytes_Compare k k0) eqn:C.
    + apply bytes_Compare_eq in C. subst k0.
      apply StronglySorted_inv in A as [A1 A2]. now constructor.
    + constructor; [exact A|].
      apply List.Forall_forall. intros x [<-|Hx]; simpl; [exact C|].
      eapply bytes_Compare_trans; eauto. eapply ascending_lt; eauto.
    + constructor; [now apply IH|].
      apply List.Forall_forall. intros x Hx.
      apply In_insert in Hx as [->|[Hx _]]; auto.
      * simpl. rewrite bytes_Compare_antisym, C. reflexivity.
      * eapply ascending_lt; eauto.
Qed.

(** Deleting the pair a cursor is at leaves what it has still to visit. *)
Lemma remove_head k v t :
  boltspec.ascending ((k, v) :: t) -> bolt.remove k ((k, v) :: t) = t.
Proof.
  intros A. unfold bolt.remove. simpl. rewrite bytes_eqb_refl. simpl.
  apply List.forallb_filter_id. apply List.forallb_forall. intros x Hx.
  apply negb_true_iff, bytes_eqb_neq. intros E.
  pose proof (ascending_lt _ _ _ _ A Hx) as L.
  rewrite E, bytes_Compare_refl in L. discriminate.
Qed.

Lemma ascending_NoDup t : boltspec.ascending t -> List.NoDup t.
Proof.
  induction t as [|[k v] t IH]; intros A; constructor.
  - intros I. pose proof (ascending_lt _ _ _ _ A I) as L. simpl in L.
    rewrite bytes_Compare_refl in L. discriminate.
  - apply IH. eapply ascending_tail; eauto.
Qed.

End TreeFacts.

(** ** Transactions on a store with its two buckets *)

Import storage boltstore boltspec.

Lemma tx_wrap_eq {A : Type} prefix (m : bolt.Tx A) db :
  bolt.wrap prefix m db =
  match m db with inl e => inl (fmt_Errorf_w prefix e) | inr r => inr r end.
Proof. reflexivity. Qed.

Lemma lookup_pastes pB eB : bolt.lookup pasteBucket (mkdb pB eB) = Some pB.
Proof. reflexivity. Qed.

Lemma lookup_expires pB eB : bolt.lookup expireBucket (mkdb pB eB) = Some eB.
Proof. reflexivity. Qed.

Lemma pastes_mkdb pB eB : pastes (mkdb pB eB) = pB.
Proof. reflexivity. Qed.

Lemma expires_mkdb pB eB : expires (mkdb pB eB) = eB.
Proof. reflexivity. Qed.

Lemma tx_Bucket_pastes pB eB :
  bolt.tx_Bucket pasteBucket (mkdb pB eB) = inr (Some pasteBucket, mkdb pB eB).
Proof. reflexivity. Qed.

Lemma tx_Bucket_expires pB eB :
  bolt.tx_Bucket expireBucket (mkdb pB eB) = inr (Some expireBucket, mkdb pB eB).
Proof. reflexivity. Qed.

Lemma Bucket_Get_pastes key pB eB :
  bolt.Bucket_Get pasteBucket key (mkdb pB eB) = inr (bolt.lookup key pB, mkdb pB eB).
Proof. reflexivity. Qed.

Lemma Bucket_Put_pastes key value pB eB :
  bolt.Bucket_Put pasteBucket key value (mkdb pB eB) =
  match bolt.Put_check key value with
  | Some err => inl err
  | None => inr (tt, mkdb (bolt.insert key value pB) eB)
  end.
Proof. reflexivity. Qed.

Lemma Bucket_Put_expires key value pB eB :
  bolt.Bucket_Put expireBucket key value (mkdb pB eB) =
  match bolt.Put_check key value with
  | Some err => inl err
  | None => inr (tt, mkdb pB (bolt.insert key value eB))
  end.
Proof. reflexivity. Qed.

Lemma Bucket_Delete_pastes key pB eB :
  bolt.Bucket_Delete pasteBucket key (mkdb pB eB) = inr (tt, mkdb (bolt.remove key pB) eB).
Proof. reflexivity. Qed.

Lemma Bucket_Delete_expires key pB eB :
  bolt.Bucket_Delete expireBucket key (mkdb pB eB) = inr (tt, mkdb pB (bolt.remove key eB)).
Proof. reflexivity. Qed.

Lemma Bucket_Cursor_expires pB eB :
  bolt.Bucket_Cursor expireBucket (mkdb pB eB) = inr (eB, mkdb pB eB).
Proof. reflexivity. Qed.

Lemma new_store_mkdb : new_store = mkdb [] [].
Proof. reflexivity. Qed.

Section BoltFacts.
Variable json_Marshal : Paste -> error + bytes.
Variable json_Unmarshal : bytes -> error + Paste.

(** What the transaction of [Save] does to the two buckets. *)
Lemma Save_tx_mkdb paste data pB eB :
  Save_tx json_Unmarshal paste data (mkdb pB eB) =
  let id := bytes_of_string (ID paste) in
  let eB1 := without_entry_of json_Unmarshal id pB eB in
  match bolt.Put_check id data with
  | Some err => inl (fmt_Errorf_w "save paste" err)
  | None =>
      if HasExpiration paste then
        match bolt.Put_check (expireKey (ExpiresAt paste) (ID paste)) id with
        | Some err => inl (fmt_Errorf_w "index expiry" err)
        | None =>
            inr (tt, mkdb (bolt.insert id data pB)
                       (bolt.insert (expireKey (ExpiresAt paste) (ID paste)) id eB1))
        end
      else inr (tt, mkdb (bolt.insert id data pB) eB1)
  end.
Proof.
  unfold Save_tx, without_entry_of, mbind, bolt.Tx_bind, mret, bolt.Tx_ret.
  rewrite tx_Bucket_pastes, tx_Bucket_expires, Bucket_Get_pastes.
  cbv beta iota zeta.
  assert (T : forall eB',
    match
      bolt.wrap "save paste"
        (bolt.Bucket_Put pasteBucket (bytes_of_string (ID paste)) data) (mkdb pB eB')
    with
    | inl e => inl e
    | inr (_, db') =>
        (if HasExpiration paste
         then bolt.wrap "index expiry"
                (bolt.Bucket_Put expireBucket (expireKey (ExpiresAt paste) (ID paste))
                   (bytes_of_string (ID paste)))
         else fun db : bolt.DB => inr (tt, db)) db'
    end =
    match bolt.Put_check (bytes_of_string (ID paste)) data with
    | Some err => inl (fmt_Errorf_w "save paste" err)
    | None =>
        if HasExpiration paste then
          match bolt.Put_check (expireKey (ExpiresAt paste) (ID paste))
                  (bytes_of_string (ID paste)) with
          | Some err => inl (fmt_Errorf_w "index expiry" err)
          | None =>
              inr (tt, mkdb (bolt.insert (bytes_of_string (ID paste)) data pB)
                         (bolt.insert (expireKey (ExpiresAt paste) (ID paste))
                            (bytes_of_string (ID paste)) eB'))
          end
        else inr (tt, mkdb (bolt.insert (bytes_of_string (ID paste)) data pB) eB')
    end).
  { intros eB'. rewrite tx_wrap_eq, Bucket_Put_pastes.
    destruct (bolt.Put_check (bytes_of_string (ID paste)) data); [reflexivity|].
    destruct (HasExpiration paste); [|reflexivity].
    rewrite tx_wrap_eq, Bucket_Put_expires. now destruct (bolt.Put_check _ _). }
  destruct (bolt.lookup (bytes_of_string (ID paste)) pB) as [ex|]; [|apply T].
  destruct (json_Unmarshal ex) as [?|prev]; [apply T|].
  destruct (HasExpiration prev); [|apply T].
  rewrite tx_wrap_eq, Bucket_Delete_expires. apply T.
Qed.

(** What [Delete] does to the two buckets. *)
Lemma Delete_mkdb ctx id pB eB :
  Delete json_Unmarshal ctx id (mkdb pB eB) =
  match context.Err ctx with
  | Some err => (Some err, mkdb pB eB)
  | None =>
      match bolt.lookup (bytes_of_string id) pB with
      | None => (Some ErrNotFound, mkdb pB eB)
      | Some _ =>
          (None, mkdb (bolt.remove (bytes_of_string id) pB)
                   (without_entry_of json_Unmarshal (bytes_of_string id) pB eB))
      end
  end.
Proof.
  unfold Delete, without_entry_of, bolt.Update, mbind, bolt.Tx_bind, mret, bolt.Tx_ret.
  destruct (context.Err ctx); [reflexivity|].
  rewrite tx_Bucket_pastes, tx_Bucket_expires, Bucket_Get_pastes.
  cbv beta iota zeta.
  destruct (bolt.lookup (bytes_of_string id) pB) as [raw|]; [|reflexivity].
  destruct (json_Unmarshal raw) as [?|paste].
  - now rewrite tx_wrap_eq, Bucket_Delete_pastes.
  - destruct (HasExpiration paste).
    + now rewrite tx_wrap_eq, Bucket_Delete_expires, tx_wrap_eq, Bucket_Delete_pastes.
    + now rewrite tx_wrap_eq, Bucket_Delete_pastes.
Qed.

End BoltFacts.

(** What the loop of [DeleteExpired] does to the two buckets. *)
Lemma sweep_mkdb cutoff cursor removed pB :
  ascending cursor ->
  sweep pasteBucket expireBucket cutoff cursor removed (mkdb pB cursor) =
  match swept cutoff pB cursor removed with
  | Some (n, pB', eB') => inr (n, mkdb pB' eB')
  | None => inl (runtime_panic "slice bounds out of range")
  end.
Proof.
  revert removed pB. induction cursor as [|[key val] cursor IH]; intros removed pB A.
  - reflexivity.
  - cbn [sweep swept].
    destruct (slice_to 8 key ≫= binary.Uint64) as [ts|]; [|reflexivity].
    destruct (ts >? cutoff); [reflexivity|].
    unfold mbind at 1 2, bolt.Tx_bind, bolt.Cursor_Delete.
    rewrite tx_wrap_eq, Bucket_Delete_pastes, bytes_of_string_of_bytes.
    rewrite tx_wrap_eq, Bucket_Delete_expires, remove_head by exact A.
    apply IH. eapply ascending_tail; eauto.
Qed.

Lemma DeleteExpired_mkdb ctx before pB eB :
  ascending eB ->
  DeleteExpired ctx before (mkdb pB eB) =
  match context.Err ctx with
  | Some err => (0, Some err, mkdb pB eB)
  | None =>
      match swept (toTimestamp (time.UTC before)) pB eB 0 with
      | Some (n, pB', eB') => (n, None, mkdb pB' eB')
      | None => (0, Some (runtime_panic "slice bounds out of range"), mkdb pB eB)
      end
  end.
Proof.
  intros A. unfold DeleteExpired, bolt.Update, mbind, bolt.Tx_bind.
  destruct (context.Err ctx); [reflexivity|].
  rewrite tx_Bucket_pastes, tx_Bucket_expires, Bucket_Cursor_expires.
  cbv beta iota zeta. rewrite sweep_mkdb by exact A.
  now destruct (swept _ _ _ _) as [[[n pB'] eB']|].
Qed.

(** ** The invariant of the embedded store *)

Lemma bytes_eq_dec (a b : bytes) : {a = b} + {a <> b}.
Proof. apply List.list_eq_dec, Byte.byte_eq_dec. Qed.

Section Invariant.
Variable json_Marshal : Paste -> error + bytes.
Variable json_Unmarshal : bytes -> error + Paste.
Hypothesis json_round_trip : json_coerces json_Marshal json_Unmarshal.

#[local] Abbreviation consistent := (consistent json_Unmarshal).
#[local] Abbreviation without_entry_of := (without_entry_of json_Unmarshal).

Lemma consistent_empty : consistent [] [].
Proof.
  split; try (intros; discriminate); try constructor.
  intros key v [].
Qed.

Lemma normalized_normalize p : normalized (normalize p).
Proof. split; reflexivity. Qed.

Section Entry.
Variables (pB eB : bolt.Bucket) (id : bytes).
Hypothesis C : consistent pB eB.

Lemma without_entry_ascending : ascending (without_entry_of id pB eB).
Proof.
  unfold boltspec.without_entry_of.
  destruct (bolt.lookup id pB) as [ex|]; [|apply C].
  destruct (json_Unmarshal ex) as [?|prev]; [apply C|].
  destruct (HasExpiration prev); [|apply C].
  apply ascending_remove, C.
Qed.

(** The index without the entry of [id] is the index without the entries
    whose value is [id]. *)
Lemma In_without_entry key v :
  In (key, v) (without_entry_of id pB eB) <-> In (key, v) eB /\ v <> id.
Proof.
  unfold boltspec.without_entry_of. split.
  - intros I.
    assert (I' : In (key, v) eB).
    { destruct (bolt.lookup id pB) as [ex|]; auto.
      destruct (json_Unmarshal ex) as [?|prev]; auto.
      destruct (HasExpiration prev); auto.
      now apply In_remove in I. }
    split; auto. intros ->.
    destruct (entry_has_record _ _ _ C _ _ I') as (d & p & Hd & Hp & He & Hk).
    rewrite Hd, Hp, He in I. apply In_remove in I as [_ N]. simpl in N. congruence.
  - intros [I N].
    destruct (bolt.lookup id pB) as [ex|] eqn:Hex; auto.
    destruct (json_Unmarshal ex) as [?|prev] eqn:Hprev; auto.
    destruct (HasExpiration prev); auto.
    apply In_remove. split; auto. simpl. intros ->.
    destruct (entry_has_record _ _ _ C _ _ I) as (d & p & Hd & Hp & He & Hk).
    apply expireKey_inj_id in Hk.
    destruct (pastes_decode _ _ _ C _ _ Hd) as (p' & Hp' & Hid').
    destruct (pastes_decode _ _ _ C _ _ Hex) as (q' & Hq' & Hidq).
    congruence.
Qed.

(** Removing a record together with its entry. *)
Lemma consistent_drop :
  consistent (bolt.remove id pB) (without_entry_of id pB eB).
Proof.
  split.
  - apply ascending_remove, C.
  - apply without_entry_ascending.
  - intros k d L.
    destruct (bytes_eq_dec id k) as [->|N].
    + rewrite lookup_remove_eq in L. discriminate.
    + rewrite lookup_remove_ne in L by exact N. eapply pastes_decode; eauto.
  - intros key v I. apply In_without_entry in I as [I N].
    destruct (entry_has_record _ _ _ C _ _ I) as (d & p & Hd & Hp & He & Hk).
    exists d, p. rewrite lookup_remove_ne by congruence. auto.
  - intros k d p L Hp He.
    destruct (bytes_eq_dec id k) as [->|N].
    + rewrite lookup_remove_eq in L. discriminate.
    + rewrite lookup_remove_ne in L by exact N.
      apply ascending_In_lookup; [apply without_entry_ascending|].
      apply In_without_entry. split; [|congruence].
      apply lookup_In. eapply record_has_entry; eauto.
Qed.

End Entry.

(** Writing a record and, when it expires, its entry. *)
Lemma consistent_save pB eB p data :
  consistent pB eB -> normalized p -> json.valid (ID p) ->
  json_Marshal p = inr data ->
  consistent
    (bolt.insert (bytes_of_string (ID p)) data pB)
    (if HasExpiration p
     then bolt.insert (expireKey (ExpiresAt p) (ID p)) (bytes_of_string (ID p))
            (without_entry_of (bytes_of_string (ID p)) pB eB)
     else without_entry_of (bytes_of_string (ID p)) pB eB).
Proof.
  intros C Np Vid Hm. pose proof (json_round_trip _ _ Np Hm) as Hu.
  set (p' := json.coerced p) in Hu.
  assert (Eid : ID p' = ID p) by exact Vid.
  set (id := bytes_of_string (ID p)) in *.
  pose proof (without_entry_ascending pB eB id C) as A1.
  split.
  - apply ascending_insert, C.
  - destruct (HasExpiration p); [apply ascending_insert|]; exact A1.
  - intros k d L.
    destruct (bytes_eq_dec id k) as [<-|N].
    + rewrite lookup_insert_eq in L. injection L as <-.
      exists p'. split; [exact Hu|]. unfold id. now rewrite Eid.
    + rewrite lookup_insert_ne in L by exact N. eapply pastes_decode; eauto.
  - intros key v I.
    assert (I' : (key, v) = (expireKey (ExpiresAt p) (ID p), id)
                 /\ HasExpiration p = true
                 \/ In (key, v) (without_entry_of id pB eB)).
    { destruct (HasExpiration p); auto.
      apply In_insert in I as [I|[I _]]; auto. }
    destruct I' as [[E He]|I'].
    + injection E as -> ->. exists data, p'. rewrite lookup_insert_eq.
      split; [reflexivity|]. split; [exact Hu|]. split; [exact He|].
      now rewrite Eid.
    + apply In_without_entry in I' as [I' N]; auto.
      destruct (entry_has_record _ _ _ C _ _ I') as (d & q & Hd & Hq & He & Hk).
      exists d, q. rewrite lookup_insert_ne by congruence. auto.
  - intros k d q L Hq He.
    destruct (bytes_eq_dec id k) as [<-|N].
    + rewrite lookup_insert_eq in L. injection L as <-.
      assert (q = p') by congruence. subst q. rewrite Eid.
      change (HasExpiration p') with (HasExpiration p) in He.
      change (ExpiresAt p') with (ExpiresAt p). rewrite He.
      apply lookup_insert_eq.
    + rewrite lookup_insert_ne in L by exact N.
      destruct (pastes_decode _ _ _ C _ _ L) as (q' & Hq' & Hid).
      assert (q' = q) by congruence. subst q'.
      assert (I : In (expireKey (ExpiresAt q) (ID q), k) (without_entry_of id pB eB)).
      { apply In_without_entry; auto. split; [|congruence].
        apply lookup_In. eapply record_has_entry; eauto. }
      destruct (HasExpiration p).
      * apply ascending_In_lookup; [now apply ascending_insert|].
        apply In_insert; auto. right. split; auto. simpl. intros E.
        apply expireKey_inj_id in E. apply N. unfold id. congruence.
      * now apply ascending_In_lookup.
Qed.

(** The loop of [DeleteExpired] removes records together with their
    entries, and every key of the index holds a timestamp. *)
Lemma consistent_swept cutoff cursor : forall pB removed,
  consistent pB cursor ->
  exists n pB' eB',
    swept cutoff pB cursor removed = Some (n, pB', eB') /\ consistent pB' eB'.
Proof.
  induction cursor as [|[key val] cursor IH]; intros pB removed C.
  - simpl. eauto.
  - cbn [swept].
    destruct (entry_has_record _ _ _ C key val (or_introl eq_refl))
      as (d & p & Hd & Hp & He & Hk).
    rewrite Uint64_slice by (subst key; rewrite length_expireKey; lia).
    destruct (_ >? cutoff); [eauto|].
    apply IH.
    pose proof (consistent_drop pB _ val C) as D.
    unfold boltspec.without_entry_of in D. rewrite Hd, Hp, He, <- Hk in D.
    rewrite remove_head in D by apply C. exact D.
Qed.

#[local] Abbreviation step := (step json_Marshal json_Unmarshal).
#[local] Abbreviation run := (run json_Marshal json_Unmarshal).
#[local] Abbreviation store_ok := (store_ok json_Unmarshal).

Lemma store_ok_new : store_ok new_store.
Proof. exists [], []. split; [reflexivity|apply consistent_empty]. Qed.

Lemma store_ok_step s o : utf8_op o -> store_ok s -> store_ok (step s o).
Proof.
  intros V (pB & eB & -> & C). destruct o as [ctx [paste|]|ctx id|ctx before]; simpl.
  - unfold Save. destruct (context.Err ctx); [simpl; exists pB, eB; auto|].
    destruct (json_Marshal _) as [?|data] eqn:Hm; [simpl; exists pB, eB; auto|].
    unfold bolt.Update. rewrite Save_tx_mkdb. cbv zeta.
    destruct (bolt.Put_check _ data); [simpl; exists pB, eB; auto|].
    pose proof (consistent_save pB eB _ data C (normalized_normalize paste) V Hm) as S.
    fold (normalize paste) in *.
    destruct (HasExpiration (normalize paste)).
    + destruct (bolt.Put_check _ _); simpl; [exists pB, eB; auto|].
      eexists _, _. split; [reflexivity|exact S].
    + simpl. eexists _, _. split; [reflexivity|exact S].
  - exists pB, eB; auto.
  - rewrite Delete_mkdb. destruct (context.Err ctx); [simpl; exists pB, eB; auto|].
    destruct (bolt.lookup _ pB) eqn:L; simpl; [|exists pB, eB; auto].
    eexists _, _. split; [reflexivity|]. now apply consistent_drop.
  - rewrite DeleteExpired_mkdb by apply C.
    destruct (context.Err ctx); [simpl; exists pB, eB; auto|].
    destruct (consistent_swept (toTimestamp (time.UTC before)) eB pB 0 C)
      as (n & pB' & eB' & -> & C').
    simpl. exists pB', eB'. auto.
Qed.

Lemma store_ok_run ops : forall s,
  List.Forall utf8_op ops -> store_ok s -> store_ok (run ops s).
Proof.
  induction ops as [|o ops IH]; intros s V Hs; simpl; auto.
  inversion V as [|? ? Vo Vops]; subst.
  apply IH; [exact Vops|]. now apply store_ok_step.
Qed.

End Invariant.

(** ** The codec of the examples round-trips *)

Lemma dec_enc_pos p rest : codec.dec_pos (codec.enc_pos p ++ rest) = Some (p, rest).
Proof. induction p as [p IH|p IH|]; simpl; try rewrite IH; reflexivity. Qed.

Lemma dec_enc_Z z rest : codec.dec_Z (codec.enc_Z z ++ rest) = Some (z, rest).
Proof. destruct z; simpl; try rewrite dec_enc_pos; reflexivity. Qed.

Lemma dec_enc_string s rest :
  codec.dec_string (codec.enc_string s ++ rest) = Some (s, rest).
Proof.
  unfold codec.dec_string, codec.enc_string.
  rewrite <- app_assoc, dec_enc_Z. simpl. rewrite Nat2Z.id.
  pose proof (length_bytes_of_string s) as L.
  destruct (Nat.ltb_spec (length (bytes_of_string s ++ rest)) (String.length s)) as [C|_].
  - rewrite length_app in C. lia.
  - rewrite <- L, firstn_app, Nat.sub_diag, firstn_all, firstn_O, app_nil_r.
    rewrite skipn_app, Nat.sub_diag, skipn_all. simpl.
    unfold string_of_bytes, bytes_of_string.
    now rewrite string_of_list_byte_of_string.
Qed.

Lemma dec_enc_loc l rest : codec.dec_loc (codec.enc_loc l ++ rest) = Some (l, rest).
Proof.
  destruct l as [| |name offset]; try reflexivity.
  simpl. rewrite <- app_assoc, dec_enc_string. simpl.
  now rewrite dec_enc_Z.
Qed.

Lemma dec_enc_time t rest : codec.dec_time (codec.enc_time t ++ rest) = Some (t, rest).
Proof.
  unfold codec.dec_time, codec.enc_time.
  rewrite <- app_assoc, dec_enc_Z. simpl. rewrite dec_enc_loc. simpl.
  now destruct t.
Qed.

Lemma codec_round_trip_all p data :
  codec.Marshal p = inr data -> codec.Unmarshal data = inr p.
Proof.
  unfold codec.Marshal, codec.Unmarshal, codec.dec_paste.
  destruct (_ && _); [|discriminate]. intros [= <-].
  rewrite dec_enc_string. simpl. rewrite dec_enc_string. simpl.
  rewrite dec_enc_string. simpl. rewrite dec_enc_time. simpl.
  rewrite dec_enc_time. simpl. rewrite dec_enc_string. simpl.
  rewrite <- (app_nil_r (codec.enc_Z (Size p))), dec_enc_Z. simpl.
  now destruct p.
Qed.

(** The codec of the examples that coerces strings behaves as
    encoding/json is assumed to. *)
Lemma jsonlike_coerces : json_coerces jsonlike.Marshal jsonlike.Unmarshal.
Proof. intros p data _. apply codec_round_trip_all. Qed.

(** ** The expiry index mirrors the records of ids that are valid UTF-8 *)

Lemma filter_none {A : Type} (f : A -> bool) l :
  (forall y, In y l -> f y = false) -> List.filter f l = [].
Proof.
  induction l as [|a l IH]; simpl; auto. intros H.
  rewrite (H a) by auto. apply IH. auto.
Qed.

Lemma filter_single {A : Type} (f : A -> bool) l x :
  List.NoDup l -> In x l -> f x = true ->
  (forall y, In y l -> f y = true -> y = x) ->
  List.filter f l = [x].
Proof.
  induction 1 as [|a l Na Nl IH]; simpl; [contradiction|].
  intros [->|I] Fx U.
  - rewrite Fx. f_equal. apply filter_none. intros y Hy.
    destruct (f y) eqn:Fy; auto.
    rewrite (U y) in Hy by auto. contradiction.
  - destruct (f a) eqn:Fa.
    + rewrite (U a) in Na by auto. contradiction.
    + apply IH; auto.
Qed.

Lemma Get_mkdb json_Unmarshal ctx id pB eB :
  Get json_Unmarshal ctx id (mkdb pB eB) =
  match context.Err ctx with
  | Some err => (None, Some err)
  | None =>
      match bolt.lookup (bytes_of_string id) pB with
      | None => (None, Some ErrNotFound)
      | Some raw =>
          match json_Unmarshal raw with
          | inl err => (None, Some (fmt_Errorf_w "unmarshal paste" err))
          | inr paste => (Some paste, None)
          end
      end
  end.
Proof.
  unfold Get, bolt.View, mbind, bolt.Tx_bind.
  destruct (context.Err ctx); [reflexivity|].
  rewrite tx_Bucket_pastes. cbv beta iota. rewrite Bucket_Get_pastes.
  destruct (bolt.lookup _ pB) as [raw|]; [|reflexivity].
  now destruct (json_Unmarshal raw).
Qed.

Section IndexEntries.
Variable json_Unmarshal : bytes -> error + Paste.
Variables pB eB : bolt.Bucket.
Hypothesis C : consistent json_Unmarshal pB eB.

(** The entries that name a stored record: its own entry when it expires,
    none when it does not. *)
Lemma index_entries_record id raw p :
  bolt.lookup (bytes_of_string id) pB = Some raw -> json_Unmarshal raw = inr p ->
  index_entries id (mkdb pB eB) =
  if HasExpiration p
  then [(expireKey (ExpiresAt p) id, bytes_of_string id)]
  else [].
Proof.
  intros L Hp. unfold index_entries. rewrite expires_mkdb.
  destruct (pastes_decode _ _ _ C _ _ L) as (p' & Hp' & Hid).
  assert (p' = p) by congruence. subst p'. apply bytes_of_string_inj in Hid.
  subst id.
  assert (E : forall y, In y eB -> bytes_eqb (snd y) (bytes_of_string (ID p)) = true ->
              HasExpiration p = true /\
              y = (expireKey (ExpiresAt p) (ID p), bytes_of_string (ID p))).
  { intros [key v] I Hv. simpl in Hv. apply bytes_eqb_eq in Hv. subst v.
    destruct (entry_has_record _ _ _ C _ _ I) as (d & q & Hd & Hq & He & Hk).
    assert (q = p) by congruence. subst q. split; auto. congruence. }
  destruct (HasExpiration p) eqn:He.
  - apply filter_single.
    + apply ascending_NoDup, C.
    + apply lookup_In. eapply record_has_entry; eauto.
    + apply bytes_eqb_refl.
    + intros y I Hy. now apply E.
  - apply filter_none. intros y I.
    destruct (bytes_eqb y.2 (bytes_of_string (ID p))) eqn:Hy; auto.
    destruct (E y I Hy). discriminate.
Qed.

(** No entry names an id under which nothing is stored. *)
Lemma index_entries_absent id :
  bolt.lookup (bytes_of_string id) pB = None ->
  index_entries id (mkdb pB eB) = [].
Proof.
  intros L. unfold index_entries. rewrite expires_mkdb.
  apply filter_none. intros [key v] I. simpl.
  destruct (bytes_eqb v (bytes_of_string id)) eqn:Hv; auto.
  apply bytes_eqb_eq in Hv. subst v.
  destruct (entry_has_record _ _ _ C _ _ I) as (d & q & Hd & _). congruence.
Qed.

End IndexEntries.

(** X26.  The invariant of the expiry index, for ids that are valid
    UTF-8.  After every sequence of [Save], [Delete] and [DeleteExpired]
    on a new embedded store in which no record is saved under an id that
    is not valid UTF-8, whatever the other arguments and the outcomes: a
    stored record whose [ExpiresAt] is set has exactly one entry in the
    expiry index, the one keyed by its expiry and id; a stored record whose
    [ExpiresAt] is zero has none; and no entry names an id under which
    nothing is stored.  So an entry that an earlier [Save] of the id wrote
    for another expiry is gone. *)
Theorem expiry_index_consistent
  (json_Marshal : Paste -> error + bytes) (json_Unmarshal : bytes -> error + Paste) :
  json_coerces json_Marshal json_Unmarshal ->
  forall (ops : list op) (id : string),
    List.Forall utf8_op ops ->
    let s := run json_Marshal json_Unmarshal ops new_store in
    match Get json_Unmarshal context.Background id s with
    | (Some p, _) =>
        index_entries id s =
        if HasExpiration p
        then [(expireKey (ExpiresAt p) id, bytes_of_string id)]
        else []
    | (None, err) =>
        err = Some ErrNotFound /\ index_entries id s = []
    end.
Proof.
  intros RT ops id V s.
  destruct (store_ok_run json_Marshal json_Unmarshal RT ops new_store V
              (store_ok_new json_Unmarshal)) as (pB & eB & Hs & C).
  fold s in Hs. rewrite Hs, Get_mkdb. simpl context.Err. cbv iota.
  destruct (bolt.lookup (bytes_of_string id) pB) as [raw|] eqn:L.
  - destruct (pastes_decode _ _ _ C _ _ L) as (p & Hp & _). rewrite Hp.
    eapply index_entries_record; eauto.
  - split; auto. eapply index_entries_absent; eauto.
Qed.

(** The operations of scenario 3 file under an id that is valid UTF-8. *)
Lemma scenario_3_utf8 :
  List.Forall utf8_op
    [op_Save example.bg (Some example.c1);
     op_Save example.bg (Some example.c1_forever);
     op_DeleteExpired example.bg (time.Add example.now (2 * time.Hour))].
Proof. repeat constructor. Qed.

Lemma expiry_index_consistent_witness :
  json_coerces jsonlike.Marshal jsonlike.Unmarshal
  /\ List.Forall utf8_op
       [op_Save example.bg (Some example.c1);
        op_Save example.bg (Some example.c1_forever);
        op_DeleteExpired example.bg (time.Add example.now (2 * time.Hour))]
  /\ let s := run jsonlike.Marshal jsonlike.Unmarshal
                [op_Save example.bg (Some example.c1);
                 op_Save example.bg (Some example.c1_forever);
                 op_DeleteExpired example.bg (time.Add example.now (2 * time.Hour))]
                new_store in
     match Get jsonlike.Unmarshal context.Background "c1" s with
     | (Some p, _) =>
         index_entries "c1" s =
         if HasExpiration p
         then [(expireKey (ExpiresAt p) "c1", bytes_of_string "c1")]
         else []
     | (None, err) => err = Some ErrNotFound /\ index_entries "c1" s = []
     end.
Proof.
  split; [exact jsonlike_coerces|]. split; [exact scenario_3_utf8|].
  exact (expiry_index_consistent jsonlike.Marshal jsonlike.Unmarshal jsonlike_coerces
           [op_Save example.bg (Some example.c1);
            op_Save example.bg (Some example.c1_forever);
            op_DeleteExpired example.bg (time.Add example.now (2 * time.Hour))]
           "c1" scenario_3_utf8).
Defined.

(** ** Save, then Get, for an id that is valid UTF-8 *)

Lemma Put_check_ok key value :
  0 < Z.of_nat (length key) <= bolt.MaxKeySize ->
  Z.of_nat (length value) <= bolt.MaxValueSize ->
  bolt.Put_check key value = None.
Proof.
  intros Hk Hv. unfold bolt.Put_check.
  destruct (Z.eqb_spec (Z.of_nat (length key)) 0); [lia|].
  rewrite !Z.gtb_ltb.
  destruct (Z.ltb_spec bolt.MaxKeySize (Z.of_nat (length key))); [lia|].
  destruct (Z.ltb_spec bolt.MaxValueSize (Z.of_nat (length value))); [lia|].
  reflexivity.
Qed.

(** What [Save] does to the two buckets when the context is live and the
    backend can store the record. *)
Lemma Save_valid_mkdb
  (json_Marshal : Paste -> error + bytes) (json_Unmarshal : bytes -> error + Paste)
  (ctx : context.Context) (p : Paste) (pB eB : bolt.Bucket) :
  context.Err ctx = None -> valid json_Marshal p = true ->
  let q := normalize p in
  let id := bytes_of_string (ID p) in
  let eB1 := without_entry_of json_Unmarshal id pB eB in
  exists data,
    json_Marshal q = inr data
    /\ Save json_Marshal json_Unmarshal ctx (Some p) (mkdb pB eB)
       = (None,
          mkdb (bolt.insert id data pB)
            (if HasExpiration q
             then bolt.insert (expireKey (ExpiresAt q) (ID p)) id eB1
             else eB1),
          Some q).
Proof.
  intros Hctx Hv q id eB1.
  unfold valid in Hv. change (normalize p) with q in Hv.
  destruct (json_Marshal q) as [?|data] eqn:Hm; [discriminate|].
  apply andb_prop in Hv as [Hv Hk]. apply andb_prop in Hv as [Hv Hi].
  apply Z.leb_le in Hv, Hk. apply Z.ltb_lt in Hi.
  change (HasExpiration p) with (HasExpiration q) in Hk.
  assert (P1 : bolt.Put_check id data = None).
  { apply Put_check_ok; unfold id; rewrite ?length_bytes_of_string; auto.
    destruct (HasExpiration q); lia. }
  exists data. split; [reflexivity|].
  unfold Save. rewrite Hctx. change (set_ExpiresAt _ _) with q. rewrite Hm.
  unfold bolt.Update. rewrite Save_tx_mkdb. cbv zeta.
  change (ID q) with (ID p). fold id. rewrite P1. fold eB1.
  destruct (HasExpiration q) eqn:He; [|reflexivity].
  rewrite Put_check_ok; [reflexivity| |].
  - rewrite length_expireKey, Nat2Z.inj_add. change (Z.of_nat 8) with 8. lia.
  - unfold id. rewrite length_bytes_of_string.
    assert (bolt.MaxKeySize <= bolt.MaxValueSize) by (vm_compute; discriminate).
    lia.
Qed.

(** X27.  [Save], then [Get], for an id that is valid UTF-8.  On an
    embedded store reached by operations on such ids, [Save] of a non-nil
    record the backend can store, whose id is valid UTF-8, succeeds
    whatever is stored under its id, and [Get] of the id then returns the
    saved record with [CreatedAt] and [ExpiresAt] in UTC and its strings
    coerced to valid UTF-8: the record itself when its strings are valid
    UTF-8.  What is stored under the id is the encoding of this record
    alone, and the only index entry that names the id is the one of this
    record: no part of a record saved earlier under the id is left. *)
Theorem Save_Get_round_trip
  (json_Marshal : Paste -> error + bytes) (json_Unmarshal : bytes -> error + Paste) :
  json_coerces json_Marshal json_Unmarshal ->
  forall (ops : list op) (ctx ctx' : context.Context) (p : Paste),
    List.Forall utf8_op ops -> json.valid (ID p) ->
    context.Err ctx = None -> context.Err ctx' = None ->
    valid json_Marshal p = true ->
    let s := run json_Marshal json_Unmarshal ops new_store in
    let q := mkPaste (ID p) (Content p) (Syntax p) (time.UTC (CreatedAt p))
               (time.UTC (ExpiresAt p)) (PasswordHash p) (Size p) in
    exists s' data,
      Save json_Marshal json_Unmarshal ctx (Some p) s = (None, s', Some q)
      /\ Get json_Unmarshal ctx' (ID p) s' = (Some (json.coerced q), None)
      /\ (json.valid (Content p) -> json.valid (Syntax p) ->
          json.valid (PasswordHash p) -> json.coerced q = q)
      /\ json_Marshal q = inr data
      /\ raw_record (ID p) s' = Some data
      /\ index_entries (ID p) s' =
         if HasExpiration q
         then [(expireKey (ExpiresAt q) (ID p), bytes_of_string (ID p))]
         else [].
Proof.
  intros RT ops ctx ctx' p V Vid Hctx Hctx' Hv s q.
  destruct (store_ok_run json_Marshal json_Unmarshal RT ops new_store V
              (store_ok_new json_Unmarshal)) as (pB & eB & Hs & C).
  fold s in Hs. rewrite Hs. clear Hs s.
  destruct (Save_valid_mkdb json_Marshal json_Unmarshal ctx p pB eB Hctx Hv)
    as (data & Hm & Sv).
  change (normalize p) with q in Hm, Sv.
  pose proof (consistent_save json_Marshal json_Unmarshal RT pB eB q data C
                (normalized_normalize p) Vid Hm) as S.
  change (ID q) with (ID p) in S.
  pose proof (RT _ _ (normalized_normalize p) Hm) as Hu.
  change (normalize p) with q in Hu.
  eexists _, data. split; [exact Sv|].
  split; [|split; [|split; [exact Hm|split]]].
  - rewrite Get_mkdb, Hctx', lookup_insert_eq. now rewrite Hu.
  - intros Vc Vs Vp. unfold json.coerced, q.
    cbn [ID Content Syntax PasswordHash CreatedAt ExpiresAt Size].
    unfold json.valid in *. now rewrite Vid, Vc, Vs, Vp.
  - unfold raw_record. rewrite pastes_mkdb. apply lookup_insert_eq.
  - assert (L : bolt.lookup (bytes_of_string (ID p))
                  (bolt.insert (bytes_of_string (ID p)) data pB) = Some data)
      by apply lookup_insert_eq.
    apply (index_entries_record json_Unmarshal _ _ S (ID p) data (json.coerced q) L Hu).
Qed.

(** A record saved over the one of scenario 3. *)
Lemma Save_Get_round_trip_witness :
  json_coerces jsonlike.Marshal jsonlike.Unmarshal
  /\ List.Forall utf8_op [op_Save example.bg (Some example.c1)]
  /\ json.valid (ID example.c1_forever)
  /\ context.Err example.bg = None
  /\ valid jsonlike.Marshal example.c1_forever = true
  /\ let s := run jsonlike.Marshal jsonlike.Unmarshal
                [op_Save example.bg (Some example.c1)] new_store in
     exists s' data,
       Save jsonlike.Marshal jsonlike.Unmarshal example.bg (Some example.c1_forever) s
       = (None, s', Some example.c1_forever)
       /\ Get jsonlike.Unmarshal example.bg "c1" s' = (Some example.c1_forever, None)
       /\ raw_record "c1" s' = Some data
       /\ index_entries "c1" s' = [].
Proof.
  assert (V : List.Forall utf8_op [op_Save example.bg (Some example.c1)])
    by (repeat constructor).
  assert (Vid : json.valid (ID example.c1_forever)) by reflexivity.
  assert (Hv : valid jsonlike.Marshal example.c1_forever = true)
    by (vm_compute; reflexivity).
  split; [exact jsonlike_coerces|]. split; [exact V|]. split; [exact Vid|].
  split; [reflexivity|]. split; [exact Hv|].
  destruct (Save_Get_round_trip jsonlike.Marshal jsonlike.Unmarshal jsonlike_coerces
              [op_Save example.bg (Some example.c1)] example.bg example.bg
              example.c1_forever V Vid eq_refl eq_refl Hv)
    as (s' & data & Sv & G & _ & _ & R & I).
  exists s', data. split; [exact Sv|]. split; [exact G|]. split; [exact R|exact I].
Defined.

(** ** Delete of an id that is not stored (C6) *)

(** C6.  In both backends, [Delete] of an id under which no record is
    stored leaves the whole state of the store as it was, primary table and
    index alike, and fails; the error is [ErrNotFound] unless the context
    was already done when the call was made, in which case it is the
    error of the context.  In the embedded backend the record is looked up
    before anything is written. *)
Theorem Delete_missing_not_found
  (json_Unmarshal : bytes -> error + Paste) (ctx : context.Context) (id : string) :
  (forall s : boltstore.Store,
      initialized s -> raw_record id s = None ->
      (boltstore.Delete json_Unmarshal ctx id s).2 = s
      /\ (boltstore.Delete json_Unmarshal ctx id s).1 =
         match context.Err ctx with
         | None => Some ErrNotFound
         | Some err => Some err
         end)
  /\ (forall t : sqlitestore.Store,
      t !! id = None ->
      (sqlitestore.Delete ctx id t).2 = t
      /\ (sqlitestore.Delete ctx id t).1 =
         match context.Err ctx with
         | None => Some ErrNotFound
         | Some err => Some (fmt_Errorf_w "delete paste" err)
         end).
Proof.
  split.
  - intros s [Hp He]. unfold raw_record, pastes.
    unfold boltstore.Delete. destruct (context.Err ctx); [auto|].
    unfold bolt.Update, mbind, bolt.Tx_bind, bolt.tx_Bucket, bolt.Bucket_Get.
    destruct (bolt.lookup pasteBucket s) as [pB|] eqn:Ep; [|contradiction].
    destruct (bolt.lookup expireBucket s) as [eB|] eqn:Ee; [|contradiction].
    intros Hn. cbv beta iota. rewrite Ep, Hn. auto.
  - intros t Hn. unfold sqlitestore.Delete, sqlitestore.ExecContext.
    destruct (context.Err ctx); [auto|].
    unfold sqlitestore.stmt_delete. rewrite Hn. simpl.
    now rewrite delete_id.
Qed.

Lemma Delete_missing_not_found_witness :
  (initialized new_store /\ raw_record "nope" new_store = None
   /\ (boltstore.Delete codec.Unmarshal example.bg "nope" new_store).2 = new_store
   /\ (boltstore.Delete codec.Unmarshal example.bg "nope" new_store).1
      = Some ErrNotFound)
  /\ ((∅ : sqlitestore.Store) !! "nope" = None
      /\ (sqlitestore.Delete example.bg "nope" ∅).2 = ∅
      /\ (sqlitestore.Delete example.bg "nope" ∅).1 = Some ErrNotFound).
Proof.
  destruct (Delete_missing_not_found codec.Unmarshal example.bg "nope") as [B S].
  split.
  - assert (I : initialized new_store) by (split; discriminate).
    split; [exact I|]. split; [reflexivity|].
    exact (B new_store I eq_refl).
  - split; [apply lookup_empty|]. exact (S ∅ (lookup_empty _)).
Defined.

(** ** Save of a nil record (C7) *)

(** C7.  In both backends [Save] of a nil record fails with the error
    "paste is nil" (the invalid-argument error of the contract: it is not
    [ErrNotFound] and wraps no error of the engine), whatever the context,
    and the store is left as it was. *)
Theorem Save_nil_rejected
  (json_Marshal : Paste -> error + bytes) (json_Unmarshal : bytes -> error + Paste)
  (ctx : context.Context) (s : boltstore.Store) (t : sqlitestore.Store) :
  boltstore.Save json_Marshal json_Unmarshal ctx None s
  = (Some (errors_New "paste is nil"), s, None)
  /\ sqlitestore.Save ctx None t = (Some (errors_New "paste is nil"), t, None)
  /\ errors_Is (errors_New "paste is nil") ErrNotFound = false.
Proof. repeat split. Qed.

(** ** Save writes through its argument (C10) *)

(** The claim as stated fails in the embedded backend: with a context that
    is already cancelled [Save] returns before it touches the record. *)
Lemma Save_cancelled_leaves_argument :
  (boltstore.Save codec.Marshal codec.Unmarshal context.Cancelled
     (Some example.local) new_store).2
  <> Some (normalize example.local).
Proof. vm_compute. discriminate. Qed.

(** C10, amended.  [Save] of a non-nil record writes through its argument:
    when it returns, with or without an error, the caller's record has
    [CreatedAt] and [ExpiresAt] replaced by their UTC equivalents and every
    other field as it was -- in the relational backend always, in the
    embedded backend whenever the context was not already done at the
    call; if it was, the embedded backend returns the context's error and
    leaves the record untouched. *)
Theorem Save_normalizes_argument
  (json_Marshal : Paste -> error + bytes) (json_Unmarshal : bytes -> error + Paste)
  (ctx : context.Context) (p : Paste) (s : boltstore.Store) (t : sqlitestore.Store) :
  let q := mkPaste (ID p) (Content p) (Syntax p) (time.UTC (CreatedAt p))
             (time.UTC (ExpiresAt p)) (PasswordHash p) (Size p) in
  (sqlitestore.Save ctx (Some p) t).2 = Some q
  /\ match context.Err ctx with
     | None =>
         (boltstore.Save json_Marshal json_Unmarshal ctx (Some p) s).2 = Some q
     | Some err =>
         boltstore.Save json_Marshal json_Unmarshal ctx (Some p) s
         = (Some err, s, Some p)
     end.
Proof.
  intros q. split.
  - unfold sqlitestore.Save. now destruct (sqlitestore.ExecContext _ _ _) as [[?|?] ?].
  - unfold boltstore.Save. destruct (context.Err ctx); [reflexivity|].
    destruct (json_Marshal _); [reflexivity|].
    now destruct (bolt.Update _ _) as [[?|?] ?].
Qed.

(** ** The janitor (C8, C9) *)

Section JanitorFacts.
Context {S : Type} `{storage.Store S}.
Import httpserver.

(** What one tick adds to the log, when the sweep of the store returns. *)
Lemma cleanOnce_returns ctx now (store : S) (logger : option Logger)
  removed err store' :
  storage.DeleteExpired (context.WithTimeout ctx cleanOnce_timeout) now store
  = (removed, err, store') ->
  (forall m, err <> Some (runtime_panic m)) ->
  let output :=
    match err with
    | Some e => [mkRecord LevelError "janitor error" (attr_error "error" e)]
    | None =>
        if removed >? 0
        then [mkRecord LevelInfo "janitor removed expired pastes"
                (attr_int "count" removed)]
        else []
    end in
  cleanOnce ctx now store logger =
  Returns (store', match logger with
                   | Some records => Some (records ++ output)%list
                   | None => None
                   end).
Proof.
  intros E NP. unfold cleanOnce. rewrite E.
  destruct err as [e|].
  - destruct e as [| | | | | | | | |m]; try (now destruct logger).
    now contradiction (NP m).
  - destruct (removed >? 0), logger as [records|]; simpl; auto.
    now rewrite app_nil_r.
Qed.

(** C8.  A tick of the janitor returns and never panics, for every store
    whose sweep returns, whatever it returns, and for every logger, nil
    included.  When [DeleteExpired] fails the error goes to the logger if
    there is one and nowhere else; when it succeeds a record is logged only
    if the count is positive (and there is a logger).  The loop then takes
    the next event, after a failed sweep as after a successful one, and it
    never stops with a panic. *)
Theorem janitor_tick_never_fails ctx now (store : S) (logger : option Logger)
  (events : list event) removed err store' :
  storage.DeleteExpired (context.WithTimeout ctx cleanOnce_timeout) now store
  = (removed, err, store') ->
  (forall c n st m, (storage.DeleteExpired c n st).1.2 <> Some (runtime_panic m)) ->
  let output :=
    match err with
    | Some e => [mkRecord LevelError "janitor error" (attr_error "error" e)]
    | None =>
        if removed >? 0
        then [mkRecord LevelInfo "janitor removed expired pastes"
                (attr_int "count" removed)]
        else []
    end in
  let logger' :=
    match logger with
    | Some records => Some (records ++ output)%list
    | None => None
    end in
  cleanOnce ctx now store logger = Returns (store', logger')
  /\ janitor_loop (ticker_C ctx now :: events) store logger
     = janitor_loop events store' logger'
  /\ exists result, janitor_loop (ticker_C ctx now :: events) store logger
                    = Returns result.
Proof.
  intros E NP output logger'.
  assert (NP0 : forall m, err <> Some (runtime_panic m)).
  { intros m. specialize (NP (context.WithTimeout ctx cleanOnce_timeout) now store m).
    now rewrite E in NP. }
  pose proof (cleanOnce_returns ctx now store logger _ _ _ E NP0) as R.
  cbv zeta in R. fold output in R. fold logger' in R.
  split; [exact R|]. split.
  - cbn [janitor_loop]. now rewrite R.
  - cbn [janitor_loop]. rewrite R.
    generalize logger' as lg. generalize store' as st. clear - NP.
    induction events as [|[c n|] events IH]; intros st lg; simpl; eauto.
    destruct (storage.DeleteExpired (context.WithTimeout c cleanOnce_timeout) n st)
      as [[removed1 err1] st1] eqn:E.
    assert (NP1 : forall m, err1 <> Some (runtime_panic m)).
    { intros m. specialize (NP (context.WithTimeout c cleanOnce_timeout) n st m).
      now rewrite E in NP. }
    pose proof (cleanOnce_returns c n st lg _ _ _ E NP1) as R.
    cbv zeta in R. rewrite R. apply IH.
Qed.

End JanitorFacts.

(** The sweep of the relational backend never panics. *)
Lemma sqlite_DeleteExpired_returns c n (st : sqlitestore.Store) m :
  (storage.DeleteExpired c n st).1.2 <> Some (runtime_panic m).
Proof.
  simpl. unfold sqlitestore.DeleteExpired.
  destruct (sqlitestore.ExecContext _ _ _) as [[e|rows] st']; simpl; discriminate.
Qed.

Lemma janitor_tick_never_fails_witness :
  let logger := Some [] in
  let err := fmt_Errorf_w "delete expired" context_Canceled in
  let logger' :=
    Some [httpserver.mkRecord httpserver.LevelError "janitor error"
            (httpserver.attr_error "error" err)] in
  let events := [httpserver.ticker_C example.bg example.now; httpserver.ctx_Done] in
  storage.DeleteExpired
    (context.WithTimeout context.Cancelled httpserver.cleanOnce_timeout)
    example.now (∅ : sqlitestore.Store) = (0, Some err, ∅)
  /\ (forall c n (st : sqlitestore.Store) m,
        (storage.DeleteExpired c n st).1.2 <> Some (runtime_panic m))
  /\ httpserver.cleanOnce context.Cancelled example.now (∅ : sqlitestore.Store) logger
     = httpserver.Returns (∅, logger')
  /\ httpserver.janitor_loop
       (httpserver.ticker_C context.Cancelled example.now :: events) ∅ logger
     = httpserver.janitor_loop events ∅ logger'
  /\ exists result,
       httpserver.janitor_loop
         (httpserver.ticker_C context.Cancelled example.now :: events) ∅ logger
       = httpserver.Returns result.
Proof.
  intros logger err logger' events.
  split; [reflexivity|]. split; [exact sqlite_DeleteExpired_returns|].
  exact (janitor_tick_never_fails (S := sqlitestore.Store) context.Cancelled
           example.now ∅ logger events 0 (Some err) ∅ eq_refl
           sqlite_DeleteExpired_returns).
Defined.

(** The claim as stated fails: with an interval of one second the ticker
    fires every second and a sweep may take five. *)
Lemma timeout_exceeds_short_interval :
  ~ (httpserver.cleanOnce_timeout
     < (httpserver.StartJanitor (S := sqlitestore.Store) ∅ time.Second None []).1).
Proof. vm_compute. discriminate. Qed.

(** What a tick leaves in the store that records the calls: the context
    [cleanOnce] derived, after the earlier ones; the log is untouched. *)
Lemma cleanOnce_probe ctx now (calls : probe.Store) (logger : option httpserver.Logger) :
  httpserver.cleanOnce (H := probe.probe_Store) ctx now calls logger
  = httpserver.Returns
      ((calls ++ [context.WithTimeout ctx httpserver.cleanOnce_timeout])%list, logger).
Proof.
  unfold httpserver.cleanOnce. cbn [storage.DeleteExpired probe.probe_Store].
  cbv zeta iota. now destruct logger.
Qed.

Lemma janitor_loop_probe events : forall (calls : probe.Store) logger,
  httpserver.janitor_loop (H := probe.probe_Store) events calls logger
  = httpserver.Returns
      ((calls ++ List.map (fun ctx => context.WithTimeout ctx httpserver.cleanOnce_timeout)
                   (probe.ticks events))%list, logger).
Proof.
  induction events as [|[ctx now|] events IH]; intros calls logger;
    cbn [httpserver.janitor_loop probe.ticks List.map].
  - now rewrite app_nil_r.
  - rewrite cleanOnce_probe, IH, <- List.app_assoc. reflexivity.
  - now rewrite app_nil_r.
Qed.

(** C9, amended.  Whatever interval [StartJanitor] is given and whatever
    the ticks, each call of [DeleteExpired] the janitor makes gets the
    context of that tick under [context.WithTimeout] of five seconds: its
    timeout is at most five seconds, and exactly five when the janitor's
    own context has no deadline; the interval plays no part in it.  Five
    seconds are strictly shorter than the interval the ticker fires on
    exactly when the interval argument is not positive, so that the ticker
    fires every minute, or is longer than five seconds. *)
Theorem sweep_timeout_vs_interval (interval : time.Duration)
  (logger : option httpserver.Logger) (events : list httpserver.event) :
  let started :=
    httpserver.StartJanitor (H := probe.probe_Store) [] interval logger events in
  exists calls : list context.Context,
    started.2 = httpserver.Returns (calls, logger)
    /\ calls = List.map (fun ctx => context.WithTimeout ctx (5 * time.Second))
                 (probe.ticks events)
    /\ (forall c, In c calls ->
        exists d, context.timeout c = Some d /\ d <= 5 * time.Second)
    /\ ((forall ctx, In ctx (probe.ticks events) -> context.timeout ctx = None) ->
        forall c, In c calls -> context.timeout c = Some (5 * time.Second))
    /\ (5 * time.Second < started.1 <-> interval <= 0 \/ 5 * time.Second < interval).
Proof.
  intros started. eexists. split; [|split; [reflexivity|split; [|split]]].
  - unfold started, httpserver.StartJanitor. cbn [snd].
    now rewrite janitor_loop_probe.
  - intros c I. apply in_map_iff in I as (ctx & <- & _).
    unfold context.WithTimeout. cbn [context.timeout].
    destruct (context.timeout ctx) as [remaining|]; eexists; split;
      try reflexivity; lia.
  - intros N c I. apply in_map_iff in I as (ctx & <- & I).
    unfold context.WithTimeout. cbn [context.timeout]. now rewrite (N ctx I).
  - unfold started, httpserver.StartJanitor. cbn [fst].
    destruct (Z.leb_spec interval 0);
      unfold time.Minute, time.Second, time.Nanosecond in *; lia.
Qed.

(** ** The order of the index and the sweep (C2, C3, C5) *)

(** Between the Unix epoch and the end of the 64-bit nanosecond range the
    keys of the index are ordered as their timestamps are, and keys of one
    timestamp as their ids. *)
Lemma expireKey_order_in_range t1 id1 t2 id2 :
  in_range t1 -> in_range t2 -> time.Before t1 t2 = true ->
  bytes_Compare (expireKey t1 id1) (expireKey t2 id2) = Lt.
Proof.
  intros R1 R2 B. rewrite expireKey_compare, !toTimestamp_in_range by assumption.
  unfold time.Before in B. apply Z.ltb_lt in B.
  unfold time.unix_ns.
  assert (C : (time.instant t1 - time.unixToInternal * 1000000000
               ?= time.instant t2 - time.unixToInternal * 1000000000) = Lt)
    by (apply Z.compare_lt_iff; lia).
  now rewrite C.
Qed.

Lemma expireKey_order_same_time t id1 id2 :
  bytes_Compare (expireKey t id1) (expireKey t id2)
  = bytes_Compare (bytes_of_string id1) (bytes_of_string id2).
Proof. now rewrite expireKey_compare, Z.compare_refl. Qed.

Lemma toTimestamp_UTC t : toTimestamp (time.UTC t) = toTimestamp t.
Proof. reflexivity. Qed.

(** In that range comparing timestamps of the index is comparing times. *)
Lemma toTimestamp_le_in_range t before :
  in_range t -> in_range before ->
  (toTimestamp t <=? toTimestamp before) = negb (time.After t before).
Proof.
  intros R1 R2. rewrite !toTimestamp_in_range by assumption.
  unfold time.After, time.unix_ns.
  destruct (Z.leb_spec (time.instant t - time.unixToInternal * 1000000000)
              (time.instant before - time.unixToInternal * 1000000000));
    destruct (Z.ltb_spec (time.instant before) (time.instant t)); simpl; auto; lia.
Qed.

Section Sweep.
Variable json_Unmarshal : bytes -> error + Paste.
#[local] Abbreviation consistent := (consistent json_Unmarshal).

#[local] Abbreviation due := (due json_Unmarshal).

Lemma length_remove_present {V : Type} k (v : V) t :
  ascending t -> bolt.lookup k t = Some v ->
  length t = Datatypes.S (length (bolt.remove k t)).
Proof.
  induction t as [|[k0 v0] t IH]; simpl bolt.lookup; [discriminate|]. intros A.
  destruct (bytes_eqb k0 k) eqn:E.
  - apply bytes_eqb_eq in E. subst k0. intros _. now rewrite remove_head.
  - intros L.
    change (bolt.remove k ((k0, v0) :: t))
      with (if negb (bytes_eqb k0 k) then (k0, v0) :: bolt.remove k t
            else bolt.remove k t).
    rewrite E. simpl. f_equal. apply IH; auto. eapply ascending_tail; eauto.
Qed.

(** Every entry the cursor has still to visit is at or after the one it
    is at. *)
Lemma entries_after_head pB key val cursor kv :
  consistent pB ((key, val) :: cursor) -> In kv ((key, val) :: cursor) ->
  be_value (firstn 8 key) <= be_value (firstn 8 kv.1).
Proof.
  intros C [<-|I]; [simpl; lia|].
  assert (L : forall k v, In (k, v) ((key, val) :: cursor) -> (8 <= length k)%nat).
  { intros k v Hk.
    destruct (entry_has_record _ _ _ C _ _ Hk) as (d & p & _ & _ & _ & ->).
    rewrite length_expireKey. lia. }
  destruct kv as [k v]. apply key_order_timestamps.
  - eapply L. now left.
  - eapply L. right. exact I.
  - exact (ascending_lt _ _ _ _ (expires_ascending _ _ _ C) I).
Qed.

(** What the loop leaves: the records that were not due, an index whose
    first entry, if any, is after the cutoff, and the count of the records
    it took. *)
Lemma swept_spec cutoff cursor : forall pB removed,
  consistent pB cursor ->
  exists n pB' eB',
    swept cutoff pB cursor removed = Some (n, pB', eB')
    /\ consistent pB' eB'
    /\ (forall k, bolt.lookup k pB' =
                  match bolt.lookup k pB with
                  | Some d => if due cutoff d then None else Some d
                  | None => None
                  end)
    /\ n = removed + Z.of_nat (length pB) - Z.of_nat (length pB')
    /\ swept cutoff pB' eB' 0 = Some (0, pB', eB')
    /\ (forall cutoff', cutoff' <= cutoff -> swept cutoff' pB' eB' 0 = Some (0, pB', eB')).
Proof.
  induction cursor as [|[key val] cursor IH]; intros pB removed C.
  - exists removed, pB, []. simpl.
    split; [reflexivity|]. split; [exact C|]. split; [|split; [lia|split; auto]].
    intros k. destruct (bolt.lookup k pB) as [d|] eqn:L; auto.
    unfold due. destruct (json_Unmarshal d) as [?|p] eqn:Hp; auto.
    destruct (HasExpiration p) eqn:He; auto.
    pose proof (record_has_entry _ _ _ C _ _ _ L Hp He). discriminate.
  - cbn [swept].
    destruct (entry_has_record _ _ _ C key val (or_introl eq_refl))
      as (d & p & Hd & Hp & He & Hk).
    assert (Hts : be_value (firstn 8 key) = toTimestamp (ExpiresAt p))
      by (rewrite Hk; apply expireKey_timestamp).
    assert (Hlen : (8 <= length key)%nat)
      by (subst key; rewrite length_expireKey; lia).
    rewrite Uint64_slice by exact Hlen.
    rewrite Z.gtb_ltb.
    destruct (Z.ltb_spec cutoff (be_value (firstn 8 key))) as [Late|Due].
    + assert (Stop : forall cutoff', cutoff' <= cutoff ->
                swept cutoff' pB ((key, val) :: cursor) 0
                = Some (0, pB, (key, val) :: cursor)).
      { intros cutoff' Hc. cbn [swept]. rewrite Uint64_slice by exact Hlen.
        rewrite Z.gtb_ltb.
        destruct (Z.ltb_spec cutoff' (be_value (firstn 8 key))); auto. lia. }
      exists removed, pB, ((key, val) :: cursor).
      split; [reflexivity|]. split; [exact C|].
      split; [|split; [lia|split; [apply Stop; lia|exact Stop]]].
      intros k. destruct (bolt.lookup k pB) as [d'|] eqn:L; auto.
      unfold due. destruct (json_Unmarshal d') as [?|p'] eqn:Hp'; auto.
      destruct (HasExpiration p') eqn:He'; auto. simpl.
      pose proof (record_has_entry _ _ _ C _ _ _ L Hp' He') as E.
      apply lookup_In in E.
      pose proof (entries_after_head _ _ _ _ _ C E) as O. cbn [fst] in O.
      rewrite expireKey_timestamp in O.
      destruct (Z.leb_spec (toTimestamp (ExpiresAt p')) cutoff); auto. lia.
    + pose proof (consistent_drop json_Unmarshal pB _ val C) as D.
      unfold boltspec.without_entry_of in D. rewrite Hd, Hp, He, <- Hk in D.
      rewrite remove_head in D by apply C.
      destruct (IH (bolt.remove val pB) (removed + 1) D)
        as (n & pB' & eB' & Hs & C' & Hl & Hn & Hi & Hi').
      exists n, pB', eB'.
      split; [exact Hs|]. split; [exact C'|].
      split; [|split; [|split; [exact Hi|exact Hi']]].
      * intros k. rewrite Hl.
        destruct (bytes_eq_dec val k) as [<-|N].
        -- rewrite lookup_remove_eq, Hd. unfold due. rewrite Hp, He. simpl.
           destruct (Z.leb_spec (toTimestamp (ExpiresAt p)) cutoff); auto. lia.
        -- now rewrite lookup_remove_ne.
      * rewrite Hn.
        rewrite (length_remove_present val d pB (pastes_ascending _ _ _ C) Hd). lia.
Qed.

End Sweep.

(** X17.  The sweep of the embedded backend, in the timestamps of the
    index.  On a store reached by operations that save no record under an
    id that is not valid UTF-8, [DeleteExpired] succeeds; it takes exactly
    the records that expire and whose timestamp is not after that of the
    cutoff, and returns how many records it took; a second sweep whose
    cutoff has no later timestamp takes nothing and leaves the store as it
    is. *)
Lemma DeleteExpired_by_timestamp
  (json_Marshal : Paste -> error + bytes) (json_Unmarshal : bytes -> error + Paste) :
  json_coerces json_Marshal json_Unmarshal ->
  forall (ops : list op) (ctx : context.Context) (before : time.Time),
    List.Forall utf8_op ops ->
    context.Err ctx = None ->
    let s := run json_Marshal json_Unmarshal ops new_store in
    exists n s',
      DeleteExpired ctx before s = (n, None, s')
      /\ (forall id, raw_record id s' =
                     match raw_record id s with
                     | Some d => if due json_Unmarshal (toTimestamp before) d
                                 then None else Some d
                     | None => None
                     end)
      /\ n = Z.of_nat (length (pastes s)) - Z.of_nat (length (pastes s'))
      /\ (forall ctx' before',
            context.Err ctx' = None ->
            toTimestamp before' <= toTimestamp before ->
            DeleteExpired ctx' before' s' = (0, None, s')).
Proof.
  intros RT ops ctx before V Hctx s.
  destruct (store_ok_run json_Marshal json_Unmarshal RT ops new_store V
              (store_ok_new json_Unmarshal)) as (pB & eB & Hs & C).
  fold s in Hs. rewrite Hs. clear Hs s.
  destruct (swept_spec json_Unmarshal (toTimestamp before) eB pB 0 C)
    as (n & pB' & eB' & Hsw & C' & Hl & Hn & _ & Hi).
  exists n, (mkdb pB' eB').
  split; [|split; [|split]].
  - rewrite DeleteExpired_mkdb, Hctx, toTimestamp_UTC, Hsw by apply C. reflexivity.
  - intros id. unfold raw_record. rewrite !pastes_mkdb. apply Hl.
  - rewrite !pastes_mkdb. lia.
  - intros ctx' before' Hctx' Hb.
    rewrite DeleteExpired_mkdb, Hctx', toTimestamp_UTC, Hi by (auto; apply C').
    reflexivity.
Qed.

(** ** The relational backend *)

Lemma expired_UTC before r :
  sqlitestore.expired (time.UTC before) r = sqlitestore.expired before r.
Proof. reflexivity. Qed.

(** The statement of the relational backend as the model has it: it
    takes exactly the rows whose [expires_at] is set and not after the
    cutoff, returns how many it took, and a second sweep with a cutoff
    that is not later takes nothing. *)
Lemma sqlite_DeleteExpired_spec (ctx : context.Context) (before : time.Time)
  (t : sqlitestore.Store) :
  context.Err ctx = None ->
  exists n t',
    sqlitestore.DeleteExpired ctx before t = (n, None, t')
    /\ (forall id, t' !! id =
                   match t !! id with
                   | Some r => if sqlitestore.expired before r then None else Some r
                   | None => None
                   end)
    /\ n = Z.of_nat (size t) - Z.of_nat (size t')
    /\ (forall ctx' before',
          context.Err ctx' = None -> time.After before' before = false ->
          sqlitestore.DeleteExpired ctx' before' t' = (0, None, t')).
Proof.
  intros Hctx.
  unfold sqlitestore.DeleteExpired, sqlitestore.ExecContext, sqlitestore.stmt_delete_expired.
  rewrite Hctx. eexists _, _. split; [reflexivity|].
  split; [|split].
  - intros id. rewrite map_lookup_filter.
    destruct (t !! id) as [r|]; simpl; auto.
    rewrite expired_UTC. destruct (sqlitestore.expired before r); simpl; auto.
  - rewrite <- (map_filter_union_complement
                  (fun kv : string * sqlitestore.Row =>
                     sqlitestore.expired (time.UTC before) kv.2 = true) t) at 2.
    rewrite map_size_disj_union by apply map_disjoint_filter_complement.
    assert (F : filter (fun kv : string * sqlitestore.Row =>
                          ¬ sqlitestore.expired (time.UTC before) kv.2 = true) t
                = filter (fun kv : string * sqlitestore.Row =>
                            sqlitestore.expired (time.UTC before) kv.2 = false) t).
    { apply map_filter_ext. intros i x _. simpl.
      destruct (sqlitestore.expired _ x); intuition congruence. }
    rewrite F. lia.
  - intros ctx' before' Hctx' Hb. rewrite Hctx'.
    set (t' := filter _ t).
    assert (K : forall i x, t' !! i = Some x ->
                  sqlitestore.expired (time.UTC before') x = false).
    { intros i x Hx. apply map_lookup_filter_Some in Hx as [_ Hx]. simpl in Hx.
      unfold sqlitestore.expired, time.After in *. simpl in *.
      destruct (sqlitestore.expires_at x) as [e|]; auto.
      apply Z.ltb_ge in Hb. apply negb_false_iff, Z.ltb_lt in Hx.
      apply negb_false_iff, Z.ltb_lt. lia. }
    assert (E1 : filter (fun kv : string * sqlitestore.Row =>
                   sqlitestore.expired (time.UTC before') kv.2 = true) t' = ∅).
    { apply map_empty_filter. intros i x Hx. simpl. rewrite (K i x Hx). discriminate. }
    assert (E2 : filter (fun kv : string * sqlitestore.Row =>
                   sqlitestore.expired (time.UTC before') kv.2 = false) t' = t').
    { apply map_filter_id. intros i x Hx. simpl. apply (K i x Hx). }
    rewrite E1, E2, map_size_empty. reflexivity.
Qed.

(** Inside the range of the index a record is due exactly when it expires
    and its expiry is not after the cutoff. *)
Lemma due_in_range (json_Unmarshal : bytes -> error + Paste) before d p :
  json_Unmarshal d = inr p -> in_range (ExpiresAt p) -> in_range before ->
  due json_Unmarshal (toTimestamp before) d
  = HasExpiration p && negb (time.After (ExpiresAt p) before).
Proof.
  intros Hp R1 R2. unfold due. rewrite Hp.
  now rewrite toTimestamp_le_in_range.
Qed.

(** X19.  The sweep of the embedded backend, in times, on a store
    reached by operations that save no record under an id that is not
    valid UTF-8.  A record that does not expire is never taken, whatever
    the cutoff; with a cutoff in the range of the index, a record whose
    expiry is in that range is taken exactly when the expiry is not after
    the cutoff; and the count is the number of records taken. *)
Lemma DeleteExpired_since_epoch
  (json_Marshal : Paste -> error + bytes) (json_Unmarshal : bytes -> error + Paste) :
  json_coerces json_Marshal json_Unmarshal ->
  forall (ops : list op) (ctx : context.Context) (before : time.Time),
    List.Forall utf8_op ops ->
    context.Err ctx = None ->
    let s := run json_Marshal json_Unmarshal ops new_store in
    exists n s',
      DeleteExpired ctx before s = (n, None, s')
      /\ n = Z.of_nat (length (pastes s)) - Z.of_nat (length (pastes s'))
      /\ (forall id, Get json_Unmarshal context.Background id s = (None, Some ErrNotFound) ->
                     Get json_Unmarshal context.Background id s' = (None, Some ErrNotFound))
      /\ (forall id p,
            Get json_Unmarshal context.Background id s = (Some p, None) ->
            (HasExpiration p = false ->
             Get json_Unmarshal context.Background id s' = (Some p, None))
            /\ (HasExpiration p = true -> in_range (ExpiresAt p) -> in_range before ->
                Get json_Unmarshal context.Background id s' =
                if time.After (ExpiresAt p) before
                then (Some p, None) else (None, Some ErrNotFound))).
Proof.
  intros RT ops ctx before V Hctx s.
  destruct (store_ok_run json_Marshal json_Unmarshal RT ops new_store V
              (store_ok_new json_Unmarshal)) as (pB & eB & Hs & C).
  fold s in Hs. rewrite Hs. clear Hs s.
  destruct (swept_spec json_Unmarshal (toTimestamp before) eB pB 0 C)
    as (n & pB' & eB' & Hsw & C' & Hl & Hn & _).
  exists n, (mkdb pB' eB').
  split; [|split; [|split]].
  - rewrite DeleteExpired_mkdb, Hctx, toTimestamp_UTC, Hsw by apply C. reflexivity.
  - rewrite !pastes_mkdb. lia.
  - intros id. rewrite !Get_mkdb. simpl context.Err. cbv iota. rewrite Hl.
    destruct (bolt.lookup (bytes_of_string id) pB) as [d|]; auto.
    destruct (json_Unmarshal d); discriminate.
  - intros id p. rewrite !Get_mkdb. simpl context.Err. cbv iota. rewrite Hl.
    destruct (bolt.lookup (bytes_of_string id) pB) as [d|]; [|discriminate].
    destruct (json_Unmarshal d) as [?|p'] eqn:Hp; [discriminate|].
    intros [= ->]. split.
    + intros He. unfold due. rewrite Hp, He. simpl. now rewrite Hp.
    + intros He R1 R2. rewrite (due_in_range _ _ _ _ Hp R1 R2), He. simpl.
      destruct (time.After (ExpiresAt p) before); simpl; auto. now rewrite Hp.
Qed.

(** ** Timestamps before the Unix epoch *)

(** C3, on the code.  A timestamp before the Unix epoch is counted as an
    unsigned number, hence as one of the largest: the key of an expiry one
    second before the epoch sorts after the key of an expiry one second
    after it, although the first time is strictly earlier. *)
Theorem expireKey_before_epoch_sorts_last :
  time.Before example.before_epoch example.after_epoch = true
  /\ time.IsZero example.before_epoch = false
  /\ toTimestamp example.before_epoch = 2 ^ 64 - 1000000000
  /\ toTimestamp example.after_epoch = 1000000000
  /\ bytes_Compare (expireKey example.before_epoch "a")
       (expireKey example.after_epoch "a") = Gt.
Proof. vm_compute. repeat split. Qed.

(** C2, on the code.  A record whose expiry is set and lies before the Unix
    epoch is not taken by a sweep of the embedded backend whose cutoff is
    in 2023: the sweep returns 0 and the record can still be read.  The
    relational backend takes it. *)
Theorem DeleteExpired_keeps_expiry_before_epoch :
  let bolt_s := run codec.Marshal codec.Unmarshal
                  [op_Save example.bg (Some example.ancient)] new_store in
  let sql_s := (sqlitestore.Save example.bg (Some example.ancient) ∅).1.2 in
  HasExpiration example.ancient = true
  /\ time.After (ExpiresAt example.ancient) example.now = false
  /\ (boltstore.DeleteExpired example.bg example.now bolt_s).1 = (0, None)
  /\ (boltstore.Get codec.Unmarshal example.bg "old"
        (boltstore.DeleteExpired example.bg example.now bolt_s).2).2 = None
  /\ (sqlitestore.DeleteExpired example.bg example.now sql_s).1 = (1, None)
  /\ sqlitestore.Get example.bg "old"
       (sqlitestore.DeleteExpired example.bg example.now sql_s).2
     = (None, Some ErrNotFound).
Proof. vm_compute. repeat split. Qed.

(** C5, on the code.  After a sweep of the embedded backend with a cutoff
    in 2023 that took nothing, a sweep with an earlier cutoff, one second
    before the Unix epoch, takes a record that expires an hour after the
    first cutoff.  In the relational backend the second sweep takes
    nothing. *)
Theorem DeleteExpired_earlier_cutoff_takes_more :
  let bolt_s := run codec.Marshal codec.Unmarshal
                  [op_Save example.bg (Some example.alive);
                   op_DeleteExpired example.bg example.now] new_store in
  let sql_s := (sqlitestore.DeleteExpired example.bg example.now
                  (sqlitestore.Save example.bg (Some example.alive) ∅).1.2).2 in
  time.After example.before_epoch example.now = false
  /\ (boltstore.DeleteExpired example.bg example.now
        (run codec.Marshal codec.Unmarshal
           [op_Save example.bg (Some example.alive)] new_store)).1 = (0, None)
  /\ (boltstore.DeleteExpired example.bg example.before_epoch bolt_s).1 = (1, None)
  /\ boltstore.Get codec.Unmarshal example.bg "alive"
       (boltstore.DeleteExpired example.bg example.before_epoch bolt_s).2
     = (None, Some ErrNotFound)
  /\ (sqlitestore.DeleteExpired example.bg example.before_epoch sql_s).1 = (0, None)
  /\ (sqlitestore.Get example.bg "alive"
        (sqlitestore.DeleteExpired example.bg example.before_epoch sql_s).2).2 = None.
Proof. vm_compute. repeat split. Qed.

(** ** The scenarios of the specification, run on both backends *)

Section Scenarios.
Import example.

#[local] Abbreviation bSave := (boltstore.Save codec.Marshal codec.Unmarshal bg).
#[local] Abbreviation bGet := (boltstore.Get codec.Unmarshal bg).
#[local] Abbreviation bDelete := (boltstore.Delete codec.Unmarshal bg).
#[local] Abbreviation bSweep := (boltstore.DeleteExpired bg).
#[local] Abbreviation far := (time.Add now (24 * 365 * 100 * time.Hour)).

(** 2. Delete removes the index entry: nothing is left for a later sweep. *)
Example scenario_delete_removes_index :
  let s1 := (bSave (Some alive) new_store).1.2 in
  let s2 := (bDelete "alive" s1).2 in
  (bDelete "alive" s1).1 = None
  /\ expires s2 = []
  /\ (bSweep far s2).1 = (0, None)
  /\ bGet "alive" s2 = (None, Some ErrNotFound).
Proof. vm_compute. repeat split. Qed.

(** 3. A record saved again without expiry survives the sweep. *)
Example scenario_resave_without_expiry :
  let s1 := (bSave (Some c1) new_store).1.2 in
  let s2 := (bSave (Some c1_forever) s1).1.2 in
  let r := bSweep (time.Add now (2 * time.Hour)) s2 in
  index_entries "c1" s1 = [(expireKey (ExpiresAt c1) "c1", bytes_of_string "c1")]
  /\ index_entries "c1" s2 = []
  /\ r.1 = (0, None)
  /\ bGet "c1" r.2 = (Some c1_forever, None).
Proof. vm_compute. repeat split. Qed.

(** 4 and 5. The sweep takes [dead] and leaves [alive]; a second sweep
    takes nothing.  The test of the repository, on both backends. *)
Example scenario_sweep_selects :
  let s := (bSave (Some dead) (bSave (Some alive) new_store).1.2).1.2 in
  let r1 := bSweep now s in
  let r2 := bSweep now r1.2 in
  r1.1 = (1, None)
  /\ bGet "dead" r1.2 = (None, Some ErrNotFound)
  /\ bGet "alive" r1.2 = (Some alive, None)
  /\ r2 = (0, None, r1.2).
Proof. vm_compute. repeat split. Qed.

Example scenario_sweep_selects_sqlite :
  let s := (sqlitestore.Save bg (Some dead)
              (sqlitestore.Save bg (Some alive) ∅).1.2).1.2 in
  let r1 := sqlitestore.DeleteExpired bg now s in
  let r2 := sqlitestore.DeleteExpired bg now r1.2 in
  r1.1 = (1, None)
  /\ sqlitestore.Get bg "dead" r1.2 = (None, Some ErrNotFound)
  /\ sqlitestore.Get bg "alive" r1.2 = (Some alive, None)
  /\ r2.1 = (0, None).
Proof. vm_compute. repeat split. Qed.

(** 7. A record that never expires is immune to a sweep a century on. *)
Example scenario_never_expiring_is_immune :
  let s := (bSave (Some c1_forever) new_store).1.2 in
  bSweep far s = (0, None, s)
  /\ (sqlitestore.DeleteExpired bg far
        (sqlitestore.Save bg (Some c1_forever) ∅).1.2).1 = (0, None).
Proof. vm_compute. repeat split. Qed.

(** A record with a year beyond 9999 is refused by the encoder: [Save]
    fails and the store is as it was. *)
Example scenario_encoder_refuses :
  let p := mkPaste "y10k" "" "plaintext"
             (time.mkTime (3652059 * 86400 * 1000000000) time.UTCLoc) time.zero "" 0 in
  bSave (Some p) new_store
  = (Some (fmt_Errorf_w "marshal paste"
             (json_Error "Time.MarshalJSON: year outside of range [0,9999]")),
     new_store, Some p).
Proof. vm_compute. repeat split. Qed.

(** An empty id is refused by bbolt: the transaction is rolled back. *)
Example scenario_empty_id :
  (bSave (Some (mkPaste "" "x" "plaintext" now time.zero "" 1)) new_store).1
  = (Some (fmt_Errorf_w "save paste" bolt_ErrKeyRequired), new_store).
Proof. vm_compute. repeat split. Qed.

(** A tick of the janitor on an embedded store that holds [dead] and
    [alive]: one record goes and one line is logged; with a nil logger
    the record goes silently; a tick that finds nothing logs nothing. *)
Example scenario_janitor_tick :
  let s := (bSave (Some dead) (bSave (Some alive) new_store).1.2).1.2 in
  let s' := (bSweep now s).2 in
  httpserver.cleanOnce bg now s (Some [])
  = httpserver.Returns
      (s', Some [httpserver.mkRecord httpserver.LevelInfo
                   "janitor removed expired pastes" (httpserver.attr_int "count" 1)])
  /\ httpserver.cleanOnce bg now s None = httpserver.Returns (s', None)
  /\ httpserver.cleanOnce bg now s' (Some []) = httpserver.Returns (s', Some []).
Proof. vm_compute. repeat split. Qed.

End Scenarios.

(** ** Strings that are not valid UTF-8 (C1, C4) *)

Lemma expireKey_UTC t id : expireKey (time.UTC t) id = expireKey t id.
Proof. unfold expireKey. now rewrite toTimestamp_UTC. Qed.

Lemma insert_same {V : Type} (k : bytes) (v w : V) :
  bolt.insert k v [(k, w)] = [(k, v)].
Proof. simpl. now rewrite bytes_Compare_refl. Qed.

Lemma remove_only {V : Type} (k : bytes) (v : V) : bolt.remove k [(k, v)] = [].
Proof. unfold bolt.remove. simpl. now rewrite bytes_eqb_refl. Qed.

Lemma remove_other {V : Type} (k k' : bytes) (v : V) :
  k' <> k -> bolt.remove k [(k', v)] = [(k', v)].
Proof. intros N. unfold bolt.remove. simpl. now rewrite bytes_eqb_neq. Qed.

(** C1.  The entry of an id that is not valid UTF-8 outlives the expiry of
    its record.  With encoding/json, which reads such an id back changed,
    for every record saved under such an id with an expiry and then saved
    again without one: [Get] returns the second record, which does not
    expire, but the index still holds the entry of the first; [Save] built
    the key to delete from the id it decoded, not from the one it was
    given.  Any sweep whose cutoff is not before the first expiry then
    takes this entry, deletes the record that does not expire, reports one
    record removed and leaves the store empty. *)
Theorem resave_keeps_stale_index_entry
  (json_Marshal : Paste -> error + bytes) (json_Unmarshal : bytes -> error + Paste) :
  json_coerces json_Marshal json_Unmarshal ->
  forall (ctx : context.Context) (first second : Paste) (before : time.Time),
    context.Err ctx = None ->
    ID second = ID first -> ~ json.valid (ID first) ->
    valid json_Marshal first = true -> valid json_Marshal second = true ->
    HasExpiration first = true -> HasExpiration second = false ->
    toTimestamp (ExpiresAt first) <= toTimestamp before ->
    let id := ID first in
    let s := run json_Marshal json_Unmarshal
               [op_Save ctx (Some first); op_Save ctx (Some second)] new_store in
    Get json_Unmarshal ctx id s = (Some (json.coerced (normalize second)), None)
    /\ HasExpiration (json.coerced (normalize second)) = false
    /\ index_entries id s = [(expireKey (ExpiresAt first) id, bytes_of_string id)]
    /\ DeleteExpired ctx before s = (1, None, new_store)
    /\ Get json_Unmarshal ctx id new_store = (None, Some ErrNotFound).
Proof.
  intros RT ctx first second before Hctx Eid NV V1 V2 H1 H2 Hts id s.
  set (idb := bytes_of_string id).
  set (key := expireKey (ExpiresAt first) id).
  destruct (Save_valid_mkdb json_Marshal json_Unmarshal ctx first [] [] Hctx V1)
    as (d1 & M1 & S1).
  change (HasExpiration (normalize first)) with (HasExpiration first) in S1.
  rewrite H1 in S1. cbn [ExpiresAt normalize set_ExpiresAt] in S1.
  rewrite expireKey_UTC in S1. fold id idb key in S1.
  change (without_entry_of json_Unmarshal idb [] []) with ([] : bolt.Bucket) in S1.
  cbn [bolt.insert] in S1.
  pose proof (RT _ _ (normalized_normalize first) M1) as U1.
  assert (W : without_entry_of json_Unmarshal idb [(idb, d1)] [(key, idb)]
              = [(key, idb)]).
  { unfold without_entry_of. cbn [bolt.lookup]. rewrite bytes_eqb_refl, U1.
    change (HasExpiration (json.coerced (normalize first))) with (HasExpiration first).
    rewrite H1. apply remove_other. intros E.
    cbn [ExpiresAt ID json.coerced normalize set_ExpiresAt set_CreatedAt] in E.
    rewrite expireKey_UTC in E. apply expireKey_inj_id in E. apply NV.
    unfold json.valid. now symmetry. }
  destruct (Save_valid_mkdb json_Marshal json_Unmarshal ctx second
              [(idb, d1)] [(key, idb)] Hctx V2) as (d2 & M2 & S2).
  change (HasExpiration (normalize second)) with (HasExpiration second) in S2.
  rewrite H2, Eid in S2. fold id idb in S2. rewrite W, insert_same in S2.
  pose proof (RT _ _ (normalized_normalize second) M2) as U2.
  assert (Hs : s = mkdb [(idb, d2)] [(key, idb)]).
  { unfold s, run. cbn [fold_left step]. rewrite new_store_mkdb, S1.
    cbn [fst snd]. now rewrite S2. }
  rewrite Hs. split; [|split; [|split; [|split]]].
  - rewrite Get_mkdb, Hctx. fold idb. cbn [bolt.lookup].
    now rewrite bytes_eqb_refl, U2.
  - exact H2.
  - unfold index_entries. rewrite expires_mkdb. fold idb. cbn [List.filter snd].
    now rewrite bytes_eqb_refl.
  - rewrite DeleteExpired_mkdb by (repeat constructor).
    rewrite Hctx, toTimestamp_UTC. cbn [swept].
    rewrite Uint64_slice by (unfold key; rewrite length_expireKey; lia).
    unfold key at 1. rewrite expireKey_timestamp.
    assert (G : (toTimestamp (ExpiresAt first) >? toTimestamp before) = false)
      by (rewrite Z.gtb_ltb; apply Z.ltb_ge; exact Hts).
    rewrite G, remove_only. cbn [swept]. now rewrite new_store_mkdb.
  - rewrite new_store_mkdb, Get_mkdb, Hctx. reflexivity.
Qed.

Lemma xFF_not_valid : ~ json.valid example.xFF.
Proof. unfold json.valid. vm_compute. intros H. discriminate H. Qed.

Lemma resave_keeps_stale_index_entry_witness :
  json_coerces jsonlike.Marshal jsonlike.Unmarshal
  /\ ~ json.valid (ID example.odd)
  /\ valid jsonlike.Marshal example.odd = true
  /\ valid jsonlike.Marshal example.odd_forever = true
  /\ toTimestamp (ExpiresAt example.odd)
     <= toTimestamp (time.Add example.now (2 * time.Hour))
  /\ let s := run jsonlike.Marshal jsonlike.Unmarshal
                [op_Save example.bg (Some example.odd);
                 op_Save example.bg (Some example.odd_forever)] new_store in
     Get jsonlike.Unmarshal example.bg example.xFF s
     = (Some (mkPaste json.replacement "hello again" "go" example.now time.zero "" 11),
        None)
     /\ index_entries example.xFF s
        = [(expireKey (time.Add example.now time.Hour) example.xFF,
            bytes_of_string example.xFF)]
     /\ DeleteExpired example.bg (time.Add example.now (2 * time.Hour)) s
        = (1, None, new_store).
Proof.
  assert (V1 : valid jsonlike.Marshal example.odd = true) by (vm_compute; reflexivity).
  assert (V2 : valid jsonlike.Marshal example.odd_forever = true)
    by (vm_compute; reflexivity).
  assert (L : toTimestamp (ExpiresAt example.odd)
              <= toTimestamp (time.Add example.now (2 * time.Hour)))
    by (vm_compute; intros H; discriminate H).
  split; [exact jsonlike_coerces|]. split; [exact xFF_not_valid|].
  split; [exact V1|]. split; [exact V2|]. split; [exact L|].
  destruct (resave_keeps_stale_index_entry jsonlike.Marshal jsonlike.Unmarshal
              jsonlike_coerces example.bg example.odd example.odd_forever
              (time.Add example.now (2 * time.Hour))
              eq_refl eq_refl xFF_not_valid V1 V2 eq_refl eq_refl L)
    as (G & _ & I & D & _).
  split; [exact G|]. split; [exact I|exact D].
Defined.

(** C4.  What [Get] returns after [Save] is the record as encoding/json
    reads it back, not the record that was saved.  For every record the
    backend can store, whatever the two buckets hold and with live
    contexts, [Save] succeeds and [Get] of the id returns the record with
    its timestamps in UTC and its four strings coerced to valid UTF-8.
    This is the saved record exactly when the id, the content, the syntax
    and the password hash are all valid UTF-8: a content that is not comes
    back with every offending byte replaced by U+FFFD. *)
Theorem Save_Get_coerces_strings
  (json_Marshal : Paste -> error + bytes) (json_Unmarshal : bytes -> error + Paste) :
  json_coerces json_Marshal json_Unmarshal ->
  forall (ctx ctx' : context.Context) (p : Paste) (pB eB : bolt.Bucket),
    context.Err ctx = None -> context.Err ctx' = None ->
    valid json_Marshal p = true ->
    let q := normalize p in
    exists s',
      Save json_Marshal json_Unmarshal ctx (Some p) (mkdb pB eB) = (None, s', Some q)
      /\ Get json_Unmarshal ctx' (ID p) s' = (Some (json.coerced q), None)
      /\ (json.coerced q = q <->
          json.valid (ID p) /\ json.valid (Content p)
          /\ json.valid (Syntax p) /\ json.valid (PasswordHash p)).
Proof.
  intros RT ctx ctx' p pB eB Hctx Hctx' Hv q.
  destruct (Save_valid_mkdb json_Marshal json_Unmarshal ctx p pB eB Hctx Hv)
    as (data & Hm & Sv).
  change (normalize p) with q in Hm, Sv.
  eexists. split; [exact Sv|]. split.
  - rewrite Get_mkdb, Hctx', lookup_insert_eq.
    now rewrite (RT _ _ (normalized_normalize p) Hm).
  - unfold json.coerced, json.valid, q. destruct p as [i c sy cr ex ph sz].
    cbn [ID Content Syntax PasswordHash CreatedAt ExpiresAt Size normalize
         set_ExpiresAt set_CreatedAt].
    split.
    + intros E. injection E as E1 E2 E3 E4. auto.
    + intros (E1 & E2 & E3 & E4). now rewrite E1, E2, E3, E4.
Qed.

(** A content of the one byte 0xFF, saved over the record of scenario 3. *)
Lemma Save_Get_coerces_strings_witness :
  json_coerces jsonlike.Marshal jsonlike.Unmarshal
  /\ context.Err example.bg = None
  /\ valid jsonlike.Marshal example.blob = true
  /\ let s := run jsonlike.Marshal jsonlike.Unmarshal
                [op_Save example.bg (Some example.c1)] new_store in
     exists s',
       Save jsonlike.Marshal jsonlike.Unmarshal example.bg (Some example.blob) s
       = (None, s', Some example.blob)
       /\ Get jsonlike.Unmarshal example.bg "c1" s'
          = (Some (mkPaste "c1" json.replacement "plaintext" example.now time.zero "" 1),
             None)
       /\ json.replacement <> Content example.blob.
Proof.
  assert (V : valid jsonlike.Marshal example.blob = true) by (vm_compute; reflexivity).
  split; [exact jsonlike_coerces|]. split; [reflexivity|]. split; [exact V|].
  destruct (Save_Get_coerces_strings jsonlike.Marshal jsonlike.Unmarshal
              jsonlike_coerces example.bg example.bg example.blob
              (pastes (run jsonlike.Marshal jsonlike.Unmarshal
                         [op_Save example.bg (Some example.c1)] new_store))
              (expires (run jsonlike.Marshal jsonlike.Unmarshal
                          [op_Save example.bg (Some example.c1)] new_store))
              eq_refl eq_refl V) as (s' & Sv & G & _).
  exists s'. split; [exact Sv|]. split; [exact G|].
  intros H. discriminate H.
Defined.

(* ================================================================== *)
(** * Part II, continued: passwords, identifiers and the HTTP layer     *)
(* ================================================================== *)

(** ** base64 *)

Lemma testbit_above val k i :
  0 <= val < 2 ^ k -> 0 <= k <= i -> Z.testbit val i = false.
Proof.
  intros Hv Hk.
  exact (proj1 (Z.bounded_iff_bits_nonneg k val (proj1 Hk) (proj1 Hv)) (proj2 Hv) i (proj2 Hk)).
Qed.

(** The four groups of six bits of a number below 2^24 give it back. *)
Lemma sextets_recombine val :
  0 <= val < 2 ^ 24 ->
  Z.lor (Z.lor (Z.lor (Z.shiftl (Z.land (Z.shiftr val 18) 63) 18)
                      (Z.shiftl (Z.land (Z.shiftr val 12) 63) 12))
               (Z.shiftl (Z.land (Z.shiftr val 6) 63) 6))
        (Z.land (Z.shiftr val 0) 63) = val.
Proof.
  intros Hv. change 63 with (Z.ones 6). Z.bitblast.
  rewrite (testbit_above val 24) by lia. reflexivity.
Qed.

Lemma decodeMap_encode i : 0 <= i < 64 -> base64.decodeMap (base64.encode i) = i.
Proof.
  intros Hi.
  assert (A : List.forallb
                (fun n => base64.decodeMap (base64.encode (Z.of_nat n)) =? Z.of_nat n)
                (seq 0 64) = true) by (vm_compute; reflexivity).
  rewrite List.forallb_forall in A.
  specialize (A (Z.to_nat i)). rewrite Z2Nat.id in A by lia.
  apply Z.eqb_eq, A, in_seq. lia.
Qed.

Lemma land_63_range v : 0 <= Z.land v 63 < 64.
Proof.
  change 63 with (Z.ones 6). rewrite Z.land_ones by lia.
  apply Z.mod_pos_bound. lia.
Qed.

Lemma decodeMap_sextet val k :
  base64.decodeMap (base64.sextet val k) = Z.land (Z.shiftr val k) 63.
Proof. apply decodeMap_encode, land_63_range. Qed.

Lemma byte_of_Z_eq z b : z mod 2 ^ 8 = byte.unsigned b -> byte.of_Z z = b.
Proof.
  intros E. apply byte.unsigned_inj. rewrite byte.unsigned_of_Z. exact E.
Qed.

Lemma three_bytes_range u0 u1 u2 :
  0 <= u0 < 2 ^ 8 -> 0 <= u1 < 2 ^ 8 -> 0 <= u2 < 2 ^ 8 ->
  0 <= Z.lor (Z.lor (Z.shiftl u0 16) (Z.shiftl u1 8)) u2 < 2 ^ 24.
Proof.
  intros H0 H1 H2.
  assert (N : 0 <= Z.lor (Z.lor (Z.shiftl u0 16) (Z.shiftl u1 8)) u2).
  { rewrite !Z.lor_nonneg, !Z.shiftl_nonneg. lia. }
  split; [exact N|].
  apply Z.bounded_iff_bits_nonneg; [lia|exact N|].
  intros l Hl. rewrite !Z.lor_spec, !Z.shiftl_spec by lia.
  rewrite (testbit_above u0 8), (testbit_above u1 8), (testbit_above u2 8) by lia.
  reflexivity.
Qed.

Lemma three_bytes_split u0 u1 u2 :
  0 <= u0 < 2 ^ 8 -> 0 <= u1 < 2 ^ 8 -> 0 <= u2 < 2 ^ 8 ->
  let val := Z.lor (Z.lor (Z.shiftl u0 16) (Z.shiftl u1 8)) u2 in
  Z.shiftr val 16 mod 2 ^ 8 = u0
  /\ Z.shiftr val 8 mod 2 ^ 8 = u1
  /\ Z.shiftr val 0 mod 2 ^ 8 = u2.
Proof.
  intros H0 H1 H2 val. subst val. rewrite <- !Z.land_ones by lia.
  split; [|split]; Z.bitblast; subst.
  all: repeat match goal with
       | |- context [Z.testbit ?u ?i] =>
           first [ rewrite (testbit_above u 8 i) by lia
                 | rewrite (Z.testbit_neg_r u i) by lia ]
       end.
  all: rewrite ?andb_true_r, ?orb_false_r, ?orb_false_l; try reflexivity.
  all: apply andb_false_r.
Qed.

Ltac bits_done :=
  subst;
  repeat match goal with
    | |- context [Z.testbit ?u ?i] =>
        first [ rewrite (Z.testbit_neg_r u i) by lia
              | rewrite (testbit_above u 8 i) by lia ]
    end;
  rewrite ?andb_true_r, ?orb_false_r, ?orb_false_l, ?andb_false_r;
  try reflexivity.

Lemma quantum_three b0 b1 b2 :
  let val := Z.lor (Z.lor (Z.shiftl (byte.unsigned b0) 16)
                          (Z.shiftl (byte.unsigned b1) 8))
                   (byte.unsigned b2) in
  base64.quantum [Z.land (Z.shiftr val 18) 63; Z.land (Z.shiftr val 12) 63;
                  Z.land (Z.shiftr val 6) 63; Z.land (Z.shiftr val 0) 63]
  = [b0; b1; b2].
Proof.
  intros val. unfold base64.quantum. cbn [nth length Nat.sub firstn].
  pose proof (byte.unsigned_range b0) as H0.
  pose proof (byte.unsigned_range b1) as H1.
  pose proof (byte.unsigned_range b2) as H2.
  rewrite sextets_recombine by (apply three_bytes_range; assumption).
  destruct (three_bytes_split _ _ _ H0 H1 H2) as (E0 & E1 & E2).
  fold val in E0, E1, E2.
  now rewrite (byte_of_Z_eq _ _ E0), (byte_of_Z_eq _ _ E1), (byte_of_Z_eq _ _ E2).
Qed.

Lemma quantum_two b0 b1 :
  let val := Z.lor (Z.shiftl (byte.unsigned b0) 16) (Z.shiftl (byte.unsigned b1) 8) in
  base64.quantum [Z.land (Z.shiftr val 18) 63; Z.land (Z.shiftr val 12) 63;
                  Z.land (Z.shiftr val 6) 63]
  = [b0; b1].
Proof.
  intros val. unfold base64.quantum. cbn [nth length Nat.sub firstn].
  pose proof (byte.unsigned_range b0) as H0.
  pose proof (byte.unsigned_range b1) as H1.
  assert (H2 : 0 <= 0 < 2 ^ 8) by lia.
  assert (L : 0 = Z.land (Z.shiftr val 0) 63).
  { subst val. change 63 with (Z.ones 6). Z.bitblast; bits_done. }
  destruct (three_bytes_split _ _ 0 H0 H1 H2) as (E0 & E1 & _).
  pose proof (three_bytes_range _ _ 0 H0 H1 H2) as R.
  rewrite Z.lor_0_r in E0, E1, R. fold val in E0, E1, R.
  pose proof (sextets_recombine val R) as S. rewrite <- L in S. rewrite S.
  now rewrite (byte_of_Z_eq _ _ E0), (byte_of_Z_eq _ _ E1).
Qed.

Lemma quantum_one b0 :
  let val := Z.shiftl (byte.unsigned b0) 16 in
  base64.quantum [Z.land (Z.shiftr val 18) 63; Z.land (Z.shiftr val 12) 63] = [b0].
Proof.
  intros val. unfold base64.quantum. cbn [nth length Nat.sub firstn].
  pose proof (byte.unsigned_range b0) as H0.
  assert (H2 : 0 <= 0 < 2 ^ 8) by lia.
  assert (L6 : 0 = Z.land (Z.shiftr val 6) 63).
  { subst val. change 63 with (Z.ones 6). Z.bitblast; bits_done. }
  assert (L0 : 0 = Z.land (Z.shiftr val 0) 63).
  { subst val. change 63 with (Z.ones 6). Z.bitblast; bits_done. }
  destruct (three_bytes_split _ 0 0 H0 H2 H2) as (E0 & _).
  pose proof (three_bytes_range _ 0 0 H0 H2 H2) as R.
  rewrite Z.shiftl_0_l, !Z.lor_0_r in E0, R. fold val in E0, R.
  pose proof (sextets_recombine val R) as S. rewrite <- L6, <- L0 in S.
  rewrite S.
  now rewrite (byte_of_Z_eq _ _ E0).
Qed.

Lemma list_ind3 {A : Type} (P : list A -> Prop) :
  P [] -> (forall a, P [a]) -> (forall a b, P [a; b]) ->
  (forall a b c l, P l -> P (a :: b :: c :: l)) ->
  forall l, P l.
Proof.
  intros P0 P1 P2 P3.
  assert (G : forall l, P l /\ (forall a, P (a :: l)) /\ (forall a b, P (a :: b :: l))).
  { induction l as [|x l (IH0 & IH1 & IH2)]; auto. }
  intros l. apply G.
Qed.

Lemma Decode_valid c src si dbuf :
  base64.decodeMap c <> 255 ->
  base64.Decode (c :: src) si dbuf =
  let dbuf := (dbuf ++ [base64.decodeMap c])%list in
  if (length dbuf =? 4)%nat then
    match base64.Decode src (si + 1) [] with
    | inl e => inl e
    | inr rest => inr (base64.quantum dbuf ++ rest)%list
    end
  else base64.Decode src (si + 1) dbuf.
Proof.
  intros V. cbn [base64.Decode]. cbv zeta.
  destruct (Z.eqb_spec (base64.decodeMap c) 255); [contradiction|reflexivity].
Qed.

Lemma sextet_valid val k : base64.decodeMap (base64.sextet val k) <> 255.
Proof. rewrite decodeMap_sextet. pose proof (land_63_range (Z.shiftr val k)). lia. Qed.

Ltac decode_step :=
  rewrite Decode_valid by apply sextet_valid;
  cbv zeta; rewrite decodeMap_sextet; cbn [app length Nat.eqb].

(** [DecodeString] gives back what [EncodeToString] was given. *)
Lemma base64_Decode_Encode src : forall si, base64.Decode (base64.Encode src) si [] = inr src.
Proof.
  induction src as [|b0|b0 b1|b0 b1 b2 rest IH] using list_ind3; intros si.
  - reflexivity.
  - cbn [base64.Encode]. cbv zeta. do 2 decode_step.
    cbn [base64.Decode]. now rewrite quantum_one.
  - cbn [base64.Encode]. cbv zeta. do 3 decode_step.
    cbn [base64.Decode]. now rewrite quantum_two.
  - cbn [base64.Encode]. cbv zeta. do 4 decode_step.
    now rewrite IH, quantum_three.
Qed.

Lemma base64_DecodeString_EncodeToString src :
  base64.DecodeString (base64.EncodeToString src) = inr src.
Proof.
  unfold base64.DecodeString, base64.EncodeToString.
  rewrite bytes_of_string_of_bytes. apply base64_Decode_Encode.
Qed.

(** ** strings.Split *)

Lemma Split_not_nil s sep : strings_Split s sep <> [].
Proof.
  destruct s as [|c s]; simpl; [discriminate|].
  destruct (Ascii.eqb c sep); [discriminate|].
  destruct (strings_Split s sep); discriminate.
Qed.

Lemma Split_absent s sep : occurs sep s = false -> strings_Split s sep = [s].
Proof.
  induction s as [|c s IH]; simpl; [reflexivity|].
  intros O. apply orb_false_iff in O as [O1 O2]. rewrite O1, IH by exact O2.
  reflexivity.
Qed.

Lemma Split_app a sep b :
  occurs sep a = false ->
  strings_Split (a ++ String sep b) sep = a :: strings_Split b sep.
Proof.
  induction a as [|c a IH]; simpl.
  - intros _. now rewrite Ascii.eqb_refl.
  - intros O. apply orb_false_iff in O as [O1 O2]. rewrite O1, IH by exact O2.
    reflexivity.
Qed.

(** The characters of the base64 alphabet. *)
Lemma encode_in_alphabet i :
  0 <= i < 64 -> In (base64.encode i) (bytes_of_string base64.encodeStd).
Proof.
  intros Hi. unfold base64.encode. apply nth_In.
  change (length (bytes_of_string base64.encodeStd)) with 64%nat. lia.
Qed.

Lemma Encode_in_alphabet src :
  List.Forall (fun c => In c (bytes_of_string base64.encodeStd)) (base64.Encode src).
Proof.
  induction src as [|b0|b0 b1|b0 b1 b2 rest IH] using list_ind3;
    cbn [base64.Encode]; cbv zeta; unfold base64.sextet;
    repeat (constructor; [apply encode_in_alphabet, land_63_range|]);
    auto.
Qed.

Lemma occurs_string_of_bytes c b :
  occurs c (string_of_bytes b) = true -> In (byte_of_ascii c) b.
Proof.
  induction b as [|x b IH]; simpl; [discriminate|].
  intros O. apply orb_true_iff in O as [O|O]; [left|right; auto].
  apply Ascii.eqb_eq in O. rewrite <- O. symmetry. apply byte_of_ascii_of_byte.
Qed.

(** No byte outside the alphabet occurs in an encoding. *)
Lemma EncodeToString_alphabet c src :
  occurs c base64.encodeStd = false ->
  occurs c (base64.EncodeToString src) = false.
Proof.
  intros O. destruct (occurs c (base64.EncodeToString src)) eqn:E; [|reflexivity].
  apply occurs_string_of_bytes in E.
  pose proof (Encode_in_alphabet src) as F. rewrite List.Forall_forall in F.
  specialize (F _ E). exfalso. revert O F. generalize base64.encodeStd as s.
  induction s as [|x s IH]; simpl; [tauto|].
  intros O [F|F].
  - apply orb_false_iff in O as [O _].
    assert (X : x = c).
    { rewrite <- (ascii_of_byte_of_ascii x), <- (ascii_of_byte_of_ascii c).
      now f_equal. }
    apply Ascii.eqb_neq in O. contradiction.
  - apply orb_false_iff in O as [_ O]. eauto.
Qed.

(** ** Passwords *)

Lemma xor_fold_zero x : forall y v,
  length x = length y -> 0 <= v ->
  (xor_fold x y v = 0 <-> v = 0 /\ x = y).
Proof.
  induction x as [|a x IH]; intros [|b y] v L Hv; try discriminate L; simpl.
  - tauto.
  - injection L as L.
    pose proof (byte.unsigned_range a) as Ha. pose proof (byte.unsigned_range b) as Hb.
    assert (Hx : 0 <= Z.lxor (byte.unsigned a) (byte.unsigned b))
      by (apply Z.lxor_nonneg; lia).
    rewrite IH by (auto; apply Z.lor_nonneg; lia).
    rewrite Z.lor_eq_0_iff. split.
    + intros [[V X] E]. apply Z.lxor_eq in X. apply byte.unsigned_inj in X.
      now subst.
    + intros [V E]. injection E as -> ->. now rewrite Z.lxor_nilpotent.
Qed.

(** [subtle.ConstantTimeCompare] returns 1 exactly on equal slices. *)
Lemma ConstantTimeCompare_eq x y : subtle_ConstantTimeCompare x y = 1 <-> x = y.
Proof.
  unfold subtle_ConstantTimeCompare.
  destruct (Nat.eqb_spec (length x) (length y)) as [L|L]; simpl.
  - destruct (Z.eqb_spec (xor_fold x y 0) 0) as [E|E].
    + apply xor_fold_zero in E; [tauto|exact L|lia].
    + split; [discriminate|]. intros X. exfalso. apply E.
      apply xor_fold_zero; auto. lia.
  - split; [discriminate|]. intros ->. contradiction.
Qed.

Lemma Split_encodeHash salt hash :
  strings_Split (security.encodeHash salt hash) "$" =
  [""; "argon2id"; "v=19"; "m=65536,t=1,p=1";
   base64.EncodeToString salt; base64.EncodeToString hash].
Proof.
  change (security.encodeHash salt hash)
    with ("" ++ String "$" ("argon2id" ++ String "$" ("v=19" ++ String "$"
            ("m=65536,t=1,p=1" ++ String "$"
               (base64.EncodeToString salt ++ String "$" (base64.EncodeToString hash)))))).
  rewrite !Split_app by (reflexivity || (apply EncodeToString_alphabet; reflexivity)).
  rewrite Split_absent by (apply EncodeToString_alphabet; reflexivity).
  reflexivity.
Qed.

Section Passwords.
Context `{Crypto}.
Hypothesis scans : secspec.scans_own_params.

(** What [decodeHash] reads from what [encodeHash] wrote. *)
Lemma decodeHash_encodeHash_eq salt hash :
  security.decodeHash (security.encodeHash salt hash)
  = inr (security.mkParams security.argonTime security.argonMemory security.argonThreads,
         salt, hash).
Proof.
  unfold security.decodeHash. rewrite Split_encodeHash.
  cbn [length Nat.eqb negb nth String.eqb Ascii.eqb Bool.eqb].
  change "m=65536,t=1,p=1"
    with ("m=" ++ fmt_d security.argonMemory ++ ",t=" ++ fmt_d security.argonTime
          ++ ",p=" ++ fmt_d security.argonThreads).
  rewrite scans. rewrite !base64_DecodeString_EncodeToString. reflexivity.
Qed.

Lemma encodeHash_not_empty salt hash :
  String.eqb (security.encodeHash salt hash) "" = false.
Proof. reflexivity. Qed.

End Passwords.

Lemma toy_scans_own_params : secspec.scans_own_params.
Proof. reflexivity. Qed.

Lemma toy_derives_key : secspec.derives_key.
Proof.
  intros password salt. eexists. split; [reflexivity|].
  now rewrite length_map, length_seq.
Qed.

(** X1.  [decodeHash] reads back what [encodeHash] wrote: for every salt
    and every key, decoding the encoded hash succeeds and returns that
    salt, that key and the three parameters of [HashPassword] (64 MiB, one
    pass, one thread), whatever bytes the salt and the key hold.  It rests
    on [RawStdEncoding] decoding what it encoded, proved on the model of
    the codec, and on [Sscanf] reading the parameters [Sprintf] wrote. *)
Theorem decodeHash_encodeHash `{Crypto} :
  secspec.scans_own_params ->
  forall salt hash : bytes,
    base64.DecodeString (base64.EncodeToString salt) = inr salt
    /\ strings_Split (security.encodeHash salt hash) "$"
       = [""; "argon2id"; "v=19"; "m=65536,t=1,p=1";
          base64.EncodeToString salt; base64.EncodeToString hash]
    /\ security.decodeHash (security.encodeHash salt hash)
       = inr (security.mkParams 1 65536 1, salt, hash).
Proof.
  intros scans salt hash. split; [|split].
  - apply base64_DecodeString_EncodeToString.
  - apply Split_encodeHash.
  - now apply decodeHash_encodeHash_eq.
Qed.

Lemma decodeHash_encodeHash_witness :
  secspec.scans_own_params
  /\ security.decodeHash
       (security.encodeHash (bytes_of_string "0123456789abcdef") (bytes_of_string "key"))
     = inr (security.mkParams 1 65536 1, bytes_of_string "0123456789abcdef",
            bytes_of_string "key").
Proof.
  split; [exact toy_scans_own_params|].
  exact (proj2 (proj2 (decodeHash_encodeHash toy_scans_own_params
                         (bytes_of_string "0123456789abcdef") (bytes_of_string "key")))).
Defined.

(** X2.  A password verifies against its own hash: for every password,
    the empty one included, and every salt the random source gives,
    [HashPassword] returns without error and [VerifyPassword] of what it
    returned and the same password returns true without error; neither
    call panics. *)
Theorem VerifyPassword_accepts_own_hash `{Crypto} :
  secspec.scans_own_params -> secspec.derives_key ->
  forall (password : string) (stream : nat -> byte),
  exists encoded,
    security.HashPassword password (inr stream) = Returns (encoded, None)
    /\ security.VerifyPassword encoded password = Returns (true, None)
    /\ (String.eqb encoded "" = String.eqb password "").
Proof.
  intros scans derives password stream. unfold security.HashPassword.
  destruct (String.eqb password "") eqn:E.
  - exists "". unfold security.VerifyPassword. simpl. rewrite E. auto.
  - cbn [rand_Read]. set (salt := List.map stream _).
    destruct (derives (bytes_of_string password) salt) as (key & K & L).
    rewrite K. exists (security.encodeHash salt key).
    split; [reflexivity|]. split; [|reflexivity].
    unfold security.VerifyPassword.
    rewrite encodeHash_not_empty, decodeHash_encodeHash_eq by exact scans.
    cbn [security.time security.memory security.threads].
    rewrite L. change (uint32 security.argonKeyLen) with security.argonKeyLen.
    rewrite K. now rewrite (proj2 (ConstantTimeCompare_eq key key) eq_refl).
Qed.

Lemma VerifyPassword_accepts_own_hash_witness :
  secspec.scans_own_params /\ secspec.derives_key
  /\ exists encoded,
       security.HashPassword "sekret" (inr (fun n => byte.of_Z (Z.of_nat n)))
       = Returns (encoded, None)
       /\ security.VerifyPassword encoded "sekret" = Returns (true, None)
       /\ (String.eqb encoded "" = String.eqb "sekret" "").
Proof.
  split; [exact toy_scans_own_params|]. split; [exact toy_derives_key|].
  exact (VerifyPassword_accepts_own_hash toy_scans_own_params toy_derives_key
           "sekret" (fun n => byte.of_Z (Z.of_nat n))).
Defined.

(** X3.  A wrong password is rejected, unless argon2 derives the same key
    from it: [VerifyPassword] of the hash stored for one password and of
    another password returns false without error when the key derived
    from the other password (with the stored salt and parameters) differs
    from the stored key, and true when it is the same.  The empty stored
    hash, which [HashPassword] returns for the empty password, accepts the
    empty password only. *)
Theorem VerifyPassword_rejects_other_key `{Crypto} :
  secspec.scans_own_params ->
  forall (salt key : bytes) (password : string),
    Z.of_nat (length key) = security.argonKeyLen ->
    security.VerifyPassword (security.encodeHash salt key) password
    = match argon2_IDKey (bytes_of_string password) salt security.argonTime
              security.argonMemory security.argonThreads security.argonKeyLen with
      | httpserver.Returns key' => Returns (bytes_eqb key' key, None)
      | httpserver.Panics m => Panics m
      end
    /\ security.VerifyPassword "" password = Returns (String.eqb password "", None).
Proof.
  intros scans salt key password L. split; [|reflexivity].
  unfold security.VerifyPassword.
  rewrite encodeHash_not_empty, decodeHash_encodeHash_eq by exact scans.
  cbn [security.time security.memory security.threads].
  rewrite L. change (uint32 security.argonKeyLen) with security.argonKeyLen.
  destruct (argon2_IDKey _ _ _ _ _ _) as [key'|m]; [|reflexivity].
  f_equal. f_equal.
  destruct (Z.eqb_spec (subtle_ConstantTimeCompare key' key) 1) as [E|E].
  - apply ConstantTimeCompare_eq in E. subst. now rewrite bytes_eqb_refl.
  - rewrite bytes_eqb_neq; [reflexivity|].
    intros X. apply E. now apply ConstantTimeCompare_eq.
Qed.

Lemma VerifyPassword_rejects_other_key_witness :
  let salt := bytes_of_string "0123456789abcdef" in
  let key := bytes_of_string "0123456789abcdef0123456789abcdef" in
  secspec.scans_own_params
  /\ Z.of_nat (length key) = security.argonKeyLen
  /\ security.VerifyPassword (security.encodeHash salt key) "nope"
     = Returns (false, None).
Proof.
  intros salt key.
  split; [exact toy_scans_own_params|]. split; [reflexivity|].
  exact (proj1 (VerifyPassword_rejects_other_key toy_scans_own_params salt key "nope"
                  eq_refl)).
Defined.

(** X4.  What [decodeHash] accepts.  It succeeds exactly when the string
    has six fields between dollar signs, the second is "argon2id", the
    fourth scans as three integers, all positive and the thread count at
    most 255, and the last two are unpadded base64.  The first field and
    the version field are never looked at.  The thread count is returned
    as scanned; the memory and the number of rounds are converted to
    32 bits after the check for positive values, so that a scanned number
    of rounds that is a multiple of 2^32 comes back as 0. *)
Theorem decodeHash_accepts `{Crypto} (encoded : string)
  (params : security.argonParams) (salt hash : bytes) :
  let parts := strings_Split encoded "$" in
  (security.decodeHash encoded = inr (params, salt, hash) <->
   length parts = 6%nat /\ nth 1 parts "" = "argon2id"
   /\ exists m t p,
        fmt_Sscanf (nth 3 parts "") = inr (m, t, p)
        /\ 0 < m /\ 0 < t /\ 0 < p <= 255
        /\ params = security.mkParams (t mod 2 ^ 32) (m mod 2 ^ 32) p
        /\ base64.DecodeString (nth 4 parts "") = inr salt
        /\ base64.DecodeString (nth 5 parts "") = inr hash)
  /\ forall first first' version version' rest,
       occurs "$" first = false -> occurs "$" first' = false ->
       occurs "$" version = false -> occurs "$" version' = false ->
       security.decodeHash (first ++ "$argon2id$" ++ version ++ "$" ++ rest)
       = security.decodeHash (first' ++ "$argon2id$" ++ version' ++ "$" ++ rest).
Proof.
  intros parts. split.
  - unfold security.decodeHash. fold parts.
    destruct (Nat.eqb_spec (length parts) 6) as [L|L]; simpl;
      [|split; [discriminate|intros [? _]; contradiction]].
    destruct (String.eqb_spec (nth 1 parts "") "argon2id") as [A|A]; simpl;
      [|split; [discriminate|intros (_ & ? & _); contradiction]].
    destruct (fmt_Sscanf (nth 3 parts "")) as [err|[[m t] p]];
      [split; [discriminate|intros (_ & _ & ? & ? & ? & ? & _); discriminate]|].
    destruct (Z.leb_spec m 0) as [Hm|Hm]; simpl;
      [split; [discriminate|intros (_ & _ & ? & ? & ? & [= -> -> ->] & ?); lia]|].
    destruct (Z.leb_spec t 0) as [Ht|Ht]; simpl;
      [split; [discriminate|intros (_ & _ & ? & ? & ? & [= -> -> ->] & ?); lia]|].
    destruct (Z.leb_spec p 0) as [Hp|Hp]; simpl;
      [split; [discriminate|intros (_ & _ & ? & ? & ? & [= -> -> ->] & ?); lia]|].
    rewrite Z.gtb_ltb. destruct (Z.ltb_spec 255 p) as [Hq|Hq];
      [split; [discriminate|intros (_ & _ & ? & ? & ? & [= -> -> ->] & ?); lia]|].
    assert (U : uint8 p = p) by (unfold uint8; apply Z.mod_small; lia).
    unfold uint32. rewrite U.
    destruct (base64.DecodeString (nth 4 parts "")) as [n|salt'];
      [split; [discriminate|
               intros (_ & _ & ? & ? & ? & _ & _ & _ & _ & _ & ? & _); discriminate]|].
    destruct (base64.DecodeString (nth 5 parts "")) as [n|hash'];
      [split; [discriminate|
               intros (_ & _ & ? & ? & ? & _ & _ & _ & _ & _ & _ & ?); discriminate]|].
    split.
    + intros [= <- <- <-]. repeat split; auto. exists m, t, p. repeat split; auto; lia.
    + intros (_ & _ & m' & t' & p' & [= -> -> ->] & _ & _ & _ & -> & [= ->] & [= ->]).
      reflexivity.
  - intros first first' version version' rest O1 O2 O3 O4.
    unfold security.decodeHash.
    change (first ++ "$argon2id$" ++ version ++ "$" ++ rest)
      with (first ++ String "$" ("argon2id" ++ String "$" (version ++ String "$" rest))).
    change (first' ++ "$argon2id$" ++ version' ++ "$" ++ rest)
      with (first' ++ String "$" ("argon2id" ++ String "$" (version' ++ String "$" rest))).
    rewrite !Split_app by (assumption || reflexivity).
    reflexivity.
Qed.

Lemma decodeHash_accepts_witness :
  security.decodeHash "$argon2id$v=19$m=65536,t=4294967296,p=1$c2FsdA$aGFzaA"
  = inr (security.mkParams 0 65536 1, bytes_of_string "salt", bytes_of_string "hash").
Proof.
  apply (proj1 (decodeHash_accepts
                  "$argon2id$v=19$m=65536,t=4294967296,p=1$c2FsdA$aGFzaA"
                  (security.mkParams 0 65536 1) (bytes_of_string "salt")
                  (bytes_of_string "hash"))).
  split; [reflexivity|]. split; [reflexivity|].
  exists 65536, 4294967296, 1. repeat split; try reflexivity; lia.
Defined.

(** ** The pages: tables, the index page, the time left *)

Lemma isAllowedSyntax_In v :
  web.isAllowedSyntax v = true <-> In v web.syntaxWhitelist.
Proof.
  unfold web.isAllowedSyntax. split.
  - destruct (web.syntaxLabels !! v) as [label|] eqn:E; [|discriminate]. intros _.
    apply elem_of_list_to_map_2 in E.
    repeat (apply elem_of_cons in E as [E|E];
            [injection E as -> _; simpl; tauto|]).
    now apply elem_of_nil in E.
  - intros I. simpl in I.
    repeat (destruct I as [<-|I]; [reflexivity|]). contradiction.
Qed.

Ltac case_key k :=
  match goal with
  | |- context [String.eqb k ?x] => destruct (String.eqb_spec k x) as [->|?]
  end.

Lemma expireMap_lookup k :
  web.expireMap !! k =
  if String.eqb k "never" then Some 0
  else if String.eqb k "7d" then Some (7 * 24 * time.Hour)
  else if String.eqb k "1d" then Some (24 * time.Hour)
  else if String.eqb k "1h" then Some time.Hour
  else if String.eqb k "10m" then Some (10 * time.Minute)
  else None.
Proof.
  unfold web.expireMap. cbn [fold_left web.expireChoices expireOption.Value
                              expireOption.Duration].
  repeat (case_key k;
          [now rewrite ?fin_maps.lookup_insert_ne, ?fin_maps.lookup_insert_eq
             by discriminate|
           rewrite fin_maps.lookup_insert_ne by congruence]).
  apply lookup_empty.
Qed.

(** X5.  The tables of the pages agree.  A syntax is allowed exactly when
    it is one of the fifteen names of [syntaxWhitelist], which are
    distinct, and each of them has a label of its own in [syntaxLabels]
    that is not empty, so that [syntaxLabel] never falls back to
    capitalising the name of an allowed syntax.  [expireMap] holds exactly
    the values of [expireChoices] with their durations; none is negative,
    only "never" has none, and the default "7d" is among them. *)
Theorem page_tables_agree `{Web} (v : string) :
  (web.isAllowedSyntax v = true <-> In v web.syntaxWhitelist)
  /\ (In v web.syntaxWhitelist ->
      web.syntaxLabels !! v = Some (web.syntaxLabel v) /\ web.syntaxLabel v <> "")
  /\ List.NoDup web.syntaxWhitelist
  /\ (forall d, web.expireMap !! v = Some d <->
                In (v, d) (List.map (fun c => (expireOption.Value c, expireOption.Duration c))
                             web.expireChoices))
  /\ (forall d, web.expireMap !! v = Some d -> 0 <= d /\ (d = 0 <-> v = "never"))
  /\ web.expireMap !! web.defaultExpire = Some (7 * 24 * time.Hour).
Proof.
  split; [apply isAllowedSyntax_In|]. split; [|split; [|split; [|split]]].
  - intros I. simpl in I. unfold web.syntaxLabel.
    repeat (destruct I as [<-|I]; [split; [reflexivity|discriminate]|]). contradiction.
  - repeat (constructor; [simpl; intros I;
                          repeat (destruct I as [I|I]; [discriminate|]); contradiction|]).
    constructor.
  - intros d. rewrite expireMap_lookup. simpl.
    repeat (case_key v;
            [split; [intros [= <-]; tauto|
                     intros I; repeat (destruct I as [I|I]; [injection I as I; try discriminate; now subst|]);
                     contradiction]|]).
    split; [discriminate|].
    intros I. repeat (destruct I as [I|I]; [injection I as I _; congruence|]).
    contradiction.
  - intros d. rewrite expireMap_lookup.
    repeat (case_key v;
            [intros [= <-]; split; [vm_compute; discriminate|
                                    split; [try discriminate; reflexivity|
                                            try discriminate; reflexivity]]|]).
    discriminate.
  - now rewrite expireMap_lookup.
Qed.

(** X6.  What the index page is given.  Whatever syntax the form held,
    the page gets an allowed one ("plaintext" when the submitted one is
    empty or not allowed), the options are the names of the whitelist in
    its order, and exactly one of them is selected, the syntax of the
    page.  The expiry is not checked against the choices: an empty one
    becomes the default, any other is kept, and when it is none of the
    choices no option is selected.  Content, message and limit are passed
    on as they are. *)
Theorem indexData_selection `{Web} (s : web.Server)
  (selectedSyntax selectedExpire content errMsg : string) :
  let d := web.indexData s selectedSyntax selectedExpire content errMsg in
  In (indexPageData.Syntax d) web.syntaxWhitelist
  /\ indexPageData.Syntax d
     = (if web.isAllowedSyntax selectedSyntax then selectedSyntax else "plaintext")
  /\ List.map option_.Value (indexPageData.SyntaxOptions d) = web.syntaxWhitelist
  /\ List.map option_.Value (List.filter option_.Selected (indexPageData.SyntaxOptions d))
     = [indexPageData.Syntax d]
  /\ indexPageData.Expire d
     = (if String.eqb selectedExpire "" then web.defaultExpire else selectedExpire)
  /\ List.map option_.Value (indexPageData.ExpireOptions d)
     = List.map expireOption.Value web.expireChoices
  /\ List.map option_.Value (List.filter option_.Selected (indexPageData.ExpireOptions d))
     = match web.expireMap !! indexPageData.Expire d with
       | Some _ => [indexPageData.Expire d]
       | None => []
       end
  /\ indexPageData.Content d = content
  /\ indexPageData.Error d = errMsg
  /\ indexPageData.MaxBytes d = web.maxBytes s.
Proof.
  intros d.
  assert (E : indexPageData.Syntax d
              = if web.isAllowedSyntax selectedSyntax then selectedSyntax else "plaintext").
  { subst d. unfold web.indexData. cbn [indexPageData.Syntax].
    destruct (String.eqb_spec selectedSyntax "") as [->|N]; [reflexivity|].
    now destruct (web.isAllowedSyntax selectedSyntax). }
  assert (I : In (indexPageData.Syntax d) web.syntaxWhitelist).
  { rewrite E. destruct (web.isAllowedSyntax selectedSyntax) eqn:A.
    - now apply isAllowedSyntax_In.
    - simpl. tauto. }
  split; [exact I|]. split; [exact E|].
  assert (O : indexPageData.SyntaxOptions d
              = List.map (fun v => option_.mk v (web.syntaxLabel v)
                                     (String.eqb v (indexPageData.Syntax d)))
                  web.syntaxWhitelist).
  { subst d. unfold web.indexData. reflexivity. }
  split; [|split; [|split; [|split; [|split]]]].
  - rewrite O. reflexivity.
  - rewrite O. clear E O. revert I. generalize (indexPageData.Syntax d) as syn.
    intros syn I. simpl in I.
    repeat (destruct I as [<-|I]; [reflexivity|]). contradiction.
  - reflexivity.
  - reflexivity.
  - subst d. unfold web.indexData.
    cbn [indexPageData.ExpireOptions indexPageData.Expire].
    generalize (if String.eqb selectedExpire "" then web.defaultExpire
                else selectedExpire) as e.
    intros e. rewrite expireMap_lookup. cbn [web.expireChoices List.map expireOption.Value
      expireOption.Label List.filter option_.Selected option_.Value].
    rewrite !(String.eqb_sym _ e).
    repeat (case_key e; [reflexivity|]).
    reflexivity.
  - repeat split.
Qed.

Lemma remaining_parts_step d name units dur parts :
  0 < d -> 0 <= dur ->
  web.remaining_parts ((d, name) :: units) dur parts
  = web.remaining_parts units (dur mod d) (parts ++ webspec.counted (dur / d) name).
Proof.
  intros Hd Hdur. cbn [web.remaining_parts]. unfold webspec.counted.
  rewrite Z.geb_leb. destruct (Z.leb_spec d dur) as [G|L].
  - cbv zeta. rewrite Z.quot_div_nonneg by lia.
    assert (Q : 0 < dur / d) by (apply Z.div_str_pos; lia).
    destruct (Z.eqb_spec (dur / d) 0); [lia|].
    f_equal. rewrite Z.mod_eq by lia. lia.
  - rewrite Z.div_small, Z.mod_small by lia. simpl. now rewrite app_nil_r.
Qed.

Lemma time_Sub_not_after expires now :
  time.After now expires = false ->
  time_Sub expires now = Z.min maxDuration (time.instant expires - time.instant now)
  /\ 0 <= time_Sub expires now.
Proof.
  unfold time.After, time_Sub, minDuration, maxDuration. intros A.
  apply Z.ltb_ge in A. lia.
Qed.

(** X7.  What [remaining] prints.  "Never" for a paste that does not
    expire and "Expired" once the clock is past the expiry.  Otherwise,
    with the time left (the largest duration when the difference does not
    fit one): "Less than a second" below one second; the whole seconds
    below one minute; and from one minute on the days, hours and minutes
    of the time left, in this order and separated by commas, a unit left
    out when its count is zero, the unit in the plural unless its count is
    one -- the seconds are dropped then. *)
Theorem remaining_spells_time_left `{Web} (expires now : time.Time) :
  let dur := Z.min maxDuration (time.instant expires - time.instant now) in
  web.remaining expires now =
  if time.IsZero expires then "Never"
  else if time.After now expires then "Expired"
  else if dur <? time.Second then "Less than a second"
  else if dur <? time.Minute then
    if Seconds_int dur <=? 1 then "1 second" else fmt_d (Seconds_int dur) ++ " seconds"
  else
    strings_Join
      (webspec.counted (dur / webspec.Day) "day"
       ++ webspec.counted (dur mod webspec.Day / time.Hour) "hour"
       ++ webspec.counted (dur mod time.Hour / time.Minute) "minute")
      ", ".
Proof.
  intros dur. unfold web.remaining.
  destruct (time.IsZero expires); [reflexivity|].
  destruct (time.After now expires) eqn:A; [reflexivity|].
  destruct (time_Sub_not_after _ _ A) as [E N]. fold dur in E. rewrite E in *. clear E.
  destruct (Z.ltb_spec dur time.Second) as [L|G]; [reflexivity|].
  rewrite (remaining_parts_step (time.Hour * 24)) by first [reflexivity|lia].
  rewrite (remaining_parts_step time.Hour)
    by first [reflexivity|apply Z.mod_pos_bound; reflexivity].
  rewrite (remaining_parts_step time.Minute)
    by first [reflexivity|apply Z.mod_pos_bound; reflexivity].
  cbn [web.remaining_parts app].
  change (time.Hour * 24) with webspec.Day.
  assert (M1 : (dur mod webspec.Day) mod time.Hour = dur mod time.Hour).
  { apply Z.mod_mod_divide. exists 24. reflexivity. }
  rewrite M1.
  assert (B1 : 0 <= dur mod webspec.Day < webspec.Day) by (apply Z.mod_pos_bound; reflexivity).
  assert (B2 : 0 <= dur mod time.Hour < time.Hour) by (apply Z.mod_pos_bound; reflexivity).
  destruct (Z.ltb_spec dur time.Minute) as [Lm|Gm].
  - assert (S1 : time.Minute < time.Hour) by reflexivity.
    assert (S2 : time.Hour < webspec.Day) by reflexivity.
    rewrite (Z.div_small dur webspec.Day), (Z.mod_small dur webspec.Day) by lia.
    rewrite (Z.div_small dur time.Hour), (Z.mod_small dur time.Hour) by lia.
    rewrite (Z.div_small dur time.Minute), (Z.mod_small dur time.Minute) by lia.
    reflexivity.
  - rewrite <- !List.app_assoc.
    set (parts := (_ ++ _ ++ _)%list).
    assert (P : parts <> []).
    { subst parts. unfold webspec.counted.
      destruct (Z.eqb_spec (dur / webspec.Day) 0) as [D0|]; [|discriminate].
      destruct (Z.eqb_spec (dur mod webspec.Day / time.Hour) 0) as [H0'|]; [|discriminate].
      destruct (Z.eqb_spec (dur mod time.Hour / time.Minute) 0) as [M0|]; [|discriminate].
      exfalso.
      assert (Dd : 0 < webspec.Day) by reflexivity.
      assert (Dh : 0 < time.Hour) by reflexivity.
      assert (Dm : 0 < time.Minute) by reflexivity.
      assert (L1 : dur < webspec.Day).
      { destruct (Z.lt_ge_cases dur webspec.Day) as [|C]; [assumption|].
        pose proof (Z.div_str_pos dur webspec.Day). lia. }
      rewrite (Z.mod_small dur webspec.Day) in H0' by lia.
      assert (L2 : dur < time.Hour).
      { destruct (Z.lt_ge_cases dur time.Hour) as [|C]; [assumption|].
        pose proof (Z.div_str_pos dur time.Hour). lia. }
      rewrite (Z.mod_small dur time.Hour) in M0 by lia.
      pose proof (Z.div_str_pos dur time.Minute). lia. }
    destruct parts; [contradiction|reflexivity].
Qed.

(** ** The handlers *)

Section HandlerFacts.
Context {web_lib : Web} {crypto_lib : Crypto} {S : Type} {store_impl : storage.Store S}.

Lemma fetchPaste_expired ctx id now (store : S) paste :
  storage.Get ctx id store = (Some paste, None) ->
  time.IsZero (ExpiresAt paste) = false ->
  time.After now (ExpiresAt paste) = true ->
  web.fetchPaste ctx id now store = Returns (inl ErrNotFound).
Proof.
  intros G Z A. unfold web.fetchPaste. now rewrite G, Z, A.
Qed.

Lemma fetchPaste_current ctx id now (store : S) paste :
  storage.Get ctx id store = (Some paste, None) ->
  time.IsZero (ExpiresAt paste) = true \/ time.After now (ExpiresAt paste) = false ->
  web.fetchPaste ctx id now store = Returns (inr paste).
Proof.
  intros G C. unfold web.fetchPaste. rewrite G.
  destruct (time.IsZero (ExpiresAt paste)); [reflexivity|].
  destruct C as [C|C]; [discriminate|]. now rewrite C.
Qed.

(** What [fetchPaste] returns when it returns a paste. *)
Lemma fetchPaste_inr ctx id now (store : S) paste :
  web.fetchPaste ctx id now store = Returns (inr paste) ->
  storage.Get ctx id store = (Some paste, None)
  /\ (time.IsZero (ExpiresAt paste) = true \/ time.After now (ExpiresAt paste) = false).
Proof.
  unfold web.fetchPaste.
  destruct (storage.Get ctx id store) as [[p|] [err|]].
  - destruct err; discriminate.
  - destruct (time.IsZero (ExpiresAt p)) eqn:Z.
    + intros [= ->]. auto.
    + destruct (time.After now (ExpiresAt p)) eqn:A; [discriminate|].
      intros [= ->]. auto.
  - destruct err; discriminate.
  - discriminate.
Qed.

End HandlerFacts.

(** X8.  A paste whose expiry has passed is answered like one that is not
    there, whether or not the janitor has swept it: when the store still
    returns the record and the clock is past its expiry, [fetchPaste]
    returns [ErrNotFound], and the view, raw, QR and password handlers all
    answer with the not-found page (status 404) and leave store and log
    as the rendering of that page leaves them -- whatever the cookies and
    the password of the request.  At the instant of the expiry itself the
    paste is still served. *)
Theorem expired_paste_is_not_served
  {web_lib : Web} {crypto_lib : Crypto} {S : Type} {store_impl : storage.Store S}
  (s : web.Server) (r : http.Request) (now now' : time.Time) (store : S)
  (logger : option web.Logger) (paste : Paste) :
  storage.Get (http.Context r) (http.URLParam r "id") store = (Some paste, None) ->
  time.IsZero (ExpiresAt paste) = false ->
  (time.After now (ExpiresAt paste) = true ->
   web.fetchPaste (http.Context r) (http.URLParam r "id") now store
   = Returns (inl ErrNotFound)
   /\ web.handleView s r now now' store logger = web.reply store (web.notFound logger)
   /\ web.handleRaw s r now store logger = web.reply store (web.notFound logger)
   /\ web.handleQR s r now store logger = web.reply store (web.notFound logger)
   /\ (http.ParseForm r = None ->
       web.handlePassword s r now now' store logger
       = web.reply store (web.notFound logger))
   /\ forall w store' logger',
        web.reply store (web.notFound logger) = Returns (w, store', logger') ->
        http.Code w = http.StatusNotFound /\ store' = store)
  /\ (time.instant now <= time.instant (ExpiresAt paste) ->
      web.fetchPaste (http.Context r) (http.URLParam r "id") now store
      = Returns (inr paste)).
Proof.
  intros G Z. split.
  - intros A. pose proof (fetchPaste_expired _ _ _ _ _ G Z A) as F.
    split; [exact F|].
    unfold web.handleView, web.handleRaw, web.handleQR, web.handlePassword.
    rewrite F. unfold web.fetch_failed.
    change (errors_Is ErrNotFound ErrNotFound) with true. cbv iota.
    split; [reflexivity|]. split; [reflexivity|]. split; [reflexivity|].
    split; [intros ->; reflexivity|].
    intros w store' logger'. unfold web.reply, web.notFound, web.render, web.handleTemplateError.
    destruct (ExecuteTemplate _ _) as [?|body]; simpl.
    + intros [= <- <- <-]. auto.
    + destruct (ExecuteTemplate _ _) as [?|layout]; simpl; intros [= <- <- <-]; auto.
  - intros L. apply fetchPaste_current; [exact G|]. right.
    unfold time.After. apply Z.ltb_ge. exact L.
Qed.

Section CreateFacts.
Context {web_lib : Web} {crypto_lib : Crypto} {S : Type} {store_impl : storage.Store S}.

(** [render] answers with the status it is given, whether or not the
    templates execute. *)
Lemma render_Code logger status name data :
  http.Code (web.render logger status name data).1 = status.
Proof.
  unfold web.render, web.handleTemplateError.
  destruct (ExecuteTemplate _ _) as [?|body]; [reflexivity|].
  destruct (ExecuteTemplate _ _) as [?|layout]; reflexivity.
Qed.

Lemma reply_render_Code (store : S) logger status name data w store' logger' :
  web.reply store (web.render logger status name data) = Returns (w, store', logger') ->
  http.Code w = status /\ store' = store.
Proof.
  unfold web.reply. intros [= <- <- <-]. split; [apply render_Code|reflexivity].
Qed.

Lemma serverError_Code (store : S) logger err w store' logger' :
  web.reply store (web.serverError logger err) = Returns (w, store', logger') ->
  http.Code w = http.StatusInternalServerError /\ store' = store.
Proof. apply reply_render_Code. Qed.

End CreateFacts.

(** X9.  [handleCreate] refuses a form it does not accept before it does
    anything else.  When the form does not parse, or the content is empty
    or longer than the limit of the server, or the syntax is not in the
    whitelist, or the expiry is none of the choices, it answers with
    status 400 and leaves the store as it was; no identifier is drawn, no
    password hashed and the clock not read: the answer is the same
    whatever they would have given. *)
Theorem handleCreate_rejects
  {web_lib : Web} {crypto_lib : Crypto} {S : Type} {store_impl : storage.Store S}
  (s : web.Server) (r : http.Request) (source : Entropy)
  (gonanoid_New : Z -> string * option error) (now : time.Time) (store : S)
  (logger : option web.Logger) :
  ~ webspec.acceptable s r ->
  (exists w logger',
     web.handleCreate s r source gonanoid_New now store logger
     = Returns (w, store, logger')
     /\ http.Code w = http.StatusBadRequest)
  /\ forall source' gonanoid_New' now',
       web.handleCreate s r source' gonanoid_New' now' store logger
       = web.handleCreate s r source gonanoid_New now store logger.
Proof.
  intros NA. unfold web.handleCreate.
  assert (B : forall a b c d,
            exists w logger',
              web.reply store
                (web.render logger http.StatusBadRequest "index"
                   (index_page (web.indexData s a b c d)))
              = Returns (w, store, logger')
              /\ http.Code w = http.StatusBadRequest).
  { intros. eexists _, _. split; [reflexivity|apply render_Code]. }
  destruct (http.ParseForm r) as [err|] eqn:P; [split; [apply B|reflexivity]|].
  cbv zeta. fold (webspec.expire_of r).
  destruct (Z.eqb_spec (Z.of_nat (String.length (http.FormValue r "content"))) 0)
    as [E|E]; [split; [apply B|reflexivity]|].
  rewrite Z.gtb_ltb.
  destruct (Z.ltb_spec (web.maxBytes s)
              (Z.of_nat (String.length (http.FormValue r "content"))))
    as [L|L]; [split; [apply B|reflexivity]|].
  destruct (web.isAllowedSyntax (http.FormValue r "syntax")) eqn:A;
    [|split; [apply B|reflexivity]].
  cbn [negb].
  destruct (web.expireMap !! webspec.expire_of r) as [duration|] eqn:M;
    [|split; [apply B|reflexivity]].
  exfalso. apply NA. split; [exact P|]. split; [lia|].
  split; [now apply isAllowedSyntax_In|]. exists duration. exact M.
Qed.

(** What [handleCreate] has done when it redirects. *)
Lemma handleCreate_redirect_inv
  {web_lib : Web} {crypto_lib : Crypto} {S : Type} {store_impl : storage.Store S}
  (s : web.Server) (r : http.Request) (source : Entropy)
  (gonanoid_New : Z -> string * option error) (now : time.Time) (store : S)
  (logger : option web.Logger) (w : http.Response) (store' : S)
  (logger' : option web.Logger) :
  web.handleCreate s r source gonanoid_New now store logger = Returns (w, store', logger') ->
  http.Code w = http.StatusSeeOther ->
  webspec.acceptable s r
  /\ exists id hashed duration,
       w = http.Redirect [] ("/p/" ++ id) http.StatusSeeOther
       /\ logger' = logger
       /\ web.expireMap !! webspec.expire_of r = Some duration
       /\ idgen.Generate (web.idGen s) (http.Context r) gonanoid_New = (id, None)
       /\ (if String.eqb (strings_TrimSpace (http.FormValue r "password")) ""
           then hashed = ""
           else security.HashPassword (http.FormValue r "password") source
                = Returns (hashed, None))
       /\ (storage.Save (http.Context r)
             (Some (webspec.new_paste r id hashed duration now)) store).1
          = (None, store').
Proof.
  unfold web.handleCreate.
  assert (B : forall status name data,
            web.reply store (web.render logger status name data)
            = Returns (w, store', logger') ->
            http.Code w = http.StatusSeeOther -> status = http.StatusSeeOther).
  { intros status name data R C. apply reply_render_Code in R as [R _]. congruence. }
  assert (E5 : forall st lg err,
            web.reply st (web.serverError lg err) = Returns (w, store', logger') ->
            http.Code w = http.StatusSeeOther -> False).
  { intros st lg err R C. apply serverError_Code in R as [R _].
    rewrite R in C. discriminate. }
  destruct (http.ParseForm r) as [err|] eqn:P;
    [intros R C; now specialize (B _ _ _ R C)|].
  cbv zeta. fold (webspec.expire_of r).
  destruct (Z.eqb_spec (Z.of_nat (String.length (http.FormValue r "content"))) 0)
    as [E|E]; [intros R C; now specialize (B _ _ _ R C)|].
  rewrite Z.gtb_ltb.
  destruct (Z.ltb_spec (web.maxBytes s)
              (Z.of_nat (String.length (http.FormValue r "content"))))
    as [L|L]; [intros R C; now specialize (B _ _ _ R C)|].
  destruct (web.isAllowedSyntax (http.FormValue r "syntax")) eqn:A;
    [|intros R C; now specialize (B _ _ _ R C)].
  cbn [negb].
  destruct (web.expireMap !! webspec.expire_of r) as [duration|] eqn:M;
    [|intros R C; now specialize (B _ _ _ R C)].
  intros R C.
  assert (Acc : webspec.acceptable s r).
  { split; [exact P|]. split; [lia|]. split; [now apply isAllowedSyntax_In|].
    exists duration. exact M. }
  split; [exact Acc|].
  assert (K : exists hashed,
             (if String.eqb (strings_TrimSpace (http.FormValue r "password")) ""
              then hashed = ""
              else security.HashPassword (http.FormValue r "password") source
                   = Returns (hashed, None))
             /\ match idgen.Generate (web.idGen s) (http.Context r) gonanoid_New with
                | (_, Some err) => web.reply store (web.serverError logger err)
                | (id, None) =>
                    match storage.Save (http.Context r)
                            (Some (webspec.new_paste r id hashed duration now)) store with
                    | (Some (runtime_panic m), _, _) => Panics m
                    | (Some err, store, _) => web.reply store (web.serverError logger err)
                    | (None, store, _) =>
                        Returns (http.Redirect [] ("/p/" ++ id) http.StatusSeeOther,
                                 store, logger)
                    end
                end = Returns (w, store', logger')).
  { destruct (String.eqb (strings_TrimSpace (http.FormValue r "password")) "");
      cbn [negb] in R.
    - exists "". split; [reflexivity|exact R].
    - destruct (security.HashPassword _ _) as [[hashed [err|]]|m]; try discriminate.
      + exfalso. eapply E5; eauto.
      + exists hashed. split; [reflexivity|exact R]. }
  clear R. destruct K as (hashed & Hh & R).
  destruct (idgen.Generate _ _ _) as [id [err|]] eqn:G;
    [exfalso; eapply E5; eauto|].
  destruct (storage.Save _ _ _) as [[[err|] st] p] eqn:Sv.
  - exfalso. destruct err; try discriminate; eapply E5; eauto.
  - injection R as <- <- <-.
    exists id, hashed, duration. repeat split; auto.
    now rewrite Sv.
Qed.

(** X10.  What [handleCreate] has done when it redirects.  A response
    with status 303 is the redirect to the page of the new paste, and then
    the form was acceptable, the identifier came from the generator
    without error, and [Save] of the store succeeded on the record built
    from the form: the content and the syntax of the form, the size the
    number of bytes of the content, [CreatedAt] the clock in UTC,
    [ExpiresAt] that time plus the duration chosen, or zero for "never",
    and the hash of the password, which is empty when the password is
    blank.  The store is as that [Save] left it, the log as it was, and no
    cookie is set. *)
Theorem handleCreate_saves
  {web_lib : Web} {crypto_lib : Crypto} {S : Type} {store_impl : storage.Store S}
  (s : web.Server) (r : http.Request) (source : Entropy)
  (gonanoid_New : Z -> string * option error) (now : time.Time) (store : S)
  (logger : option web.Logger) (w : http.Response) (store' : S)
  (logger' : option web.Logger) :
  web.handleCreate s r source gonanoid_New now store logger = Returns (w, store', logger') ->
  http.Code w = http.StatusSeeOther ->
  webspec.acceptable s r
  /\ exists id hashed duration,
       w = http.Redirect [] ("/p/" ++ id) http.StatusSeeOther
       /\ logger' = logger
       /\ web.expireMap !! webspec.expire_of r = Some duration
       /\ idgen.Generate (web.idGen s) (http.Context r) gonanoid_New = (id, None)
       /\ (if String.eqb (strings_TrimSpace (http.FormValue r "password")) ""
           then hashed = ""
           else security.HashPassword (http.FormValue r "password") source
                = Returns (hashed, None))
       /\ (storage.Save (http.Context r)
             (Some (webspec.new_paste r id hashed duration now)) store).1
          = (None, store').
Proof.
  intros R C.
  destruct (handleCreate_redirect_inv s r source gonanoid_New now store logger
              w store' logger' R C)
    as (Acc & id & hashed & duration & Hw & Hl & Hd & Hg & Hh & Hs).
  split; [exact Acc|].
  exists id, hashed, duration. repeat split; assumption.
Qed.

(** ** Access to a paste with a password *)

Section AuthFacts.
Context {web_lib : Web} {crypto_lib : Crypto} {S : Type} {store_impl : storage.Store S}.

(** A signature verifies exactly when it is the one the server computes. *)
Lemma verifySignature_eq s id sig :
  web.verifySignature s id sig = true <-> sig = web.signValue s id.
Proof.
  unfold web.verifySignature. cbv zeta.
  destruct (Nat.eqb_spec (String.length (web.signValue s id)) (String.length sig))
    as [L|L]; simpl.
  - rewrite Z.eqb_eq, ConstantTimeCompare_eq. split.
    + intros E. now apply bytes_of_string_inj in E.
    + now intros ->.
  - split; [discriminate|]. intros ->. contradiction.
Qed.

Lemma hasAuth_eq s r id :
  web.hasAuth s r id = true <->
  http.Cookie_ (http.Cookies r) ("auth_" ++ id) = Some (web.signValue s id).
Proof.
  unfold web.hasAuth, web.authCookieName.
  destruct (http.Cookie_ _ _) as [value|].
  - rewrite verifySignature_eq. split; [now intros ->|now intros [= ->]].
  - split; discriminate.
Qed.

(** The test of the handlers before they show a paste. *)
Lemma protected_eq s r paste :
  negb (String.eqb (PasswordHash paste) "") && negb (web.hasAuth s r (ID paste)) = false
  <-> webspec.authorized s r paste.
Proof.
  unfold webspec.authorized. rewrite <- hasAuth_eq.
  destruct (String.eqb_spec (PasswordHash paste) "") as [E|E]; simpl.
  - tauto.
  - destruct (web.hasAuth s r (ID paste)); simpl; intuition congruence.
Qed.

Lemma fetch_failed_Code (store : S) logger err w store' logger' :
  web.fetch_failed store logger err = Returns (w, store', logger') ->
  (http.Code w = http.StatusNotFound \/ http.Code w = http.StatusInternalServerError)
  /\ store' = store.
Proof.
  unfold web.fetch_failed. destruct (errors_Is err ErrNotFound); intros R.
  - apply reply_render_Code in R. tauto.
  - apply serverError_Code in R. tauto.
Qed.

End AuthFacts.

(** X11.  The content of a paste, and its QR code, are served only to a
    request that may see it.  When the raw handler answers with status
    200, the store holds a record under the id of the request, the record
    has not expired, and either it has no password or the first cookie of
    the request named "auth_" and the id of the record holds the signature
    of the server for that id; the body is then the content of that
    record, with its ETag, and store and log are untouched.  The same
    holds of the QR handler, whose body is the image of the canonical URL.
    In every other case the status is 304, 404 or 500. *)
Theorem content_needs_authorization
  {web_lib : Web} {crypto_lib : Crypto} {S : Type} {store_impl : storage.Store S}
  (s : web.Server) (r : http.Request) (now : time.Time) (store : S)
  (logger : option web.Logger) (w : http.Response) (store' : S)
  (logger' : option web.Logger) :
  (web.handleRaw s r now store logger = Returns (w, store', logger') ->
   (http.Code w = http.StatusOK ->
    exists paste,
      storage.Get (http.Context r) (http.URLParam r "id") store = (Some paste, None)
      /\ webspec.current now paste
      /\ webspec.authorized s r paste
      /\ w = http.Written http.StatusOK
               [("Content-Type", "text/plain; charset=utf-8");
                ("Cache-Control", "private, max-age=60");
                ("ETag", web.etagFor (Content paste))]
               (Content paste)
      /\ store' = store /\ logger' = logger)
   /\ In (http.Code w) [http.StatusOK; http.StatusNotModified; http.StatusNotFound;
                        http.StatusInternalServerError])
  /\ (web.handleQR s r now store logger = Returns (w, store', logger') ->
      (http.Code w = http.StatusOK ->
       exists paste png,
         storage.Get (http.Context r) (http.URLParam r "id") store = (Some paste, None)
         /\ webspec.current now paste
         /\ webspec.authorized s r paste
         /\ qrcode_Encode (web.canonicalURL s r (http.URLParam r "id")) = inr png
         /\ w = http.Written http.StatusOK
                  [("Content-Type", "image/png"); ("Cache-Control", "no-store")]
                  (string_of_bytes png)
         /\ store' = store /\ logger' = logger)
      /\ In (http.Code w) [http.StatusOK; http.StatusNotFound;
                           http.StatusInternalServerError]).
Proof.
  split.
  - unfold web.handleRaw.
    destruct (web.fetchPaste _ _ _ _) as [[err|paste]|m] eqn:F; [| |discriminate].
    + intros R. apply fetch_failed_Code in R as [[R|R] _]; rewrite R; split;
        try discriminate; simpl; tauto.
    + apply fetchPaste_inr in F as [G C].
      destruct (negb _ && negb _) eqn:Pr.
      * intros R. apply reply_render_Code in R as [R _]. rewrite R.
        split; [discriminate|simpl; tauto].
      * apply protected_eq in Pr. cbv zeta.
        destruct (negb _ && String.eqb _ _).
        -- intros [= <- <- <-]. split; [discriminate|simpl; tauto].
        -- intros [= <- <- <-]. split; [|simpl; tauto].
           intros _. exists paste. repeat split; auto.
  - unfold web.handleQR. cbv zeta.
    destruct (web.fetchPaste _ _ _ _) as [[err|paste]|m] eqn:F; [| |discriminate].
    + intros R. apply fetch_failed_Code in R as [[R|R] _]; rewrite R; split;
        try discriminate; simpl; tauto.
    + apply fetchPaste_inr in F as [G C].
      destruct (negb _ && negb _) eqn:Pr.
      * intros R. apply reply_render_Code in R as [R _]. rewrite R.
        split; [discriminate|simpl; tauto].
      * apply protected_eq in Pr.
        destruct (qrcode_Encode _) as [err|png] eqn:Q.
        -- intros R. apply serverError_Code in R as [R _]. rewrite R.
           split; [discriminate|simpl; tauto].
        -- intros [= <- <- <-]. split; [|simpl; tauto].
           intros _. exists paste, png. repeat split; auto.
Qed.

Lemma Cookie_other_names cookies name :
  (forall n v, In (n, v) cookies -> n <> name) -> http.Cookie_ cookies name = None.
Proof.
  induction cookies as [|[n v] cookies IH]; intros A; simpl; [reflexivity|].
  destruct (String.eqb_spec n name) as [E|E].
  - exfalso. apply (A n v); [now left|exact E].
  - apply IH. intros n' v' I. apply (A n' v'). now right.
Qed.

(** X12.  The password of a paste buys a cookie for that paste alone.
    For a stored, current paste with a password and a form that parses:
    when [VerifyPassword] says no, the password handler answers 401 and
    sets no cookie; when it says yes, the handler redirects to the page of
    the paste with one cookie, named "auth_" and the id, bound to the path
    of the paste, not readable by scripts, whose value is the signature of
    the server for the id.  A later request whose first cookie of that
    name has that value passes [hasAuth], and the raw handler then serves
    it the content of the paste; a request that carries only cookies of
    that name passes [hasAuth] for no other id. *)
Theorem password_grants_access
  {web_lib : Web} {crypto_lib : Crypto} {S : Type} {store_impl : storage.Store S}
  (s : web.Server) (r : http.Request) (now now' : time.Time) (store : S)
  (logger : option web.Logger) (paste : Paste) (ok : bool) :
  let id := http.URLParam r "id" in
  let cookie := web.setAuthCookie s r id (ExpiresAt paste) now' in
  http.ParseForm r = None ->
  storage.Get (http.Context r) id store = (Some paste, None) ->
  webspec.current now paste ->
  PasswordHash paste <> "" ->
  security.VerifyPassword (PasswordHash paste) (http.FormValue r "password")
  = Returns (ok, None) ->
  (ok = false ->
   exists w logger',
     web.handlePassword s r now now' store logger = Returns (w, store, logger')
     /\ http.Code w = http.StatusUnauthorized)
  /\ (ok = true ->
      web.handlePassword s r now now' store logger
      = Returns (http.Redirect [cookie] ("/p/" ++ id) http.StatusSeeOther, store, logger))
  /\ http.Name cookie = "auth_" ++ id
  /\ http.Value cookie = web.signValue s id
  /\ http.Path cookie = "/p/" ++ id
  /\ http.HttpOnly cookie = true
  /\ (forall r' : http.Request,
        http.Cookie_ (http.Cookies r') (http.Name cookie) = Some (http.Value cookie) ->
        web.hasAuth s r' id = true
        /\ forall now'',
             http.URLParam r' "id" = id -> http.Context r' = http.Context r ->
             ID paste = id -> webspec.current now'' paste ->
             http.Header r' "If-None-Match" = "" ->
             web.handleRaw s r' now'' store logger
             = Returns (http.Written http.StatusOK
                          [("Content-Type", "text/plain; charset=utf-8");
                           ("Cache-Control", "private, max-age=60");
                           ("ETag", web.etagFor (Content paste))]
                          (Content paste),
                        store, logger))
  /\ (forall (r' : http.Request) (id' : string),
        id' <> id ->
        (forall n v, In (n, v) (http.Cookies r') -> n = http.Name cookie) ->
        web.hasAuth s r' id' = false).
Proof.
  intros id cookie P G C N V.
  assert (F : web.fetchPaste (http.Context r) id now store = Returns (inr paste))
    by (apply fetchPaste_current; assumption).
  assert (NE : String.eqb (PasswordHash paste) "" = false)
    by (now apply String.eqb_neq).
  split; [|split; [|split; [|split; [|split; [|split; [|split]]]]]];
    try reflexivity.
  - intros ->. unfold web.handlePassword. rewrite P. cbv zeta. fold id.
    rewrite F, NE, V. eexists _, _. split; [reflexivity|apply render_Code].
  - intros ->. unfold web.handlePassword. rewrite P. cbv zeta. fold id.
    now rewrite F, NE, V.
  - intros r' Ck. change (http.Name cookie) with ("auth_" ++ id) in Ck.
    change (http.Value cookie) with (web.signValue s id) in Ck.
    assert (A : web.hasAuth s r' id = true) by (now apply hasAuth_eq).
    split; [exact A|].
    intros now'' U X I C' M. unfold web.handleRaw. rewrite U, X.
    rewrite (fetchPaste_current _ _ _ _ _ G C'), NE, I, A, M. reflexivity.
  - intros r' id' D A. unfold web.hasAuth, web.authCookieName.
    rewrite Cookie_other_names; [reflexivity|].
    intros n v I E. specialize (A n v I). change (http.Name cookie) with ("auth_" ++ id) in A.
    rewrite A in E. simpl in E. injection E as E. apply D. symmetry. exact E.
Qed.

(** ** The rate limiter *)

(** X13.  What [Allow] keeps in the map of the limiter.  A nil limiter
    allows everything.  Otherwise the request is counted under its key,
    "unknown" for the empty key, with the limiter the key had or a new one
    of the configured rate and burst, and the answer is that of this
    limiter.  With a positive ttl every entry last seen more than ttl
    before now is deleted and every other entry is kept as it was, so that
    afterwards no entry of the map is older than ttl, and the entry of the
    request itself is always there, seen now.  With a ttl that is not
    positive nothing is ever deleted. *)
Theorem Allow_evicts_stale {web_lib : Web} {rate_lib : web.Rate}
  (rl : web.RateLimiter) (key : string) (now now' : time.Time) :
  let key' := if String.eqb key "" then "unknown" else key in
  let old :=
    match web.clients rl !! key' with
    | Some entry => web.limiter entry
    | None => web.rate_NewLimiter (web.rate rl) (web.burst rl)
    end in
  let answer := web.Limiter_Allow old now' in
  let seen := web.mkClient answer.2 now in
  web.Allow None key now now' = (true, None)
  /\ exists clients',
       web.Allow (Some rl) key now now'
       = (answer.1,
          Some (web.mkRateLimiter (web.rate rl) (web.burst rl) (web.ttl rl) clients'))
       /\ (0 < web.ttl rl ->
           clients' !! key' = Some seen
           /\ (forall k v, k <> key' ->
                 (clients' !! k = Some v <->
                  web.clients rl !! k = Some v
                  /\ time_Sub now (web.lastSeen v) <= web.ttl rl))
           /\ (forall k v, clients' !! k = Some v ->
                 time_Sub now (web.lastSeen v) <= web.ttl rl))
       /\ (web.ttl rl <= 0 -> clients' = <[key' := seen]> (web.clients rl)).
Proof.
  intros key' old answer seen. split; [reflexivity|].
  unfold web.Allow. fold key'.
  assert (O : web.limiter
                match web.clients rl !! key' with
                | Some entry => entry
                | None => web.mkClient (web.rate_NewLimiter (web.rate rl) (web.burst rl))
                            time.zero
                end = old).
  { subst old. now destruct (web.clients rl !! key'). }
  rewrite O. fold answer. destruct answer as [allowed limiter'] eqn:An.
  cbn [fst snd] in *. fold seen.
  assert (Sz : (0 <? Z.of_nat (size (<[key' := seen]> (web.clients rl)))) = true).
  { apply Z.ltb_lt.
    assert (size (<[key' := seen]> (web.clients rl)) <> 0%nat); [|lia].
    rewrite map_size_ne_0_lookup. exists key'.
    rewrite fin_maps.lookup_insert_eq. eauto. }
  rewrite Sz. cbn [andb].
  assert (Fresh : web.stale rl now seen = false <-> 0 <= web.ttl rl).
  { unfold web.stale, seen. cbn [web.lastSeen].
    assert (Z0 : time_Sub now now = 0)
      by (unfold time_Sub, minDuration, maxDuration; lia).
    rewrite Z0, Z.gtb_ltb. rewrite Z.ltb_ge. tauto. }
  eexists. split; [reflexivity|]. split.
  - intros T. rewrite (proj2 (Z.gtb_lt _ _)) by exact T.
    split; [|split].
    + apply map_lookup_filter_Some. rewrite fin_maps.lookup_insert_eq.
      split; [reflexivity|]. cbn [snd]. apply Fresh. lia.
    + intros k v N. rewrite map_lookup_filter_Some, fin_maps.lookup_insert_ne by congruence.
      cbn [snd]. unfold web.stale. rewrite Z.gtb_ltb, Z.ltb_ge. tauto.
    + intros k v L. apply map_lookup_filter_Some in L as [_ L]. cbn [snd] in L.
      unfold web.stale in L. rewrite Z.gtb_ltb, Z.ltb_ge in L. exact L.
  - intros T. destruct (Z.gtb_spec (web.ttl rl) 0); [lia|reflexivity].
Qed.

(** ** The server *)

(** X14.  What holds of every server [New] returns.  There was a store
    and the templates parsed.  The limit on the size of a paste is
    positive: the configured one, or 1048576 when that is not positive.
    The generator of identifiers is the configured one, or one of length
    12; a generator made by [id.New] has a positive length whatever it was
    given.  The secret that signs cookies is never empty: the configured
    one, or 32 bytes of the random source when none is configured.  A base
    URL, if there is one, has a scheme and a host. *)
Theorem New_invariants {web_lib : Web} {S : Type} (cfg : web.Config S)
  (ParseFS : option error) (source : Entropy) (srv : web.Server) (store : S) :
  web.New cfg ParseFS source = inr (srv, store) ->
  web.Store_ cfg = Some store /\ ParseFS = None
  /\ 0 < web.maxBytes srv
  /\ web.maxBytes srv = (if web.MaxBytes cfg <=? 0 then 1048576 else web.MaxBytes cfg)
  /\ web.idGen srv = match web.IDGenerator cfg with
                     | Some g => g
                     | None => idgen.mkGenerator 12
                     end
  /\ (forall n, 0 < idgen.length (idgen.New n))
  /\ web.cookieSecret srv <> []
  /\ (web.CookieSecret cfg <> [] -> web.cookieSecret srv = web.CookieSecret cfg)
  /\ (web.CookieSecret cfg = [] ->
      length (web.cookieSecret srv) = 32%nat
      /\ exists stream, source = inr stream
                        /\ web.cookieSecret srv = List.map stream (seq 0 32))
  /\ web.trustProxy srv = web.TrustProxy cfg
  /\ match web.baseURL srv with
     | Some u => web.BaseURL cfg <> "" /\ Scheme u <> "" /\ URL_Host u <> ""
     | None => web.BaseURL cfg = ""
     end.
Proof.
  unfold web.New.
  destruct (web.Store_ cfg) as [store0|]; [|discriminate].
  destruct ParseFS as [err|]; [discriminate|].
  assert (G : forall n, 0 < idgen.length (idgen.New n)).
  { intros n. unfold idgen.New. cbn [idgen.length].
    destruct (Z.leb_spec n 0); [reflexivity|assumption]. }
  assert (M : 0 < (if web.MaxBytes cfg <=? 0 then 1048576 else web.MaxBytes cfg))
    by (destruct (Z.leb_spec (web.MaxBytes cfg) 0); lia).
  destruct (if negb (String.eqb (web.BaseURL cfg) "") then _ else _)
    as [err|parsedBase] eqn:U; [discriminate|].
  destruct (if (length (web.CookieSecret cfg) =? 0)%nat then _ else _)
    as [err|secret] eqn:K; [discriminate|].
  intros [= <- <-].
  cbn [web.maxBytes web.idGen web.cookieSecret web.trustProxy web.baseURL].
  split; [reflexivity|]. split; [reflexivity|]. split; [exact M|].
  split; [reflexivity|]. split; [reflexivity|]. split; [exact G|].
  assert (KK : (web.CookieSecret cfg <> [] -> secret = web.CookieSecret cfg)
               /\ (web.CookieSecret cfg = [] ->
                   length secret = 32%nat
                   /\ exists stream, source = inr stream
                                     /\ secret = List.map stream (seq 0 32))).
  { destruct (Nat.eqb_spec (length (web.CookieSecret cfg)) 0) as [L|L].
    - destruct source as [err|stream]; [discriminate|]. cbn [rand_Read] in K.
      injection K as <-. split.
      + intros N. destruct (web.CookieSecret cfg); [contradiction|discriminate].
      + intros _. split; [reflexivity|eauto].
    - injection K as <-. split; [reflexivity|].
      intros N. rewrite N in L. contradiction. }
  split; [|split; [apply KK|split; [apply KK|split; [reflexivity|]]]].
  - destruct (web.CookieSecret cfg) as [|b bs] eqn:C.
    + destruct KK as [_ KK]. destruct (KK eq_refl) as [L _].
      intros N. rewrite N in L. discriminate.
    + destruct KK as [KK _]. rewrite KK by discriminate. discriminate.
  - destruct (String.eqb_spec (web.BaseURL cfg) "") as [B|B]; cbn [negb] in U.
    + injection U as <-. exact B.
    + destruct (url_Parse (web.BaseURL cfg)) as [err|u]; [discriminate|].
      destruct (String.eqb_spec (Scheme u) "") as [Sc|Sc]; [discriminate|].
      destruct (String.eqb_spec (URL_Host u) "") as [Ho|Ho]; [discriminate|].
      injection U as <-. auto.
Qed.

(** ** More on the stores *)

(** X15.  The index key can be read back.  The timestamp that the sweep
    decodes from the first eight bytes of a key is the one [expireKey]
    wrote, the bytes after them are the id, and so two keys are equal
    exactly when their timestamps and their ids are: no two records share
    an entry of the index, and the entries of one record under two
    different expiries differ. *)
Theorem expireKey_decodes (t : time.Time) (id : string) :
  slice_to 8 (boltstore.expireKey t id) ≫= binary.Uint64 = Some (boltstore.toTimestamp t)
  /\ skipn 8 (boltstore.expireKey t id) = bytes_of_string id
  /\ length (boltstore.expireKey t id) = (8 + String.length id)%nat
  /\ forall t' id',
       boltstore.expireKey t id = boltstore.expireKey t' id'
       <-> boltstore.toTimestamp t = boltstore.toTimestamp t' /\ id = id'.
Proof.
  split; [|split; [|split]].
  - rewrite Uint64_slice by (rewrite length_expireKey; lia).
    now rewrite expireKey_timestamp.
  - apply expireKey_id.
  - apply length_expireKey.
  - intros t' id'. split.
    + intros E. split; [|eapply expireKey_inj_id; eauto].
      rewrite <- (expireKey_timestamp t id), <- (expireKey_timestamp t' id').
      now rewrite E.
    + intros [E ->]. unfold boltstore.expireKey. now rewrite E.
Qed.

(** X16.  From the Unix epoch to the end of the 64-bit nanosecond range
    the keys of the index sort by time first and by id second: comparing
    two keys as byte strings is comparing the two instants, and for equal
    instants the two ids. *)
Theorem expireKey_order_since_epoch (t1 t2 : time.Time) (id1 id2 : string) :
  boltspec.in_range t1 -> boltspec.in_range t2 ->
  bytes_Compare (boltstore.expireKey t1 id1) (boltstore.expireKey t2 id2)
  = match time.instant t1 ?= time.instant t2 with
    | Eq => bytes_Compare (bytes_of_string id1) (bytes_of_string id2)
    | c => c
    end.
Proof.
  intros R1 R2. rewrite expireKey_compare, !toTimestamp_in_range by assumption.
  unfold time.unix_ns.
  destruct (Z.compare_spec (time.instant t1) (time.instant t2)) as [E|L|G].
  - rewrite E, Z.compare_refl. reflexivity.
  - assert (C : (time.instant t1 - time.unixToInternal * 1000000000
                 ?= time.instant t2 - time.unixToInternal * 1000000000) = Lt)
      by (apply Z.compare_lt_iff; lia).
    now rewrite C.
  - assert (C : (time.instant t1 - time.unixToInternal * 1000000000
                 ?= time.instant t2 - time.unixToInternal * 1000000000) = Gt)
      by (apply Z.compare_gt_iff; lia).
    now rewrite C.
Qed.

Lemma in_range_now : boltspec.in_range example.now.
Proof. vm_compute. split; [intros H; discriminate H | reflexivity]. Qed.

Lemma in_range_later : boltspec.in_range (time.Add example.now time.Hour).
Proof. vm_compute. split; [intros H; discriminate H | reflexivity]. Qed.

Lemma expireKey_order_since_epoch_witness :
  boltspec.in_range example.now /\ boltspec.in_range (time.Add example.now time.Hour)
  /\ bytes_Compare (boltstore.expireKey example.now "zz")
       (boltstore.expireKey (time.Add example.now time.Hour) "aa") = Lt.
Proof.
  split; [exact in_range_now|]. split; [exact in_range_later|].
  exact (expireKey_order_since_epoch example.now (time.Add example.now time.Hour)
           "zz" "aa" in_range_now in_range_later).
Defined.


(** Two consistent stores that hold the same bytes under an id hold the
    same index entries for it. *)
Lemma index_entries_determined (json_Unmarshal : bytes -> error + Paste)
  (pB eB pB' eB' : bolt.Bucket) (id : string) :
  boltspec.consistent json_Unmarshal pB eB ->
  boltspec.consistent json_Unmarshal pB' eB' ->
  bolt.lookup (bytes_of_string id) pB' = bolt.lookup (bytes_of_string id) pB ->
  boltspec.index_entries id (boltspec.mkdb pB' eB')
  = boltspec.index_entries id (boltspec.mkdb pB eB).
Proof.
  intros C C' L.
  destruct (bolt.lookup (bytes_of_string id) pB) as [raw|] eqn:E.
  - destruct (boltspec.pastes_decode _ _ _ C _ _ E) as (p & Hp & _).
    rewrite (index_entries_record json_Unmarshal pB eB C id raw p E Hp).
    now rewrite (index_entries_record json_Unmarshal pB' eB' C' id raw p L Hp).
  - rewrite (index_entries_absent json_Unmarshal pB eB C id E).
    now rewrite (index_entries_absent json_Unmarshal pB' eB' C' id L).
Qed.

Lemma bytes_of_string_neq (a b : string) :
  a <> b -> bytes_of_string a <> bytes_of_string b.
Proof. intros N E. apply N. now apply bytes_of_string_inj. Qed.

(** X21.  [Delete] of a stored record, on an embedded store reached by
    operations that save no record under an id that is not valid UTF-8.
    The record that [Get] returns for an id carries that id; [Delete] of
    the id succeeds, and afterwards [Get] of the id fails with
    [ErrNotFound], nothing is stored under it and no entry of the index
    names it, while every other id reads as before and keeps its index
    entries. *)
Theorem Delete_removes_record
  (json_Marshal : Paste -> error + bytes) (json_Unmarshal : bytes -> error + Paste) :
  boltspec.json_coerces json_Marshal json_Unmarshal ->
  forall (ops : list boltspec.op) (ctx : context.Context) (id : string) (p : Paste),
    List.Forall boltspec.utf8_op ops ->
    context.Err ctx = None ->
    let s := boltspec.run json_Marshal json_Unmarshal ops boltstore.new_store in
    boltstore.Get json_Unmarshal context.Background id s = (Some p, None) ->
    ID p = id
    /\ exists s',
         boltstore.Delete json_Unmarshal ctx id s = (None, s')
         /\ boltstore.Get json_Unmarshal context.Background id s' = (None, Some ErrNotFound)
         /\ boltspec.raw_record id s' = None
         /\ boltspec.index_entries id s' = []
         /\ forall id', id' <> id ->
              boltstore.Get json_Unmarshal context.Background id' s'
              = boltstore.Get json_Unmarshal context.Background id' s
              /\ boltspec.index_entries id' s' = boltspec.index_entries id' s.
Proof.
  intros RT ops ctx id p V Hctx s.
  destruct (store_ok_run json_Marshal json_Unmarshal RT ops new_store V
              (store_ok_new json_Unmarshal)) as (pB & eB & Hs & C).
  fold s in Hs. rewrite Hs. clear Hs s.
  rewrite Get_mkdb. simpl context.Err. cbv iota.
  destruct (bolt.lookup (bytes_of_string id) pB) as [raw|] eqn:L; [|discriminate].
  destruct (boltspec.pastes_decode _ _ _ C _ _ L) as (q & Hq & Hid).
  rewrite Hq. intros G. injection G as G. subst q.
  apply bytes_of_string_inj in Hid. split; [exact Hid|].
  pose proof (consistent_drop json_Unmarshal pB eB (bytes_of_string id) C) as C'.
  eexists. split; [rewrite Delete_mkdb, Hctx, L; reflexivity|].
  assert (R : bolt.lookup (bytes_of_string id) (bolt.remove (bytes_of_string id) pB) = None)
    by apply lookup_remove_eq.
  split; [|split; [|split]].
  - rewrite Get_mkdb. simpl context.Err. cbv iota. now rewrite R.
  - unfold boltspec.raw_record. now rewrite pastes_mkdb.
  - now apply (index_entries_absent json_Unmarshal _ _ C').
  - intros id' N.
    assert (R' : bolt.lookup (bytes_of_string id') (bolt.remove (bytes_of_string id) pB)
                 = bolt.lookup (bytes_of_string id') pB).
    { apply lookup_remove_ne. intros E. apply N. symmetry. now apply bytes_of_string_inj. }
    split.
    + rewrite !Get_mkdb. simpl context.Err. cbv iota. now rewrite R'.
    + now apply (index_entries_determined json_Unmarshal).
Qed.

(** X22.  [Save] touches one id.  On an embedded store reached by
    operations that save no record under an id that is not valid UTF-8,
    whatever [Save] of a record under such an id does (it may replace a
    record, move its index entry, or fail), every other id reads as
    before, holds the same bytes and keeps its index entries. *)
Theorem Save_leaves_other_records
  (json_Marshal : Paste -> error + bytes) (json_Unmarshal : bytes -> error + Paste) :
  boltspec.json_coerces json_Marshal json_Unmarshal ->
  forall (ops : list boltspec.op) (ctx : context.Context) (paste : Paste) (id' : string),
    List.Forall boltspec.utf8_op ops -> json.valid (ID paste) ->
    let s := boltspec.run json_Marshal json_Unmarshal ops boltstore.new_store in
    let s' := (boltstore.Save json_Marshal json_Unmarshal ctx (Some paste) s).1.2 in
    id' <> ID paste ->
    boltstore.Get json_Unmarshal context.Background id' s'
    = boltstore.Get json_Unmarshal context.Background id' s
    /\ boltspec.raw_record id' s' = boltspec.raw_record id' s
    /\ boltspec.index_entries id' s' = boltspec.index_entries id' s.
Proof.
  intros RT ops ctx paste id' V Vid s s' N.
  destruct (store_ok_run json_Marshal json_Unmarshal RT ops new_store V
              (store_ok_new json_Unmarshal)) as (pB & eB & Hs & C).
  fold s in Hs.
  assert (K : s' = s \/
              exists data eB',
                s' = mkdb (bolt.insert (bytes_of_string (ID paste)) data pB) eB'
                /\ boltspec.consistent json_Unmarshal
                     (bolt.insert (bytes_of_string (ID paste)) data pB) eB').
  { subst s'. rewrite Hs. unfold boltstore.Save.
    destruct (context.Err ctx); [now left|].
    set (q := set_ExpiresAt _ _).
    destruct (json_Marshal q) as [?|data] eqn:Hm; [now left|].
    unfold bolt.Update. rewrite Save_tx_mkdb. cbv zeta.
    destruct (bolt.Put_check _ data); [now left|].
    pose proof (consistent_save json_Marshal json_Unmarshal RT pB eB q data C
                  (normalized_normalize paste) Vid Hm) as S.
    change (ID q) with (ID paste) in *.
    destruct (HasExpiration q).
    - destruct (bolt.Put_check _ _); [now left|].
      right. eexists _, _. split; [reflexivity|exact S].
    - right. eexists _, _. split; [reflexivity|exact S]. }
  destruct K as [->|(data & eB' & -> & C')]; [auto|].
  rewrite Hs.
  assert (L : bolt.lookup (bytes_of_string id')
                (bolt.insert (bytes_of_string (ID paste)) data pB)
              = bolt.lookup (bytes_of_string id') pB).
  { apply lookup_insert_ne. intros E. apply N. symmetry. now apply bytes_of_string_inj. }
  split; [|split].
  - rewrite !Get_mkdb. simpl context.Err. cbv iota. now rewrite L.
  - unfold boltspec.raw_record. now rewrite !pastes_mkdb.
  - now apply (index_entries_determined json_Unmarshal).
Qed.

(** What [Open] leaves of the file. *)
Lemma Open_eq (file : bolt.DB) :
  boltstore.Open file =
  inr (let db := match bolt.lookup pasteBucket file with
                 | Some _ => file
                 | None => bolt.insert pasteBucket ([] : bolt.Bucket) file
                 end in
       match bolt.lookup expireBucket db with
       | Some _ => db
       | None => bolt.insert expireBucket ([] : bolt.Bucket) db
       end).
Proof.
  unfold boltstore.Open, bolt.Update, mbind, bolt.Tx_bind, bolt.wrap,
    bolt.tx_CreateBucketIfNotExists.
  destruct (bolt.lookup pasteBucket file); cbv zeta;
    match goal with |- context [bolt.lookup expireBucket ?d] =>
      destruct (bolt.lookup expireBucket d) end; reflexivity.
Qed.

Lemma bucket_names_differ : pasteBucket <> expireBucket.
Proof. intros E. discriminate E. Qed.

(** X24.  [Open] keeps what the file holds.  The store it returns has
    the two buckets; every bucket of the file is in it with the content it
    had, records and index entries included; the only buckets it adds are
    the two of the store, empty, where the file lacked them; and opening
    the result again returns it as it is. *)
Theorem Open_keeps_the_file (file : bolt.DB) (s : boltstore.Store) :
  boltstore.Open file = inr s ->
  boltspec.initialized s
  /\ (forall name b, bolt.lookup name file = Some b -> bolt.lookup name s = Some b)
  /\ (forall name, bolt.lookup name file = None ->
        bolt.lookup name s =
        if bytes_eqb name pasteBucket || bytes_eqb name expireBucket
        then Some [] else None)
  /\ boltstore.Open s = inr s.
Proof.
  rewrite Open_eq. intros E. injection E as E. cbv zeta in E.
  assert (K : forall name,
            bolt.lookup name s =
            match bolt.lookup name file with
            | Some b => Some b
            | None => if bytes_eqb name pasteBucket || bytes_eqb name expireBucket
                      then Some [] else None
            end).
  { intros name. subst s.
    set (db := match bolt.lookup pasteBucket file with
               | Some _ => file | None => _ end).
    assert (D : bolt.lookup name db =
                match bolt.lookup name file with
                | Some b => Some b
                | None => if bytes_eqb name pasteBucket then Some [] else None
                end).
    { unfold db. destruct (bolt.lookup pasteBucket file) eqn:P.
      - destruct (bolt.lookup name file) eqn:L; [reflexivity|].
        destruct (bytes_eqb name pasteBucket) eqn:B; [|reflexivity].
        apply bytes_eqb_eq in B. congruence.
      - destruct (bytes_eqb name pasteBucket) eqn:B.
        + apply bytes_eqb_eq in B. subst name. now rewrite lookup_insert_eq, P.
        + rewrite lookup_insert_ne.
          * now destruct (bolt.lookup name file).
          * intros N. subst name. now rewrite bytes_eqb_refl in B. }
    destruct (bolt.lookup expireBucket db) eqn:P.
    - rewrite D. destruct (bolt.lookup name file); [reflexivity|].
      destruct (bytes_eqb name pasteBucket); [reflexivity|]. simpl.
      destruct (bytes_eqb name expireBucket) eqn:B; [|reflexivity].
      apply bytes_eqb_eq in B. subst name. rewrite D in P.
      destruct (bolt.lookup expireBucket file); discriminate.
    - destruct (bytes_eqb name expireBucket) eqn:B.
      + apply bytes_eqb_eq in B. subst name. rewrite lookup_insert_eq.
        rewrite D in P. destruct (bolt.lookup expireBucket file); [discriminate|].
        now rewrite orb_true_r.
      + rewrite lookup_insert_ne, D.
        * now rewrite orb_false_r.
        * intros N. subst name. now rewrite bytes_eqb_refl in B. }
  assert (I : boltspec.initialized s).
  { split; rewrite K.
    - rewrite bytes_eqb_refl. now destruct (bolt.lookup pasteBucket file).
    - rewrite bytes_eqb_refl, orb_true_r. now destruct (bolt.lookup expireBucket file). }
  split; [exact I|]. split; [|split].
  - intros name b L. now rewrite K, L.
  - intros name L. now rewrite K, L.
  - rewrite Open_eq. destruct I as [Ip Ie].
    destruct (bolt.lookup pasteBucket s); [|contradiction]. cbv zeta.
    destruct (bolt.lookup expireBucket s); [reflexivity|contradiction].
Qed.

Lemma Open_keeps_the_file_witness :
  boltstore.Open [(pasteBucket, [(bytes_of_string "c1", bytes_of_string "{}")])]
  = inr (boltspec.mkdb [(bytes_of_string "c1", bytes_of_string "{}")] [])
  /\ boltspec.initialized (boltspec.mkdb [(bytes_of_string "c1", bytes_of_string "{}")] []).
Proof.
  assert (E : boltstore.Open [(pasteBucket, [(bytes_of_string "c1", bytes_of_string "{}")])]
              = inr (boltspec.mkdb [(bytes_of_string "c1", bytes_of_string "{}")] []))
    by reflexivity.
  split; [exact E|]. exact (proj1 (Open_keeps_the_file _ _ E)).
Defined.

(** ** From the form to the served paste *)




(** ** The theorems at concrete inputs

    The library classes are instantiated with the small implementations
    of [toy] and [toyweb], the store is the in-memory store of the tests
    and the codec is the one of the examples. *)

Lemma expired_paste_is_not_served_witness :
  storage.Get (Store := memoryStore.memory_Store)
    (http.Context (webtest.request "dead" [] webtest.no_form))
    (http.URLParam (webtest.request "dead" [] webtest.no_form) "id") webtest.shelf
  = (Some example.dead, None)
  /\ time.IsZero (ExpiresAt example.dead) = false
  /\ time.After example.now (ExpiresAt example.dead) = true
  /\ web.handleRaw (store_impl := memoryStore.memory_Store) webtest.server
       (webtest.request "dead" [] webtest.no_form) example.now webtest.shelf None
     = web.reply webtest.shelf (web.notFound None).
Proof.
  assert (G : storage.Get (Store := memoryStore.memory_Store)
                (http.Context (webtest.request "dead" [] webtest.no_form))
                (http.URLParam (webtest.request "dead" [] webtest.no_form) "id")
                webtest.shelf
              = (Some example.dead, None)) by reflexivity.
  assert (Z : time.IsZero (ExpiresAt example.dead) = false) by reflexivity.
  assert (A : time.After example.now (ExpiresAt example.dead) = true) by reflexivity.
  split; [exact G|]. split; [exact Z|]. split; [exact A|].
  exact (proj1 (proj2 (proj2
    (proj1 (expired_paste_is_not_served (store_impl := memoryStore.memory_Store)
              webtest.server (webtest.request "dead" [] webtest.no_form)
              example.now example.now webtest.shelf None example.dead G Z) A)))).
Defined.

Lemma handleCreate_rejects_witness :
  ~ webspec.acceptable webtest.server (webtest.request "" [] webtest.no_form)
  /\ exists w logger',
       web.handleCreate (store_impl := memoryStore.memory_Store) webtest.server
         (webtest.request "" [] webtest.no_form) toyweb.counting toyweb.nanoid
         example.now webtest.shelf None
       = Returns (w, webtest.shelf, logger')
       /\ http.Code w = http.StatusBadRequest.
Proof.
  assert (N : ~ webspec.acceptable webtest.server (webtest.request "" [] webtest.no_form)).
  { intros (_ & [L _] & _). vm_compute in L. discriminate L. }
  split; [exact N|].
  exact (proj1 (handleCreate_rejects (store_impl := memoryStore.memory_Store)
                  webtest.server (webtest.request "" [] webtest.no_form)
                  toyweb.counting toyweb.nanoid example.now webtest.shelf None N)).
Defined.

Lemma handleCreate_saves_witness :
  web.handleCreate (store_impl := memoryStore.memory_Store) webtest.server
    (webtest.request "" [] webtest.form) toyweb.counting toyweb.nanoid
    example.now webtest.shelf None
  = Returns (http.Redirect [] "/p/V1StGXR8_Z5j" http.StatusSeeOther,
             <["V1StGXR8_Z5j" :=
                 mkPaste "V1StGXR8_Z5j" "package main" "go" example.now
                   (time.Add example.now (7 * 24 * time.Hour)) "" 12]> webtest.shelf,
             None)
  /\ webspec.acceptable webtest.server (webtest.request "" [] webtest.form).
Proof.
  assert (E : web.handleCreate (store_impl := memoryStore.memory_Store) webtest.server
                (webtest.request "" [] webtest.form) toyweb.counting toyweb.nanoid
                example.now webtest.shelf None
              = Returns (http.Redirect [] "/p/V1StGXR8_Z5j" http.StatusSeeOther,
                         <["V1StGXR8_Z5j" :=
                             mkPaste "V1StGXR8_Z5j" "package main" "go" example.now
                               (time.Add example.now (7 * 24 * time.Hour)) "" 12]>
                           webtest.shelf,
                         None)) by (vm_compute; reflexivity).
  split; [exact E|].
  exact (proj1 (handleCreate_saves (store_impl := memoryStore.memory_Store)
                  webtest.server (webtest.request "" [] webtest.form)
                  toyweb.counting toyweb.nanoid example.now webtest.shelf None
                  _ _ _ E eq_refl)).
Defined.

Lemma content_needs_authorization_witness :
  web.handleRaw (store_impl := memoryStore.memory_Store) webtest.server
    (webtest.request "locked" [] webtest.no_form) example.now webtest.shelf None
  = Returns ((web.notFound None).1, webtest.shelf, None)
  /\ http.Code (web.notFound None).1 = http.StatusNotFound
  /\ In (http.Code (web.notFound None).1)
       [http.StatusOK; http.StatusNotModified; http.StatusNotFound;
        http.StatusInternalServerError].
Proof.
  assert (E : web.handleRaw (store_impl := memoryStore.memory_Store) webtest.server
                (webtest.request "locked" [] webtest.no_form) example.now webtest.shelf None
              = Returns ((web.notFound None).1, webtest.shelf, None))
    by (vm_compute; reflexivity).
  split; [exact E|]. split; [reflexivity|].
  exact (proj2 (proj1 (content_needs_authorization
                         (store_impl := memoryStore.memory_Store)
                         webtest.server (webtest.request "locked" [] webtest.no_form)
                         example.now webtest.shelf None _ _ _) E)).
Defined.

Lemma password_grants_access_witness :
  http.ParseForm (webtest.request "locked" [] webtest.password_form) = None
  /\ storage.Get (Store := memoryStore.memory_Store) context.Background "locked"
       webtest.shelf = (Some webtest.locked, None)
  /\ webspec.current example.now webtest.locked
  /\ PasswordHash webtest.locked <> ""
  /\ security.VerifyPassword (PasswordHash webtest.locked) "sekret" = Returns (true, None)
  /\ web.handlePassword (store_impl := memoryStore.memory_Store) webtest.server
       (webtest.request "locked" [] webtest.password_form) example.now example.now
       webtest.shelf None
     = Returns (http.Redirect
                  [web.setAuthCookie webtest.server
                     (webtest.request "locked" [] webtest.password_form) "locked"
                     time.zero example.now]
                  "/p/locked" http.StatusSeeOther,
                webtest.shelf, None).
Proof.
  assert (G : storage.Get (Store := memoryStore.memory_Store) context.Background "locked"
                webtest.shelf = (Some webtest.locked, None)) by reflexivity.
  assert (C : webspec.current example.now webtest.locked) by (left; reflexivity).
  assert (N : PasswordHash webtest.locked <> "")
    by (vm_compute; intros H; discriminate H).
  assert (V : security.VerifyPassword (PasswordHash webtest.locked) "sekret"
              = Returns (true, None)) by (vm_compute; reflexivity).
  split; [reflexivity|]. split; [exact G|]. split; [exact C|]. split; [exact N|].
  split; [exact V|].
  exact (proj1 (proj2 (password_grants_access (store_impl := memoryStore.memory_Store)
                         webtest.server
                         (webtest.request "locked" [] webtest.password_form)
                         example.now example.now webtest.shelf None webtest.locked true
                         eq_refl G C N V)) eq_refl).
Defined.

Lemma New_invariants_witness :
  web.New (web.mkConfig (Some webtest.shelf) None 0 false "" []) None toyweb.counting
  = inr (web.mkServer (idgen.New 0) 1048576 false None
           (List.map (fun n => byte.of_Z (Z.of_nat n)) (seq 0 32)),
         webtest.shelf)
  /\ List.map (fun n => byte.of_Z (Z.of_nat n)) (seq 0 32) <> [].
Proof.
  assert (E : web.New (web.mkConfig (Some webtest.shelf) None 0 false "" []) None
                toyweb.counting
              = inr (web.mkServer (idgen.New 0) 1048576 false None
                       (List.map (fun n => byte.of_Z (Z.of_nat n)) (seq 0 32)),
                     webtest.shelf)) by reflexivity.
  split; [exact E|].
  exact (proj1 (proj2 (proj2 (proj2 (proj2 (proj2 (proj2
    (New_invariants _ _ _ _ _ E)))))))).
Defined.

(** *** The stores *)

Lemma sweep_ops_utf8 :
  List.Forall utf8_op
    [op_Save example.bg (Some example.dead); op_Save example.bg (Some example.alive)].
Proof. repeat constructor. Qed.

Lemma DeleteExpired_since_epoch_witness :
  json_coerces jsonlike.Marshal jsonlike.Unmarshal
  /\ List.Forall utf8_op
       [op_Save example.bg (Some example.dead); op_Save example.bg (Some example.alive)]
  /\ context.Err example.bg = None
  /\ exists n s',
       DeleteExpired example.bg example.now
         (run jsonlike.Marshal jsonlike.Unmarshal
            [op_Save example.bg (Some example.dead);
             op_Save example.bg (Some example.alive)] new_store)
       = (n, None, s')
       /\ Get jsonlike.Unmarshal context.Background "dead" s' = (None, Some ErrNotFound)
       /\ Get jsonlike.Unmarshal context.Background "alive" s'
          = (Some example.alive, None).
Proof.
  split; [exact jsonlike_coerces|]. split; [exact sweep_ops_utf8|].
  split; [reflexivity|].
  destruct (DeleteExpired_since_epoch jsonlike.Marshal jsonlike.Unmarshal
              jsonlike_coerces
              [op_Save example.bg (Some example.dead);
               op_Save example.bg (Some example.alive)]
              example.bg example.now sweep_ops_utf8 eq_refl)
    as (n & s' & E & _ & _ & K).
  exists n, s'. split; [exact E|]. split.
  - refine (proj2 (K "dead" example.dead _) eq_refl _ in_range_now).
    + vm_compute. reflexivity.
    + vm_compute. split; [intros H; discriminate H|reflexivity].
  - refine (proj2 (K "alive" example.alive _) eq_refl in_range_later in_range_now).
    vm_compute. reflexivity.
Defined.

Lemma sweep_ancient_utf8 :
  List.Forall utf8_op
    [op_Save example.bg (Some example.dead); op_Save example.bg (Some example.ancient)].
Proof. repeat constructor. Qed.

Lemma DeleteExpired_by_timestamp_witness :
  json_coerces jsonlike.Marshal jsonlike.Unmarshal
  /\ List.Forall utf8_op
       [op_Save example.bg (Some example.dead); op_Save example.bg (Some example.ancient)]
  /\ context.Err example.bg = None
  /\ exists n s',
       DeleteExpired example.bg example.now
         (run jsonlike.Marshal jsonlike.Unmarshal
            [op_Save example.bg (Some example.dead);
             op_Save example.bg (Some example.ancient)] new_store)
       = (n, None, s')
       /\ DeleteExpired example.bg example.now s' = (0, None, s').
Proof.
  split; [exact jsonlike_coerces|]. split; [exact sweep_ancient_utf8|].
  split; [reflexivity|].
  destruct (DeleteExpired_by_timestamp jsonlike.Marshal jsonlike.Unmarshal
              jsonlike_coerces
              [op_Save example.bg (Some example.dead);
               op_Save example.bg (Some example.ancient)]
              example.bg example.now sweep_ancient_utf8 eq_refl)
    as (n & s' & E & _ & _ & I).
  exists n, s'. split; [exact E|]. apply I; [reflexivity|lia].
Defined.

Lemma save_c1_utf8 : List.Forall utf8_op [op_Save example.bg (Some example.c1)].
Proof. repeat constructor. Qed.

Lemma Delete_removes_record_witness :
  json_coerces jsonlike.Marshal jsonlike.Unmarshal
  /\ List.Forall utf8_op [op_Save example.bg (Some example.c1)]
  /\ context.Err example.bg = None
  /\ Get jsonlike.Unmarshal context.Background "c1"
       (run jsonlike.Marshal jsonlike.Unmarshal
          [op_Save example.bg (Some example.c1)] new_store)
     = (Some example.c1, None)
  /\ exists s',
       Delete jsonlike.Unmarshal example.bg "c1"
         (run jsonlike.Marshal jsonlike.Unmarshal [op_Save example.bg (Some example.c1)]
            new_store)
       = (None, s')
       /\ Get jsonlike.Unmarshal context.Background "c1" s' = (None, Some ErrNotFound)
       /\ index_entries "c1" s' = [].
Proof.
  assert (G : Get jsonlike.Unmarshal context.Background "c1"
                (run jsonlike.Marshal jsonlike.Unmarshal
                   [op_Save example.bg (Some example.c1)] new_store)
              = (Some example.c1, None)) by (vm_compute; reflexivity).
  split; [exact jsonlike_coerces|]. split; [exact save_c1_utf8|].
  split; [reflexivity|]. split; [exact G|].
  destruct (Delete_removes_record jsonlike.Marshal jsonlike.Unmarshal jsonlike_coerces
              [op_Save example.bg (Some example.c1)] example.bg "c1" example.c1
              save_c1_utf8 eq_refl G) as (_ & s' & D & N & _ & I & _).
  exists s'. split; [exact D|]. split; [exact N|exact I].
Defined.

Lemma two_saves_utf8 :
  List.Forall utf8_op
    [op_Save example.bg (Some example.c1); op_Save example.bg (Some example.alive)].
Proof. repeat constructor. Qed.

Lemma Save_leaves_other_records_witness :
  json_coerces jsonlike.Marshal jsonlike.Unmarshal
  /\ List.Forall utf8_op
       [op_Save example.bg (Some example.c1); op_Save example.bg (Some example.alive)]
  /\ json.valid (ID example.c1_forever)
  /\ "alive" <> ID example.c1_forever
  /\ Get jsonlike.Unmarshal context.Background "alive"
       (Save jsonlike.Marshal jsonlike.Unmarshal example.bg (Some example.c1_forever)
          (run jsonlike.Marshal jsonlike.Unmarshal
             [op_Save example.bg (Some example.c1);
              op_Save example.bg (Some example.alive)] new_store)).1.2
     = Get jsonlike.Unmarshal context.Background "alive"
         (run jsonlike.Marshal jsonlike.Unmarshal
            [op_Save example.bg (Some example.c1);
             op_Save example.bg (Some example.alive)] new_store).
Proof.
  assert (N : "alive" <> ID example.c1_forever) by (intros H; discriminate H).
  assert (Vid : json.valid (ID example.c1_forever)) by reflexivity.
  split; [exact jsonlike_coerces|]. split; [exact two_saves_utf8|].
  split; [exact Vid|]. split; [exact N|].
  exact (proj1 (Save_leaves_other_records jsonlike.Marshal jsonlike.Unmarshal
                  jsonlike_coerces
                  [op_Save example.bg (Some example.c1);
                   op_Save example.bg (Some example.alive)]
                  example.bg example.c1_forever "alive" two_saves_utf8 Vid N)).
Defined.
